(** * pongo templates: the lexer and the cursor-driven execution engine

    A shallow embedding of [template.go].  The Go code mutates one
    [*Template]; here every function takes the template and returns the
    updated one.  Go's [error] values are only ever used through their
    message ([err.Error()], or the [%s] verb), so an error is modelled by its
    message; the [fmt.Sprintf] formats of the file are functions building
    that message.

    Go's [int] counters ([pos], [start], [length], [line], [col],
    [node_pos]) are natural numbers: in this file they start at zero (or
    one) and are only ever incremented, and each stays below the length of
    the source text or of the node list plus two, far from the 64-bit
    bound.

    [FromFile] takes the text of the template from the file system; it
    comes after the engine, over the functions of [path/filepath] and
    [io/ioutil] it calls. *)

From Stdlib Require Import Ascii String DecimalString Arith Lia.
From stdpp Require Import base list strings gmap.

(** ** Byte strings

    A Go [string] is a sequence of bytes: [String.string]. *)

Module Bytes.

(** [s[i]] where [i] is in range. *)
Definition at_ (s : string) (i : nat) : option ascii := String.get i s.

(** [s[a : a+n]] where the bounds are in range. *)
Definition slice (s : string) (a n : nat) : string := String.substring a n s.

Definition of_codes (l : list nat) : string :=
  string_of_list_ascii (map ascii_of_nat l).

Fixpoint rev_onto (s acc : string) : string :=
  match s with
  | EmptyString => acc
  | String c s' => rev_onto s' (String c acc)
  end.

Definition rev (s : string) : string := rev_onto s EmptyString.

(** [drop_prefix p s] is [Some r] when [s = p ++ r]. *)
Fixpoint drop_prefix (p s : string) : option string :=
  match p with
  | EmptyString => Some s
  | String a p' =>
      match s with
      | EmptyString => None
      | String b s' => if Ascii.eqb a b then drop_prefix p' s' else None
      end
  end.

Fixpoint contains (c : ascii) (s : string) : bool :=
  match s with
  | EmptyString => false
  | String b s' => Ascii.eqb c b || contains c s'
  end.

Fixpoint join (sep : string) (l : list string) : string :=
  match l with
  | [] => EmptyString
  | [x] => x
  | x :: l' => x +:+ sep +:+ join sep l'
  end.

End Bytes.

(** ** The pieces of Go's standard library the file calls *)

Module GoStrings.

(** The UTF-8 encodings of the code points [unicode.IsSpace] accepts:
    tab, line feed, vertical tab, form feed, carriage return, space,
    U+0085, U+00A0 and the other code points with the White_Space
    property (U+1680, U+2000 to U+200A, U+2028, U+2029, U+202F, U+205F,
    U+3000).  Go decodes only shortest-form UTF-8, so these byte
    sequences are the only ones that decode to a space. *)
Definition space_codes : list (list nat) :=
  [ [9]; [10]; [11]; [12]; [13]; [32];
    [194; 133]; [194; 160];
    [225; 154; 128];
    [226; 128; 128]; [226; 128; 129]; [226; 128; 130]; [226; 128; 131];
    [226; 128; 132]; [226; 128; 133]; [226; 128; 134]; [226; 128; 135];
    [226; 128; 136]; [226; 128; 137]; [226; 128; 138];
    [226; 128; 168]; [226; 128; 169]; [226; 128; 175];
    [226; 129; 159];
    [227; 128; 128] ].

Definition spaces : list string := map Bytes.of_codes space_codes.

(** The first of [ps] that is a prefix of [s], removed. *)
Fixpoint strip_one (ps : list string) (s : string) : option string :=
  match ps with
  | [] => None
  | p :: ps' =>
      match Bytes.drop_prefix p s with
      | Some r => Some r
      | None => strip_one ps' s
      end
  end.

(** Removes leading members of [ps]; [n] bounds the number of removals
    and is the length of the text where it is called. *)
Fixpoint strip_many (n : nat) (ps : list string) (s : string) : string :=
  match n with
  | 0 => s
  | S n' =>
      match strip_one ps s with
      | Some r => strip_many n' ps r
      | None => s
      end
  end.

Definition TrimLeftSpace (s : string) : string :=
  strip_many (String.length s) spaces s.

Definition TrimRightSpace (s : string) : string :=
  Bytes.rev (strip_many (String.length s) (map Bytes.rev spaces) (Bytes.rev s)).

(** [strings.TrimSpace]: leading, then trailing white space removed. *)
Definition TrimSpace (s : string) : string :=
  TrimRightSpace (TrimLeftSpace s).

(** [cut sep s]: the text before the first byte [sep] and, when there is
    one, the text after it. *)
Fixpoint cut (sep : ascii) (s : string) : string * option string :=
  match s with
  | EmptyString => (EmptyString, None)
  | String c s' =>
      if Ascii.eqb c sep then (EmptyString, Some s')
      else let '(a, r) := cut sep s' in (String c a, r)
  end.

(** [strings.SplitN(s, sep, 2)] for a one-byte separator: at most two
    pieces, split at the first separator; the whole text when there is
    none. *)
Definition SplitN2 (s : string) (sep : ascii) : list string :=
  match cut sep s with
  | (a, None) => [a]
  | (a, Some r) => [a; r]
  end.

End GoStrings.

Module GoFmt.

(** The verb [%d] on a non-negative [int]. *)
Definition d (n : nat) : string := NilEmpty.string_of_uint (Nat.to_uint n).

(** The verb [%c] on a [byte]: the UTF-8 encoding of the code point with
    that number, one byte below 128 and two bytes from 128 on. *)
Definition c (b : ascii) : string :=
  let n := nat_of_ascii b in
  if Nat.ltb n 128 then String b EmptyString
  else String (ascii_of_nat (192 + n / 64))
         (String (ascii_of_nat (128 + n mod 64)) EmptyString).

(** The verb [%v] on a [[]string]. *)
Definition v (l : list string) : string := "[" +:+ Bytes.join " " l +:+ "]".

End GoFmt.

(** ** Source positions, counted over the text

    The line and column of the byte at offset [p] as the position tracker
    counts them: a line feed starts a line and sits at its column 0, every
    other byte is one column further than the byte before it. *)

Module Position.

Definition newline : ascii := "010"%char.

Definition bytes (s : string) : list ascii := list_ascii_of_string s.

(** The bytes at offsets [0] to [p]. *)
Definition upto (s : string) (p : nat) : list ascii := take (S p) (bytes s).

(** The length of the longest prefix of [l] without a line feed. *)
Fixpoint run (l : list ascii) : nat :=
  match l with
  | [] => 0
  | c :: l' => if Ascii.eqb c newline then 0 else S (run l')
  end.

(** One more than the number of line feeds at offsets [0] to [p]. *)
Definition line_at (s : string) (p : nat) : nat :=
  S (length (filter (λ c, c = newline) (upto s p))).

(** The number of bytes after the last line feed at offsets [0] to [p]. *)
Definition col_at (s : string) (p : nat) : nat :=
  run (reverse (upto s p)).

End Position.

(** ** The data model *)

Section Engine.

(** What the file takes from the rest of the package: the compiled
    expression of a filter region ([expr], built by [newExpr], extended by
    [addFilter]), the variable context, the template locator and the tag
    registry [Tags].  A [*TagHandler] that is not nil is a [TagHandler];
    the registry maps a name to such a pointer or to nil. *)
Variable expr : Type.
Variable TagHandler : Type.
Variable Context : Type.
Variable templateLocator : Type.

Variable newExpr : string -> expr + string.
Variable addFilter : expr -> string -> expr.
Variable Tags : gmap string (option TagHandler).

(** [Context] is a map type: its zero value is the nil map, and
    [make(Context)] or [Context{}] an empty one. *)
Variable Context_is_nil : Context -> bool.
Variable Context_empty : Context.

Record contentNode := {
  cn_line : nat;
  cn_col : nat;
  cn_content : string
}.

Record filterNode := {
  fn_line : nat;
  fn_col : nat;
  fn_content : string;
  fn_e : expr
}.

Record tagNode := {
  tn_line : nat;
  tn_col : nat;
  tn_content : string;
  tn_tagname : string;
  tn_tagargs : string;
  tn_taghandler : option TagHandler;
  tn_ident : string;
  tn_args : list string
}.

(** The three implementations of the [node] interface. *)
Inductive node :=
| ContentNode (cn : contentNode)
| FilterNode (fn : filterNode)
| TagNode (tn : tagNode).

Definition getLine (n : node) : nat :=
  match n with
  | ContentNode cn => cn_line cn
  | FilterNode fn => fn_line fn
  | TagNode tn => tn_line tn
  end.

Definition getCol (n : node) : nat :=
  match n with
  | ContentNode cn => cn_col cn
  | FilterNode fn => fn_col fn
  | TagNode tn => tn_col tn
  end.

Definition getContent (n : node) : string :=
  match n with
  | ContentNode cn => cn_content cn
  | FilterNode fn => fn_content fn
  | TagNode tn => tn_content tn
  end.

Record Template := {
  tpl_name : string;
  tpl_parsed : bool;
  tpl_raw : string;
  tpl_rawLen : nat;
  tpl_pos : nat;
  tpl_start : nat;
  tpl_length : nat;
  tpl_err : string;
  tpl_line : nat;
  tpl_col : nat;
  tpl_autosafe : bool;
  tpl_nodes : list node;
  tpl_node_pos : nat;
  tpl_locator : option templateLocator;
  tpl_internal_context : Context
}.

Definition set_parsed (v : bool) (tpl : Template) : Template :=
  {| tpl_name := tpl_name tpl;
     tpl_parsed := v;
     tpl_raw := tpl_raw tpl;
     tpl_rawLen := tpl_rawLen tpl;
     tpl_pos := tpl_pos tpl;
     tpl_start := tpl_start tpl;
     tpl_length := tpl_length tpl;
     tpl_err := tpl_err tpl;
     tpl_line := tpl_line tpl;
     tpl_col := tpl_col tpl;
     tpl_autosafe := tpl_autosafe tpl;
     tpl_nodes := tpl_nodes tpl;
     tpl_node_pos := tpl_node_pos tpl;
     tpl_locator := tpl_locator tpl;
     tpl_internal_context := tpl_internal_context tpl |}.

Definition set_pos (v : nat) (tpl : Template) : Template :=
  {| tpl_name := tpl_name tpl;
     tpl_parsed := tpl_parsed tpl;
     tpl_raw := tpl_raw tpl;
     tpl_rawLen := tpl_rawLen tpl;
     tpl_pos := v;
     tpl_start := tpl_start tpl;
     tpl_length := tpl_length tpl;
     tpl_err := tpl_err tpl;
     tpl_line := tpl_line tpl;
     tpl_col := tpl_col tpl;
     tpl_autosafe := tpl_autosafe tpl;
     tpl_nodes := tpl_nodes tpl;
     tpl_node_pos := tpl_node_pos tpl;
     tpl_locator := tpl_locator tpl;
     tpl_internal_context := tpl_internal_context tpl |}.

Definition set_start (v : nat) (tpl : Template) : Template :=
  {| tpl_name := tpl_name tpl;
     tpl_parsed := tpl_parsed tpl;
     tpl_raw := tpl_raw tpl;
     tpl_rawLen := tpl_rawLen tpl;
     tpl_pos := tpl_pos tpl;
     tpl_start := v;
     tpl_length := tpl_length tpl;
     tpl_err := tpl_err tpl;
     tpl_line := tpl_line tpl;
     tpl_col := tpl_col tpl;
     tpl_autosafe := tpl_autosafe tpl;
     tpl_nodes := tpl_nodes tpl;
     tpl_node_pos := tpl_node_pos tpl;
     tpl_locator := tpl_locator tpl;
     tpl_internal_context := tpl_internal_context tpl |}.

Definition set_length (v : nat) (tpl : Template) : Template :=
  {| tpl_name := tpl_name tpl;
     tpl_parsed := tpl_parsed tpl;
     tpl_raw := tpl_raw tpl;
     tpl_rawLen := tpl_rawLen tpl;
     tpl_pos := tpl_pos tpl;
     tpl_start := tpl_start tpl;
     tpl_length := v;
     tpl_err := tpl_err tpl;
     tpl_line := tpl_line tpl;
     tpl_col := tpl_col tpl;
     tpl_autosafe := tpl_autosafe tpl;
     tpl_nodes := tpl_nodes tpl;
     tpl_node_pos := tpl_node_pos tpl;
     tpl_locator := tpl_locator tpl;
     tpl_internal_context := tpl_internal_context tpl |}.

Definition set_err (v : string) (tpl : Template) : Template :=
  {| tpl_name := tpl_name tpl;
     tpl_parsed := tpl_parsed tpl;
     tpl_raw := tpl_raw tpl;
     tpl_rawLen := tpl_rawLen tpl;
     tpl_pos := tpl_pos tpl;
     tpl_start := tpl_start tpl;
     tpl_length := tpl_length tpl;
     tpl_err := v;
     tpl_line := tpl_line tpl;
     tpl_col := tpl_col tpl;
     tpl_autosafe := tpl_autosafe tpl;
     tpl_nodes := tpl_nodes tpl;
     tpl_node_pos := tpl_node_pos tpl;
     tpl_locator := tpl_locator tpl;
     tpl_internal_context := tpl_internal_context tpl |}.

Definition set_line (v : nat) (tpl : Template) : Template :=
  {| tpl_name := tpl_name tpl;
     tpl_parsed := tpl_parsed tpl;
     tpl_raw := tpl_raw tpl;
     tpl_rawLen := tpl_rawLen tpl;
     tpl_pos := tpl_pos tpl;
     tpl_start := tpl_start tpl;
     tpl_length := tpl_length tpl;
     tpl_err := tpl_err tpl;
     tpl_line := v;
     tpl_col := tpl_col tpl;
     tpl_autosafe := tpl_autosafe tpl;
     tpl_nodes := tpl_nodes tpl;
     tpl_node_pos := tpl_node_pos tpl;
     tpl_locator := tpl_locator tpl;
     tpl_internal_context := tpl_internal_context tpl |}.

Definition set_col (v : nat) (tpl : Template) : Template :=
  {| tpl_name := tpl_name tpl;
     tpl_parsed := tpl_parsed tpl;
     tpl_raw := tpl_raw tpl;
     tpl_rawLen := tpl_rawLen tpl;
     tpl_pos := tpl_pos tpl;
     tpl_start := tpl_start tpl;
     tpl_length := tpl_length tpl;
     tpl_err := tpl_err tpl;
     tpl_line := tpl_line tpl;
     tpl_col := v;
     tpl_autosafe := tpl_autosafe tpl;
     tpl_nodes := tpl_nodes tpl;
     tpl_node_pos := tpl_node_pos tpl;
     tpl_locator := tpl_locator tpl;
     tpl_internal_context := tpl_internal_context tpl |}.

Definition set_nodes (v : list node) (tpl : Template) : Template :=
  {| tpl_name := tpl_name tpl;
     tpl_parsed := tpl_parsed tpl;
     tpl_raw := tpl_raw tpl;
     tpl_rawLen := tpl_rawLen tpl;
     tpl_pos := tpl_pos tpl;
     tpl_start := tpl_start tpl;
     tpl_length := tpl_length tpl;
     tpl_err := tpl_err tpl;
     tpl_line := tpl_line tpl;
     tpl_col := tpl_col tpl;
     tpl_autosafe := tpl_autosafe tpl;
     tpl_nodes := v;
     tpl_node_pos := tpl_node_pos tpl;
     tpl_locator := tpl_locator tpl;
     tpl_internal_context := tpl_internal_context tpl |}.

Definition set_node_pos (v : nat) (tpl : Template) : Template :=
  {| tpl_name := tpl_name tpl;
     tpl_parsed := tpl_parsed tpl;
     tpl_raw := tpl_raw tpl;
     tpl_rawLen := tpl_rawLen tpl;
     tpl_pos := tpl_pos tpl;
     tpl_start := tpl_start tpl;
     tpl_length := tpl_length tpl;
     tpl_err := tpl_err tpl;
     tpl_line := tpl_line tpl;
     tpl_col := tpl_col tpl;
     tpl_autosafe := tpl_autosafe tpl;
     tpl_nodes := tpl_nodes tpl;
     tpl_node_pos := v;
     tpl_locator := tpl_locator tpl;
     tpl_internal_context := tpl_internal_context tpl |}.

Definition set_internal_context (v : Context) (tpl : Template) : Template :=
  {| tpl_name := tpl_name tpl;
     tpl_parsed := tpl_parsed tpl;
     tpl_raw := tpl_raw tpl;
     tpl_rawLen := tpl_rawLen tpl;
     tpl_pos := tpl_pos tpl;
     tpl_start := tpl_start tpl;
     tpl_length := tpl_length tpl;
     tpl_err := tpl_err tpl;
     tpl_line := tpl_line tpl;
     tpl_col := tpl_col tpl;
     tpl_autosafe := tpl_autosafe tpl;
     tpl_nodes := tpl_nodes tpl;
     tpl_node_pos := tpl_node_pos tpl;
     tpl_locator := tpl_locator tpl;
     tpl_internal_context := v |}.

(** ** The position tracker *)

Definition hasReachedEnd (rel : nat) (tpl : Template) : bool :=
  tpl_rawLen tpl <=? tpl_pos tpl + rel.

(** [tpl.raw[i]].  Every call below is guarded by [hasReachedEnd], and
    [rawLen] is [len(raw)], so the index is in range; the zero byte stands
    for the index that does not exist. *)
Definition rawAt (tpl : Template) (i : nat) : ascii :=
  default "000"%char (Bytes.at_ (tpl_raw tpl) i).

Definition getChar (rel : nat) (tpl : Template) : ascii * bool :=
  if hasReachedEnd rel tpl then ("000"%char, false)
  else (rawAt tpl (tpl_pos tpl + rel), true).

(** Must be called after every change of [pos]. *)
Definition updatePosition (tpl : Template) : Template * bool :=
  if hasReachedEnd 0 tpl then (tpl, false)
  else if Ascii.eqb (rawAt tpl (tpl_pos tpl)) "010"%char
       then (set_col 0 (set_line (S (tpl_line tpl)) tpl), true)
       else (set_col (S (tpl_col tpl)) tpl, true).

(** [for x := 0; x < rel; x++ { tpl.pos++; if !tpl.updatePosition() { return false } }] *)
Fixpoint fastForward (rel : nat) (tpl : Template) : Template * bool :=
  match rel with
  | 0 => (tpl, true)
  | S rel' =>
      let '(tpl1, ok) := updatePosition (set_pos (S (tpl_pos tpl)) tpl) in
      if ok then fastForward rel' tpl1 else (tpl1, false)
  end.

(** ** Parser glue: the three node builders *)

(** [tpl.raw[tpl.start : tpl.start+tpl.length]] *)
Definition captured (tpl : Template) : string :=
  Bytes.slice (tpl_raw tpl) (tpl_start tpl) (tpl_length tpl).

Definition addContentNode (tpl : Template) : Template :=
  if tpl_length tpl =? 0 then tpl
  else
    let cn := {| cn_line := tpl_line tpl;
                 cn_col := tpl_col tpl;
                 cn_content := captured tpl |} in
    set_nodes (tpl_nodes tpl ++ [ContentNode cn])
      (set_length 0 (set_start (tpl_pos tpl) tpl)).

(** The result is the updated template and the error, [None] for nil. *)
Definition addFilterNode (tpl : Template) : Template * option string :=
  if tpl_length tpl =? 0 then (tpl, Some "Empty filter")
  else
    let content := GoStrings.TrimSpace (captured tpl) in
    match newExpr content with
    | inr err => (tpl, Some err)
    | inl e =>
        let e := if tpl_autosafe tpl then addFilter e "safe" else e in
        let fn := {| fn_line := tpl_line tpl;
                     fn_col := tpl_col tpl;
                     fn_content := content;
                     fn_e := e |} in
        (set_nodes (tpl_nodes tpl ++ [FilterNode fn])
           (set_length 0 (set_start (tpl_pos tpl) tpl)), None)
    end.

Definition tag_missing (tagname : string) : string :=
  "Tag '" +:+ tagname +:+ "' does not exist".

Definition addTagNode (tpl : Template) : Template * option string :=
  if tpl_length tpl =? 0 then (tpl, Some "Empty tag")
  else
    let content := GoStrings.TrimSpace (captured tpl) in
    let args := GoStrings.SplitN2 content " "%char in
    if length args <? 1 then (tpl, Some "Tag must contain at least a name")
    else
      let tagname := nth 0 args "" in
      let tagargs := if length args =? 2 then nth 1 args "" else "" in
      match Tags !! tagname with
      | None => (tpl, Some (tag_missing tagname))
      | Some tag =>
          let tn := {| tn_line := tpl_line tpl;
                       tn_col := tpl_col tpl;
                       tn_content := content;
                       tn_tagname := tagname;
                       tn_tagargs := GoStrings.TrimSpace tagargs;
                       tn_taghandler := tag;
                       tn_ident := "";
                       tn_args := [] |} in
          (set_nodes (tpl_nodes tpl ++ [TagNode tn])
             (set_length 0 (set_start (tpl_pos tpl) tpl)), None)
      end.

(** ** The lexer

    A [stateFunc] is one of the four scanning functions; nil, the end of
    the parse, is [None]. *)
Inductive stateFunc := StContent | StComment | StFilter | StTag.

Definition processComment (tpl : Template) : Template * option stateFunc :=
  let '(c, success) := getChar 0 tpl in
  if negb success then (set_err "File end reached within comment" tpl, None)
  else
    let scan := (fst (fastForward 1 tpl), Some StComment) in
    if Ascii.eqb c "#"%char then
      let '(nc, success) := getChar 1 tpl in
      if negb success then (set_err "File end reached within comment" tpl, None)
      else if Ascii.eqb nc "}"%char then
        let tpl := fst (fastForward 2 tpl) in
        (set_start (tpl_pos tpl) tpl, Some StContent)
      else scan
    else scan.

Definition processFilter (tpl : Template) : Template * option stateFunc :=
  let '(c, success) := getChar 0 tpl in
  if negb success then (set_err "File end reached within filter" tpl, None)
  else
    let scan :=
      (fst (fastForward 1 (set_length (S (tpl_length tpl)) tpl)), Some StFilter) in
    if Ascii.eqb c "}"%char then
      let '(nc, success) := getChar 1 tpl in
      if negb success then (set_err "File end reached within filter" tpl, None)
      else if Ascii.eqb nc "}"%char then
        match addFilterNode tpl with
        | (tpl, Some err) => (set_err err tpl, None)
        | (tpl, None) =>
            let tpl := fst (fastForward 2 tpl) in
            (set_start (tpl_pos tpl) tpl, Some StContent)
        end
      else scan
    else scan.

Definition processTag (tpl : Template) : Template * option stateFunc :=
  let '(c, success) := getChar 0 tpl in
  if negb success then (set_err "File end reached within tag" tpl, None)
  else
    let scan :=
      (fst (fastForward 1 (set_length (S (tpl_length tpl)) tpl)), Some StTag) in
    if Ascii.eqb c "%"%char then
      let '(nc, success) := getChar 1 tpl in
      if negb success then (set_err "File end reached within tag" tpl, None)
      else if Ascii.eqb nc "}"%char then
        match addTagNode tpl with
        | (tpl, Some err) => (set_err err tpl, None)
        | (tpl, None) =>
            let tpl := fst (fastForward 2 tpl) in
            (set_start (tpl_pos tpl) tpl, Some StContent)
        end
      else scan
    else scan.

Definition unknown_open (nc : ascii) : string :=
  "Unknown open command ('" +:+ GoFmt.c nc +:+ "').".

Definition processContent (tpl : Template) : Template * option stateFunc :=
  let '(c, success) := getChar 0 tpl in
  if negb success then (addContentNode tpl, None)
  else if Ascii.eqb c "{"%char then
    let '(nc, success) := getChar 1 tpl in
    if negb success then (set_err "File end reached (after opening '{')" tpl, None)
    else
      let tpl := fst (fastForward 2 tpl) in
      let opened (next : stateFunc) :=
        let tpl := addContentNode tpl in
        (set_start (tpl_pos tpl) tpl, Some next) in
      if Ascii.eqb nc "#"%char then opened StComment
      else if Ascii.eqb nc "%"%char then opened StTag
      else if Ascii.eqb nc "{"%char then opened StFilter
      else (set_err (unknown_open nc) tpl, None)
  else
    (fst (fastForward 1 (set_length (S (tpl_length tpl)) tpl)), Some StContent).

(** Calling a [stateFunc]. *)
Definition call (state : stateFunc) (tpl : Template) : Template * option stateFunc :=
  match state with
  | StContent => processContent tpl
  | StComment => processComment tpl
  | StFilter => processFilter tpl
  | StTag => processTag tpl
  end.

(** [for state != nil { state = state(tpl) }]; [fuel] bounds the number
    of iterations and [None] means it ran out. *)
Fixpoint states (fuel : nat) (state : option stateFunc) (tpl : Template)
  : option Template :=
  match state with
  | None => Some tpl
  | Some f =>
      match fuel with
      | 0 => None
      | S fuel' => let '(tpl1, next) := call f tpl in states fuel' next tpl1
      end
  end.

Definition parsing_error (name : string) (line col : nat) (err : string) : string :=
  "[Parsing error: " +:+ name +:+ "] [Line " +:+ GoFmt.d line +:+ ", Column "
    +:+ GoFmt.d col +:+ "] " +:+ err.

(** The loop of [parse] runs at most once per byte still to read, plus
    the final call: [parse_fuel] iterations are enough
    ([parse_returns]). *)
Definition parse_fuel (tpl : Template) : nat := S (tpl_rawLen tpl - tpl_pos tpl).

Definition parse (tpl : Template) : option (Template * option string) :=
  if tpl_parsed tpl then Some (tpl, None)
  else
    let tpl := fst (updatePosition tpl) in
    let '(tpl1, state) := processContent tpl in
    match states (parse_fuel tpl) state tpl1 with
    | None => None
    | Some tpl2 =>
        if 0 <? String.length (tpl_err tpl2) then
          Some (tpl2, Some (parsing_error (tpl_name tpl2) (tpl_line tpl2)
                              (tpl_col tpl2) (tpl_err tpl2)))
        else Some (set_parsed true tpl2, None)
    end.

Definition newTemplate (name tplstr : string) (locator : option templateLocator)
  : Template + string :=
  let tplLen := String.length tplstr in
  if tplLen =? 0 then inr "Template has no content"
  else inl {| tpl_name := name;
              tpl_parsed := false;
              tpl_raw := tplstr;
              tpl_rawLen := tplLen;
              tpl_pos := 0;
              tpl_start := 0;
              tpl_length := 0;
              tpl_err := "";
              tpl_line := 1;
              tpl_col := 0;
              tpl_autosafe := true;
              tpl_nodes := [];
              tpl_node_pos := 0;
              tpl_locator := locator;
              tpl_internal_context := Context_empty |}.

(** Creates a new template instance from string. *)
Definition FromString (name tplstr : string) (locator : option templateLocator)
  : option (Template + string) :=
  match newTemplate name tplstr locator with
  | inr err => Some (inr err)
  | inl tpl =>
      match parse tpl with
      | None => None
      | Some (_, Some err) => Some (inr err)
      | Some (tpl, None) => Some (inl tpl)
      end
  end.

(** ** Executing nodes

    What Go returns as a string pointer and an [error] is a [result]: the
    text, or the message of the error. *)
Inductive result (A : Type) :=
| Ok (a : A)
| Err (msg : string).
Global Arguments Ok {A} a.
Global Arguments Err {A} msg.

(** A call that returns, or a run-time panic. *)
Inductive outcome (A : Type) :=
| Returns (a : A)
| Panics (msg : string).
Global Arguments Returns {A} a.
Global Arguments Panics {A} msg.

(** The behaviour of the collaborators that run while a template is
    executed.  Each receives pointers, so each is a transformer of what it
    can reach: [evalString] of the context, a handler's [Execute] of the
    template (its cursor included) and the context, a handler's [Ignore]
    of the template.  [Execute] and [Ignore] are function fields of the
    handler; the file tests [Ignore] against nil before the call and
    calls [Execute] without a test, so [Ignore] is optional here and
    [Execute] is taken to be set. *)
Variable evalString : expr -> Context -> Context * result string.
Variable handler_Execute :
  TagHandler -> string -> Template -> Context -> Template * Context * result string.
Variable handler_Ignore : TagHandler -> option (string -> Template -> Template).

Definition contentNode_execute (cn : contentNode) (tpl : Template) (ctx : Context)
  : Template * Context * result string :=
  (tpl, ctx, Ok (cn_content cn)).

Definition filterNode_execute (fn : filterNode) (tpl : Template) (ctx : Context)
  : Template * Context * result string :=
  let '(ctx, out) := evalString (fn_e fn) ctx in (tpl, ctx, out).

Definition unhandled_placeholder (tagname : string) : string :=
  "Unhandled placeholder (for example 'endif' for an if-clause): '" +:+ tagname +:+ "'".

Definition tagNode_execute (tn : tagNode) (tpl : Template) (ctx : Context)
  : Template * Context * result string :=
  match tn_taghandler tn with
  | None => (tpl, ctx, Err (unhandled_placeholder (tn_tagname tn)))
  | Some h => handler_Execute h (tn_tagargs tn) tpl ctx
  end.

(** [node.execute(tpl, ctx)], dispatched on the dynamic type. *)
Definition execute (n : node) (tpl : Template) (ctx : Context)
  : Template * Context * result string :=
  match n with
  | ContentNode cn => contentNode_execute cn tpl ctx
  | FilterNode fn => filterNode_execute fn tpl ctx
  | TagNode tn => tagNode_execute tn tpl ctx
  end.

(** ** The execution engine *)

Definition node_error (prefix name : string) (n : node) (err : string) : string :=
  "[" +:+ prefix +:+ ": " +:+ name +:+ "] [Line " +:+ GoFmt.d (getLine n) +:+ " Col "
    +:+ GoFmt.d (getCol n) +:+ " (" +:+ getContent n +:+ ")] " +:+ err.

Definition no_end_node (nodenames : list string) : string :=
  "No end-node (possible nodes: " +:+ GoFmt.v nodenames +:+ ") found.".

(** [tpl.node_pos++] *)
Definition next_node (tpl : Template) : Template :=
  set_node_pos (S (tpl_node_pos tpl)) tpl.

(** The node under the cursor; there is one exactly when
    [tpl.node_pos < len(tpl.nodes)], the condition of the three loops. *)
Definition current (tpl : Template) : option node :=
  tpl_nodes tpl !! tpl_node_pos tpl.

Definition setInternalContext (ctx : Context) (tpl : Template) : Template :=
  set_internal_context ctx tpl.

(** The loop of [Execute].  A handler may move the cursor anywhere, so
    the loop is bounded by [fuel]; [None] means the bound was reached. *)
Fixpoint Execute_loop (fuel : nat) (tpl : Template) (ctx : Context)
    (renderedStrings : list string) : option (Template * Context * result string) :=
  match current tpl with
  | None => Some (tpl, ctx, Ok (Bytes.join "" renderedStrings))
  | Some node =>
      match fuel with
      | 0 => None
      | S fuel' =>
          match execute node tpl ctx with
          | (tpl, ctx, Err err) =>
              Some (tpl, ctx, Err (node_error "Error" (tpl_name tpl) node err))
          | (tpl, ctx, Ok str) =>
              Execute_loop fuel' (next_node tpl) ctx (renderedStrings ++ [str])
          end
      end
  end.

Definition Execute (fuel : nat) (tpl : Template) (ctx : Context)
  : option (Template * Context * result string) :=
  let ctx := if Context_is_nil ctx then Context_empty else ctx in
  Execute_loop fuel tpl ctx [].

(** [tn.tagname == name] for one of the [nodenames]. *)
Definition is_end_node (n : node) (nodenames : list string) : option tagNode :=
  match n with
  | TagNode tn =>
      if existsb (String.eqb (tn_tagname tn)) nodenames then Some tn else None
  | _ => None
  end.

Fixpoint executeUntil_loop (fuel : nat) (tpl : Template) (ctx : Context)
    (nodenames : list string) (renderedStrings : list string)
  : option (Template * Context * result (tagNode * list string)) :=
  match current tpl with
  | None => Some (tpl, ctx, Err (no_end_node nodenames))
  | Some node =>
      match is_end_node node nodenames with
      | Some tn => Some (tpl, ctx, Ok (tn, renderedStrings))
      | None =>
          match fuel with
          | 0 => None
          | S fuel' =>
              match execute node tpl ctx with
              | (tpl, ctx, Err err) =>
                  Some (tpl, ctx,
                        Err (node_error "Error in block-execution" (tpl_name tpl) node err))
              | (tpl, ctx, Ok str) =>
                  executeUntil_loop fuel' (next_node tpl) ctx nodenames
                    (renderedStrings ++ [str])
              end
          end
      end
  end.

(** The function starts with
    [make([]string, 0, len(tpl.nodes)-tpl.node_pos)], which panics on a
    negative capacity: when the cursor is more than one past the last
    node. *)
Definition executeUntilAnyTagNode (fuel : nat) (tpl : Template) (ctx : Context)
    (nodenames : list string)
  : option (outcome (Template * Context * result (tagNode * list string))) :=
  if length (tpl_nodes tpl) <? tpl_node_pos tpl
  then Some (Panics "runtime error: makeslice: cap out of range")
  else option_map Returns (executeUntil_loop fuel (next_node tpl) ctx nodenames []).

(** [if tn.taghandler != nil && tn.taghandler.Ignore != nil { ... }] *)
Definition notify_ignored (n : node) (tpl : Template) : Template :=
  match n with
  | TagNode tn =>
      match tn_taghandler tn with
      | Some h =>
          match handler_Ignore h with
          | Some ignore => ignore (tn_tagargs tn) tpl
          | None => tpl
          end
      | None => tpl
      end
  | _ => tpl
  end.

Fixpoint ignoreUntil_loop (fuel : nat) (tpl : Template) (nodenames : list string)
  : option (Template * result tagNode) :=
  match current tpl with
  | None => Some (tpl, Err (no_end_node nodenames))
  | Some node =>
      match is_end_node node nodenames with
      | Some tn => Some (tpl, Ok tn)
      | None =>
          match fuel with
          | 0 => None
          | S fuel' => ignoreUntil_loop fuel' (next_node (notify_ignored node tpl)) nodenames
          end
      end
  end.

Definition ignoreUntilAnyTagNode (fuel : nat) (tpl : Template) (nodenames : list string)
  : option (Template * result tagNode) :=
  ignoreUntil_loop fuel (next_node tpl) nodenames.

(** * The vocabulary of the properties *)

(** The offset of the last byte the tracker has counted: the scanner's
    offset, or the last byte of the text once the scanner is past it. *)
Definition last_read (tpl : Template) : nat :=
  min (tpl_pos tpl) (tpl_rawLen tpl - 1).

(** The scanner moved to offset [p], the tracker following. *)
Definition goto (p : nat) (tpl : Template) : Template :=
  let q := min p (tpl_rawLen tpl - 1) in
  set_col (Position.col_at (tpl_raw tpl) q)
    (set_line (Position.line_at (tpl_raw tpl) q) (set_pos p tpl)).

Record tracked (tpl : Template) : Prop := {
  tracked_rawLen : tpl_rawLen tpl = String.length (tpl_raw tpl);
  tracked_some : 0 < tpl_rawLen tpl;
  tracked_pos : tpl_pos tpl <= tpl_rawLen tpl;
  tracked_line : tpl_line tpl = Position.line_at (tpl_raw tpl) (last_read tpl);
  tracked_col : tpl_col tpl = Position.col_at (tpl_raw tpl) (last_read tpl)
}.

(** What the lexer leaves alone, and what it keeps true. *)
Record scanned (tpl tpl' : Template) : Prop := {
  scanned_raw : tpl_raw tpl' = tpl_raw tpl;
  scanned_rawLen : tpl_rawLen tpl' = tpl_rawLen tpl;
  scanned_name : tpl_name tpl' = tpl_name tpl;
  scanned_tracked : tracked tpl';
  scanned_pos : tpl_pos tpl <= tpl_pos tpl'
}.

(** A template as [newTemplate] makes it. *)
Record fresh (tpl : Template) : Prop := {
  fresh_parsed : tpl_parsed tpl = false;
  fresh_rawLen : tpl_rawLen tpl = String.length (tpl_raw tpl);
  fresh_some : 0 < tpl_rawLen tpl;
  fresh_pos : tpl_pos tpl = 0;
  fresh_start : tpl_start tpl = 0;
  fresh_length : tpl_length tpl = 0;
  fresh_err : tpl_err tpl = "";
  fresh_line : tpl_line tpl = 1;
  fresh_col : tpl_col tpl = 0;
  fresh_nodes : tpl_nodes tpl = []
}.

(** What [parse] answers once the loop has stopped on [tpl]. *)
Definition parse_answer (tpl : Template) : Template * option string :=
  if 0 <? String.length (tpl_err tpl) then
    (tpl, Some (parsing_error (tpl_name tpl) (tpl_line tpl) (tpl_col tpl) (tpl_err tpl)))
  else (set_parsed true tpl, None).

Definition byte_of (s : string) (i : nat) : ascii :=
  default "000"%char (Bytes.at_ s i).

(** The three bytes that may follow an opening brace. *)
Definition opener (nc : ascii) : option stateFunc :=
  if Ascii.eqb nc "#" then Some StComment
  else if Ascii.eqb nc "%" then Some StTag
  else if Ascii.eqb nc "{" then Some StFilter
  else None.

(** The node [addContentNode] appends, when it appends one. *)
Definition literal_node (tpl : Template) : node :=
  ContentNode {| cn_line := tpl_line tpl;
                 cn_col := tpl_col tpl;
                 cn_content := captured tpl |}.

(** The common shape of [processFilter] and [processTag]. *)
Definition region (close : ascii) (msg : string) (st : stateFunc)
    (add : Template -> Template * option string) (tpl : Template)
  : Template * option stateFunc :=
  let '(c, success) := getChar 0 tpl in
  if negb success then (set_err msg tpl, None)
  else
    let scan :=
      (fst (fastForward 1 (set_length (S (tpl_length tpl)) tpl)), Some st) in
    if Ascii.eqb c close then
      let '(nc, success) := getChar 1 tpl in
      if negb success then (set_err msg tpl, None)
      else if Ascii.eqb nc "}"%char then
        match add tpl with
        | (tpl, Some err) => (set_err err tpl, None)
        | (tpl, None) =>
            let tpl := fst (fastForward 2 tpl) in
            (set_start (tpl_pos tpl) tpl, Some StContent)
        end
      else scan
    else scan.

(** The lexer behind the two opening bytes that follow the literal
    [lit] at the start of the text, and then before the two closing bytes
    of a region whose text is [body]. *)
Definition opened (lit : string) (tpl : Template) : Template :=
  let t2 := goto (S (S (String.length lit))) (set_length (String.length lit) tpl) in
  set_start (tpl_pos t2) (addContentNode t2).

Definition closing (lit body : string) (tpl : Template) : Template :=
  set_length (String.length body)
    (goto (String.length lit + 2 + String.length body) (opened lit tpl)).

(** The node of the literal [lit] that starts the text [src]. *)
Definition first_literal (src lit : string) : list node :=
  if String.length lit =? 0 then []
  else
    let q := Nat.min (String.length lit + 2) (String.length src - 1) in
    [ContentNode {| cn_line := Position.line_at src q;
                    cn_col := Position.col_at src q;
                    cn_content := lit |}].

(** How [addTagNode] cuts the trimmed text of a tag: [name] runs up to
    the first space byte (0x20) and [rest] is what follows that byte;
    without a space the whole text is the name and [rest] is empty. *)
Definition splits_at_space (content name rest : string) : Prop :=
  Bytes.contains " " name = false
  /\ (content = name +:+ String " " rest \/ (content = name /\ rest = "")).

(** The first byte of the delimiter that closes the node's region. *)
Definition node_closer (n : node) : option ascii :=
  match n with
  | ContentNode _ => None
  | FilterNode _ => Some "}"%char
  | TagNode _ => Some "%"%char
  end.

(** [line] and [col] are those of an offset at which [src] holds the
    closing delimiter that starts with [close]. *)
Definition closes_at (src : string) (close : ascii) (line col : nat) : Prop :=
  exists p,
    S p < String.length src
    /\ byte_of src p = close /\ byte_of src (S p) = "}"%char
    /\ line = Position.line_at src p /\ col = Position.col_at src p.

(** A filter or tag node carries the position of the first byte of its
    closing delimiter. *)
Definition located (src : string) (n : node) : Prop :=
  match node_closer n with
  | None => True
  | Some close => closes_at src close (getLine n) (getCol n)
  end.

(** What a step may do to the node list: nothing, or append one node
    recorded at the tracker's line and column. *)
Definition appends (close : option ascii) (t t' : Template) : Prop :=
  tpl_nodes t' = tpl_nodes t
  \/ exists n, tpl_nodes t' = tpl_nodes t ++ [n] /\ node_closer n = close
               /\ (is_Some close -> getLine n = tpl_line t /\ getCol n = tpl_col t).

(** A stop node: a tag node whose name is one of [nodenames]. *)
Definition stop_node (nodenames : list string) (n : node) : Prop :=
  exists tn, n = TagNode tn /\ tn_tagname tn ∈ nodenames.

(** The run of a body in the words of the specification: from the
    cursor on, each node that is not a stop node is rendered and its text
    appended, the cursor moving one past wherever the rendering left it;
    the run stops on the first stop node it meets, which is not rendered,
    and gives the texts together with that node; it fails when a node
    fails, and when the cursor leaves the node list. *)
Inductive runs_until (nodenames : list string) :
  Template -> Context -> list string ->
  Template * Context * result (tagNode * list string) -> Prop :=
| run_stop tpl ctx out tn :
    current tpl = Some (TagNode tn) -> tn_tagname tn ∈ nodenames ->
    runs_until nodenames tpl ctx out (tpl, ctx, Ok (tn, out))
| run_end tpl ctx out :
    current tpl = None ->
    runs_until nodenames tpl ctx out (tpl, ctx, Err (no_end_node nodenames))
| run_render tpl ctx out n tpl1 ctx1 str r :
    current tpl = Some n -> ~ stop_node nodenames n ->
    execute n tpl ctx = (tpl1, ctx1, Ok str) ->
    runs_until nodenames (next_node tpl1) ctx1 (out ++ [str]) r ->
    runs_until nodenames tpl ctx out r
| run_fail tpl ctx out n tpl1 ctx1 err :
    current tpl = Some n -> ~ stop_node nodenames n ->
    execute n tpl ctx = (tpl1, ctx1, Err err) ->
    runs_until nodenames tpl ctx out
      (tpl1, ctx1, Err (node_error "Error in block-execution" (tpl_name tpl1) n err)).

(** The discipline of the handlers of the package: a handler leaves the
    cursor where it was or further on, and keeps the number of nodes. *)
Definition cursor_forward : Prop :=
  forall h args t c t' c' r,
    handler_Execute h args t c = (t', c', r) ->
    tpl_node_pos t <= tpl_node_pos t' /\ length (tpl_nodes t') = length (tpl_nodes t).

(** The skip notification of a node, with the argument text it is given:
    a tag node whose handler is not nil and has an [Ignore] function. *)
Definition ignore_hook (n : node) : option (Template -> Template) :=
  match n with
  | TagNode tn =>
      match tn_taghandler tn with
      | Some h =>
          match handler_Ignore h with
          | Some ignore => Some (ignore (tn_tagargs tn))
          | None => None
          end
      | None => None
      end
  | _ => None
  end.

(** The skip of a body in the words of the specification: the cursor
    moves node by node and no node is rendered; a tag node that is not a
    stop node has its skip notification called, when it has one; the
    skip stops on the first stop node it meets and gives that node; it
    fails when the cursor leaves the node list. *)
Inductive skips_until (nodenames : list string) :
  Template -> Template * result tagNode -> Prop :=
| skip_stop tpl tn :
    current tpl = Some (TagNode tn) -> tn_tagname tn ∈ nodenames ->
    skips_until nodenames tpl (tpl, Ok tn)
| skip_end tpl :
    current tpl = None ->
    skips_until nodenames tpl (tpl, Err (no_end_node nodenames))
| skip_notify tpl n hook r :
    current tpl = Some n -> ~ stop_node nodenames n -> ignore_hook n = Some hook ->
    skips_until nodenames (next_node (hook tpl)) r ->
    skips_until nodenames tpl r
| skip_pass tpl n r :
    current tpl = Some n -> ~ stop_node nodenames n -> ignore_hook n = None ->
    skips_until nodenames (next_node tpl) r ->
    skips_until nodenames tpl r.

(** The discipline of the skip notifications of the package. *)
Definition hooks_forward : Prop :=
  forall h ignore args t,
    handler_Ignore h = Some ignore ->
    tpl_node_pos t <= tpl_node_pos (ignore args t)
    /\ length (tpl_nodes (ignore args t)) = length (tpl_nodes t).

(** The context [Execute] works on. *)
Definition context_or_empty (ctx : Context) : Context :=
  if Context_is_nil ctx then Context_empty else ctx.

(** The discipline of the handlers that succeed: called with the cursor
    on a node, a handler leaves it on a node of the list (the stop node
    of the body it consumed, or its own tag). *)
Definition cursor_inside : Prop :=
  forall h args t c t' c' str,
    tpl_node_pos t < length (tpl_nodes t) ->
    handler_Execute h args t c = (t', c', Ok str) ->
    tpl_node_pos t' < length (tpl_nodes t').

(** The handlers leave the node list as the parser made it. *)
Definition nodes_kept : Prop :=
  forall h args t c t' c' r,
    handler_Execute h args t c = (t', c', r) -> tpl_nodes t' = tpl_nodes t.

(** ** What the lexer keeps *)

(** The fields of the template the lexer never writes. *)
Record untouched (t t' : Template) : Prop := {
  untouched_parsed : tpl_parsed t' = tpl_parsed t;
  untouched_autosafe : tpl_autosafe t' = tpl_autosafe t;
  untouched_node_pos : tpl_node_pos t' = tpl_node_pos t;
  untouched_locator : tpl_locator t' = tpl_locator t;
  untouched_internal_context : tpl_internal_context t' = tpl_internal_context t
}.

(** A node as the three builders make it: a literal that is not empty
    and holds no opening brace; a filter that carries the compiled
    expression of its text, with the [safe] filter added when [safe] is
    set; a tag whose name, the text up to the first space, is a key of the
    registry, with the handler the registry holds for it. *)
Definition well_built (safe : bool) (n : node) : Prop :=
  match n with
  | ContentNode cn =>
      cn_content cn <> "" /\ Bytes.contains "{" (cn_content cn) = false
  | FilterNode fn =>
      exists e, newExpr (fn_content fn) = inl e
                /\ fn_e fn = (if safe then addFilter e "safe" else e)
  | TagNode tn =>
      Tags !! tn_tagname tn = Some (tn_taghandler tn)
      /\ (exists rest, splits_at_space (tn_content tn) (tn_tagname tn) rest
                       /\ tn_tagargs tn = GoStrings.TrimSpace rest)
      /\ tn_ident tn = "" /\ tn_args tn = []
  end.

(** The window [start, start+length) before a call of each state
    function: in the content, filter and tag states it ends at the
    scanner, and in the content state it holds no opening brace; in the
    comment state it is empty. *)
Definition window (state : option stateFunc) (tpl : Template) : Prop :=
  match state with
  | Some StContent =>
      tpl_start tpl + tpl_length tpl = tpl_pos tpl
      /\ Bytes.contains "{" (captured tpl) = false
  | Some StComment => tpl_length tpl = 0
  | Some _ => tpl_start tpl + tpl_length tpl = tpl_pos tpl
  | None => True
  end.

(** What holds of the template [tpl] before the state function [state]
    is called, in a parse that started on [t0]; [None] is the state of
    the loop that has stopped.  A loop that stops with no error message
    has read the whole text, unless the expression compiler failed with
    an empty message. *)
Record lexing (t0 : Template) (state : option stateFunc) (tpl : Template) : Prop := {
  lexing_untouched : untouched t0 tpl;
  lexing_window : window state tpl;
  lexing_nodes : Forall (well_built (tpl_autosafe t0)) (tpl_nodes tpl);
  lexing_err : is_Some state -> tpl_err tpl = "";
  lexing_end :
    state = None -> tpl_err tpl = "" ->
    (tpl_rawLen tpl <= tpl_pos tpl /\ tpl_length tpl = 0)
    \/ exists s, newExpr s = inr ""
}.

(** What the lexer needs of a node builder, called with the window
    ending at the scanner. *)
Definition builder (add : Template -> Template * option string) : Prop :=
  forall t t' e,
    tracked t -> tpl_start t + tpl_length t = tpl_pos t -> add t = (t', e) ->
    untouched t t' /\ tpl_err t' = tpl_err t
    /\ match e with
       | None =>
           tpl_length t' = 0
           /\ exists n, tpl_nodes t' = tpl_nodes t ++ [n]
                        /\ well_built (tpl_autosafe t) n
       | Some err =>
           tpl_nodes t' = tpl_nodes t
           /\ (err <> "" \/ exists s, newExpr s = inr "")
       end.

(** ** Texts put together from pieces *)

(** A comment, a filter region or a tag region, by the text between its
    delimiters. *)
Inductive piece :=
| CommentPiece (body : string)
| FilterPiece (body : string)
| TagPiece (body : string).

Definition piece_body (pc : piece) : string :=
  match pc with
  | CommentPiece body | FilterPiece body | TagPiece body => body
  end.

Definition piece_open (pc : piece) : ascii :=
  match pc with
  | CommentPiece _ => "#"
  | FilterPiece _ => "{"
  | TagPiece _ => "%"
  end%char.

Definition piece_close (pc : piece) : ascii :=
  match pc with
  | CommentPiece _ => "#"
  | FilterPiece _ => "}"
  | TagPiece _ => "%"
  end%char.

Definition piece_text (pc : piece) : string :=
  String "{" (String (piece_open pc)
    (piece_body pc +:+ String (piece_close pc) (String "}" ""))).

(** The text of literals that alternate with pieces, and a last
    literal. *)
Fixpoint unparse (segs : list (string * piece)) (last : string) : string :=
  match segs with
  | [] => last
  | (lit, pc) :: segs' => lit +:+ (piece_text pc +:+ unparse segs' last)
  end.

(** The node of the literal [lit], recorded at offset [q] of [src]: none
    when the literal is empty. *)
Definition literal_at (src : string) (q : nat) (lit : string) : list node :=
  if String.length lit =? 0 then []
  else [ContentNode {| cn_line := Position.line_at src q;
                       cn_col := Position.col_at src q;
                       cn_content := lit |}].

(** Whether [s] holds the byte [close] with a closing brace behind it:
    the two bytes that close a region. *)
Fixpoint closed_in (close : ascii) (s : string) : bool :=
  match s with
  | EmptyString => false
  | String c s' =>
      match s' with
      | EmptyString => false
      | String d _ => Ascii.eqb c close && Ascii.eqb d "}" || closed_in close s'
      end
  end.

(** The nodes of a piece whose closing delimiter starts at offset [q] of
    [src]: none for a comment; the filter node of a region that is not
    empty and whose trimmed text compiles; the tag node of a region that
    is not empty and whose name is registered.  The body of a piece is
    the text up to the first closing delimiter: it does not hold the two
    closing bytes, and the body of a filter region, which two braces
    close, does not end with a brace either. *)
Inductive piece_node (src : string) (q : nat) : piece -> list node -> Prop :=
| comment_node body :
    closed_in "#" body = false ->
    piece_node src q (CommentPiece body) []
| filter_node body e :
    closed_in "}" (body +:+ "}") = false -> body <> "" ->
    newExpr (GoStrings.TrimSpace body) = inl e ->
    piece_node src q (FilterPiece body)
      [FilterNode {| fn_line := Position.line_at src q;
                     fn_col := Position.col_at src q;
                     fn_content := GoStrings.TrimSpace body;
                     fn_e := addFilter e "safe" |}]
| tag_node body name rest tag :
    closed_in "%" body = false -> body <> "" ->
    splits_at_space (GoStrings.TrimSpace body) name rest ->
    Tags !! name = Some tag ->
    piece_node src q (TagPiece body)
      [TagNode {| tn_line := Position.line_at src q;
                  tn_col := Position.col_at src q;
                  tn_content := GoStrings.TrimSpace body;
                  tn_tagname := name;
                  tn_tagargs := GoStrings.TrimSpace rest;
                  tn_taghandler := tag;
                  tn_ident := "";
                  tn_args := [] |}].

(** The nodes of the text [src] from offset [p] on, where it is the
    literals and pieces [segs] followed by the literal [last]: a literal
    holds no opening brace; the literal before a piece is recorded behind
    the two opening bytes of the piece, the last literal at the last byte
    of the text. *)
Inductive parses_to (src : string) :
  nat -> list (string * piece) -> string -> list node -> Prop :=
| parses_last p last :
    Bytes.contains "{" last = false ->
    parses_to src p [] last (literal_at src (String.length src - 1) last)
| parses_piece p lit pc segs last ns ns' :
    Bytes.contains "{" lit = false ->
    piece_node src (p + String.length lit + 2 + String.length (piece_body pc)) pc ns ->
    parses_to src (p + String.length lit + 4 + String.length (piece_body pc))
      segs last ns' ->
    parses_to src p ((lit, pc) :: segs) last
      (literal_at src (p + String.length lit + 2) lit ++ ns ++ ns').

(** The lexer in the content state at offset [p], in a parse that
    started on [t0]: nothing captured, no error, the nodes [ns] built. *)
Record at_content (t0 : Template) (p : nat) (ns : list node) (t : Template) : Prop := {
  ac_scanned : scanned t0 t;
  ac_untouched : untouched t0 t;
  ac_pos : tpl_pos t = p;
  ac_start : tpl_start t = p;
  ac_length : tpl_length t = 0;
  ac_err : tpl_err t = "";
  ac_nodes : tpl_nodes t = ns
}.

(** ** Rendering without tags *)

(** The nodes [ns], literal and filter nodes, executed in order from the
    context [ctx]: a literal gives its text and leaves the context; a
    filter gives the value of its expression in the context the nodes
    before it left, and may change it. *)
Inductive plays : list node -> Context -> Context -> list string -> Prop :=
| plays_nil ctx : plays [] ctx ctx []
| plays_content cn ns ctx ctx' outs :
    plays ns ctx ctx' outs ->
    plays (ContentNode cn :: ns) ctx ctx' (cn_content cn :: outs)
| plays_filter fn ns ctx ctx1 ctx' v outs :
    evalString (fn_e fn) ctx = (ctx1, Ok v) ->
    plays ns ctx1 ctx' outs ->
    plays (FilterNode fn :: ns) ctx ctx' (v :: outs).

(** The text of literals, comments and filter regions rendered in order
    from the context [ctx]: a literal gives itself, a comment nothing, a
    filter region the value of the expression compiled from its trimmed
    text, with the [safe] filter added. *)
Inductive renders : list (string * piece) -> Context -> Context -> string -> Prop :=
| renders_nil ctx : renders [] ctx ctx ""
| renders_comment lit body segs ctx ctx' out :
    renders segs ctx ctx' out ->
    renders ((lit, CommentPiece body) :: segs) ctx ctx' (lit +:+ out)
| renders_filter lit body e v segs ctx ctx1 ctx' out :
    newExpr (GoStrings.TrimSpace body) = inl e ->
    evalString (addFilter e "safe") ctx = (ctx1, Ok v) ->
    renders segs ctx1 ctx' out ->
    renders ((lit, FilterPiece body) :: segs) ctx ctx' (lit +:+ (v +:+ out)).

(** * Properties *)

(** ** The library functions at work *)

Example TrimSpace_ex1 : GoStrings.TrimSpace "  if x  " = "if x".
Proof. reflexivity. Qed.

Example TrimSpace_ex2 :
  GoStrings.TrimSpace (Bytes.of_codes [9; 194; 160; 97; 32; 98; 10; 226; 128; 168]) = "a b".
Proof. reflexivity. Qed.

Example TrimSpace_ex3 : GoStrings.TrimSpace " " = "".
Proof. reflexivity. Qed.

Example SplitN2_ex1 : GoStrings.SplitN2 "if a == b" " "%char = ["if"; "a == b"].
Proof. reflexivity. Qed.

Example SplitN2_ex2 : GoStrings.SplitN2 "endif" " "%char = ["endif"].
Proof. reflexivity. Qed.

Example SplitN2_ex3 : GoStrings.SplitN2 "" " "%char = [""].
Proof. reflexivity. Qed.

Example fmt_d_ex : GoFmt.d 0 = "0" /\ GoFmt.d 1307 = "1307".
Proof. split; reflexivity. Qed.

Example position_ex :
  let s := Bytes.of_codes [97; 98; 10; 99; 100; 101; 10; 10; 102] in
  map (λ p, (Position.line_at s p, Position.col_at s p)) [0; 1; 2; 3; 5; 6; 7; 8]
  = [(1, 1); (1, 2); (2, 0); (2, 1); (2, 3); (3, 0); (4, 0); (4, 1)].
Proof. reflexivity. Qed.

(** ** Byte strings and positions *)

Lemma at_bytes (s : string) (i : nat) : Bytes.at_ s i = Position.bytes s !! i.
Proof.
  revert i. induction s as [|c s IH]; intros [|i]; simpl; try reflexivity.
  apply IH.
Qed.

Lemma length_bytes (s : string) : String.length s = length (Position.bytes s).
Proof. induction s as [|c s IH]; simpl; [reflexivity | now rewrite IH]. Qed.

Lemma bytes_app (s1 s2 : string) :
  Position.bytes (s1 +:+ s2) = Position.bytes s1 ++ Position.bytes s2.
Proof. induction s1 as [|c s1 IH]; simpl; [reflexivity | now rewrite IH]. Qed.

Lemma slice_all (s : string) : Bytes.slice s 0 (String.length s) = s.
Proof.
  unfold Bytes.slice. induction s as [|c s IH]; simpl; [reflexivity | now rewrite IH].
Qed.

Lemma slice_prefix (s1 s2 : string) :
  Bytes.slice (s1 +:+ s2) 0 (String.length s1) = s1.
Proof.
  unfold Bytes.slice. induction s1 as [|c s1 IH]; simpl.
  - now destruct s2.
  - now rewrite IH.
Qed.

Lemma upto_S (s : string) (p : nat) (c : ascii) :
  Position.bytes s !! S p = Some c ->
  Position.upto s (S p) = Position.upto s p ++ [c].
Proof. intros H. unfold Position.upto. now apply take_S_r. Qed.

Lemma line_at_S (s : string) (p : nat) (c : ascii) :
  Position.bytes s !! S p = Some c ->
  Position.line_at s (S p) =
    if Ascii.eqb c Position.newline then S (Position.line_at s p)
    else Position.line_at s p.
Proof.
  intros H. unfold Position.line_at. rewrite (upto_S _ _ _ H), filter_app, length_app.
  destruct (Ascii.eqb_spec c Position.newline) as [->|Hne].
  - rewrite filter_cons_True by reflexivity. simpl. lia.
  - rewrite filter_cons_False by assumption. simpl. lia.
Qed.

Lemma col_at_S (s : string) (p : nat) (c : ascii) :
  Position.bytes s !! S p = Some c ->
  Position.col_at s (S p) =
    if Ascii.eqb c Position.newline then 0 else S (Position.col_at s p).
Proof.
  intros H. unfold Position.col_at. rewrite (upto_S _ _ _ H), reverse_snoc.
  reflexivity.
Qed.

Lemma position_at_0 (s : string) (c : ascii) :
  Position.bytes s !! 0 = Some c ->
  Position.line_at s 0 = (if Ascii.eqb c Position.newline then 2 else 1)
  /\ Position.col_at s 0 = (if Ascii.eqb c Position.newline then 0 else 1).
Proof.
  unfold Position.line_at, Position.col_at, Position.upto.
  destruct (Position.bytes s) as [|b l]; simpl; [discriminate|].
  intros [= ->]. rewrite take_0.
  destruct (Ascii.eqb_spec c Position.newline) as [->|Hne].
  - rewrite filter_cons_True by reflexivity. now cbn.
  - rewrite filter_cons_False by assumption. cbn.
    destruct (Ascii.eqb_spec c Position.newline); [contradiction | easy].
Qed.

(** ** The position tracker follows the text *)

Lemma rawAt_bytes (tpl : Template) (i : nat) :
  tpl_rawLen tpl = String.length (tpl_raw tpl) -> i < tpl_rawLen tpl ->
  Position.bytes (tpl_raw tpl) !! i = Some (rawAt tpl i).
Proof.
  intros Hlen Hi. unfold rawAt. rewrite at_bytes.
  rewrite Hlen, length_bytes in Hi.
  destruct (lookup_lt_is_Some_2 _ _ Hi) as [c Hc]. now rewrite Hc.
Qed.

Lemma getChar_true (rel : nat) (tpl : Template) (c : ascii) :
  getChar rel tpl = (c, true) ->
  tpl_pos tpl + rel < tpl_rawLen tpl /\ c = rawAt tpl (tpl_pos tpl + rel).
Proof.
  unfold getChar, hasReachedEnd.
  destruct (Nat.leb_spec (tpl_rawLen tpl) (tpl_pos tpl + rel)); intros [= <-]; auto.
Qed.

Lemma getChar_false (rel : nat) (tpl : Template) (c : ascii) :
  getChar rel tpl = (c, false) -> tpl_rawLen tpl <= tpl_pos tpl + rel.
Proof.
  unfold getChar, hasReachedEnd.
  destruct (Nat.leb_spec (tpl_rawLen tpl) (tpl_pos tpl + rel)); intros [=]; auto.
Qed.

Lemma tracked_goto (p : nat) (tpl : Template) :
  tracked tpl -> p <= tpl_rawLen tpl -> tracked (goto p tpl).
Proof. intros [] Hp. constructor; cbn; auto. Qed.

Lemma goto_goto (p q : nat) (tpl : Template) : goto q (goto p tpl) = goto q tpl.
Proof. reflexivity. Qed.

Lemma fastForward_S (rel : nat) (tpl : Template) :
  fastForward (S rel) tpl =
    let '(tpl1, ok) := fastForward 1 tpl in
    if ok then fastForward rel tpl1 else (tpl1, false).
Proof.
  cbn [fastForward]. destruct (updatePosition _) as [tpl1 []]; reflexivity.
Qed.

Lemma fastForward_1 (tpl : Template) :
  tracked tpl -> tpl_pos tpl < tpl_rawLen tpl ->
  fastForward 1 tpl =
    (goto (S (tpl_pos tpl)) tpl, S (tpl_pos tpl) <? tpl_rawLen tpl).
Proof.
  intros [Hlen Hsome Hpos Hline Hcol] Hlt.
  unfold last_read in Hline, Hcol.
  rewrite Nat.min_l in Hline, Hcol by lia.
  cbn [fastForward]. unfold updatePosition, hasReachedEnd. cbn [tpl_rawLen tpl_pos set_pos].
  rewrite Nat.add_0_r.
  destruct (Nat.leb_spec (tpl_rawLen tpl) (S (tpl_pos tpl))) as [Hend|Hin].
  - replace (S (tpl_pos tpl) <? tpl_rawLen tpl) with false
      by (symmetry; apply Nat.ltb_ge; lia).
    unfold goto. rewrite Nat.min_r by lia.
    replace (tpl_rawLen tpl - 1) with (tpl_pos tpl) by lia.
    rewrite <- Hline, <- Hcol. now destruct tpl.
  - replace (S (tpl_pos tpl) <? tpl_rawLen tpl) with true
      by (symmetry; apply Nat.ltb_lt; lia).
    pose proof (rawAt_bytes tpl (S (tpl_pos tpl)) Hlen Hin) as Hb.
    unfold goto. rewrite Nat.min_l by lia.
    rewrite (line_at_S _ _ _ Hb), (col_at_S _ _ _ Hb), <- Hline, <- Hcol.
    change (rawAt (set_pos (S (tpl_pos tpl)) tpl) (S (tpl_pos tpl)))
      with (rawAt tpl (S (tpl_pos tpl))).
    change Position.newline with "010"%char.
    destruct (Ascii.eqb _ _); now destruct tpl.
Qed.

Lemma fastForward_2 (tpl : Template) :
  tracked tpl -> S (tpl_pos tpl) < tpl_rawLen tpl ->
  fastForward 2 tpl =
    (goto (S (S (tpl_pos tpl))) tpl, S (S (tpl_pos tpl)) <? tpl_rawLen tpl).
Proof.
  intros Ht Hlt. rewrite fastForward_S, (fastForward_1 tpl Ht) by lia.
  replace (S (tpl_pos tpl) <? tpl_rawLen tpl) with true
    by (symmetry; apply Nat.ltb_lt; lia).
  rewrite fastForward_1.
  - reflexivity.
  - apply tracked_goto; [assumption | lia].
  - cbn. lia.
Qed.

(** The first call of [parse] counts the byte at offset 0. *)
Lemma updatePosition_first (tpl : Template) :
  tpl_rawLen tpl = String.length (tpl_raw tpl) -> 0 < tpl_rawLen tpl ->
  tpl_pos tpl = 0 -> tpl_line tpl = 1 -> tpl_col tpl = 0 ->
  fst (updatePosition tpl) = goto 0 tpl /\ tracked (goto 0 tpl).
Proof.
  intros Hlen Hsome Hpos Hline Hcol.
  pose proof (rawAt_bytes tpl 0 Hlen Hsome) as Hb.
  destruct (position_at_0 _ _ Hb) as [Hl Hc].
  split.
  - unfold updatePosition, hasReachedEnd, goto. rewrite Hpos, Nat.add_0_r.
    replace (tpl_rawLen tpl <=? 0) with false by (symmetry; apply Nat.leb_gt; lia).
    rewrite Nat.min_0_l, Hl, Hc, Hline, Hcol.
    change Position.newline with "010"%char.
    destruct (Ascii.eqb _ _); destruct tpl; cbn in *; now subst.
  - constructor; cbn; auto; lia.
Qed.

(** ** One scanning step *)

Lemma scanned_refl (tpl : Template) : tracked tpl -> scanned tpl tpl.
Proof. intros Ht. constructor; auto. Qed.

Lemma scanned_trans (t1 t2 t3 : Template) :
  scanned t1 t2 -> scanned t2 t3 -> scanned t1 t3.
Proof. intros [] []. constructor; auto; try congruence. lia. Qed.

Lemma scanned_set_err (v : string) (t t' : Template) :
  scanned t t' -> scanned t (set_err v t').
Proof. intros [? ? ? [] ?]. constructor; auto. constructor; auto. Qed.

Lemma scanned_set_start (v : nat) (t t' : Template) :
  scanned t t' -> scanned t (set_start v t').
Proof. intros [? ? ? [] ?]. constructor; auto. constructor; auto. Qed.

Lemma scanned_set_length (v : nat) (t t' : Template) :
  scanned t t' -> scanned t (set_length v t').
Proof. intros [? ? ? [] ?]. constructor; auto. constructor; auto. Qed.

Lemma scanned_set_nodes (v : list node) (t t' : Template) :
  scanned t t' -> scanned t (set_nodes v t').
Proof. intros [? ? ? [] ?]. constructor; auto. constructor; auto. Qed.

Lemma scanned_goto (p : nat) (t t' : Template) :
  scanned t t' -> tpl_pos t' <= p -> p <= tpl_rawLen t' -> scanned t (goto p t').
Proof.
  intros [? ? ? Ht ?] Hp Hq. constructor; auto.
  - now apply tracked_goto.
  - cbn. lia.
Qed.

Lemma scanned_addContentNode (t t' : Template) :
  scanned t t' -> scanned t (addContentNode t').
Proof.
  intros H. unfold addContentNode. destruct (tpl_length t' =? 0); [assumption|].
  now apply scanned_set_nodes, scanned_set_length, scanned_set_start.
Qed.

Lemma addContentNode_pos (t : Template) : tpl_pos (addContentNode t) = tpl_pos t.
Proof. unfold addContentNode. now destruct (tpl_length t =? 0). Qed.

Lemma scanned_addFilterNode (t t' t'' : Template) (e : option string) :
  scanned t t' -> addFilterNode t' = (t'', e) ->
  scanned t t'' /\ tpl_pos t'' = tpl_pos t'.
Proof.
  intros H. unfold addFilterNode.
  destruct (tpl_length t' =? 0); [intros [= <- <-]; auto|].
  destruct (newExpr _); intros [= <- <-]; auto.
  split; [|reflexivity].
  now apply scanned_set_nodes, scanned_set_length, scanned_set_start.
Qed.

Lemma scanned_addTagNode (t t' t'' : Template) (e : option string) :
  scanned t t' -> addTagNode t' = (t'', e) ->
  scanned t t'' /\ tpl_pos t'' = tpl_pos t'.
Proof.
  intros H. unfold addTagNode.
  destruct (tpl_length t' =? 0); [intros [= <- <-]; auto|].
  destruct (length _ <? 1); [intros [= <- <-]; auto|].
  destruct (Tags !! _); intros [= <- <-]; auto.
  split; [|reflexivity].
  now apply scanned_set_nodes, scanned_set_length, scanned_set_start.
Qed.

Lemma tracked_set_length (v : nat) (t : Template) :
  tracked t -> tracked (set_length v t).
Proof. intros []. constructor; auto. Qed.

(** The step that reads one more byte of a region. *)
Lemma scan_one (v : nat) (tpl : Template) :
  tracked tpl -> tpl_pos tpl < tpl_rawLen tpl ->
  fst (fastForward 1 (set_length v tpl)) = set_length v (goto (S (tpl_pos tpl)) tpl).
Proof.
  intros Ht Hlt. rewrite fastForward_1; [reflexivity | | assumption].
  now apply tracked_set_length.
Qed.

Lemma skip_two (tpl : Template) :
  tracked tpl -> S (tpl_pos tpl) < tpl_rawLen tpl ->
  fst (fastForward 2 tpl) = goto (S (S (tpl_pos tpl))) tpl.
Proof. intros Ht Hlt. now rewrite fastForward_2. Qed.

Local Opaque fastForward.

Ltac scanned_step :=
  repeat first
    [ apply scanned_set_err | apply scanned_set_start | apply scanned_set_length
    | apply scanned_set_nodes | apply scanned_addContentNode ];
  try (apply scanned_goto; [| cbn; lia | cbn; lia]);
  try (apply scanned_refl; assumption).

Lemma processContent_scanned (tpl tpl' : Template) (next : option stateFunc) :
  tracked tpl -> processContent tpl = (tpl', next) ->
  scanned tpl tpl' /\ (is_Some next -> tpl_pos tpl < tpl_pos tpl').
Proof.
  intros Ht. unfold processContent.
  destruct (getChar 0 tpl) as [c [|]] eqn:G0; cbn [negb].
  2:{ intros [= <- <-]. split; [scanned_step | intros [? [=]]]. }
  apply getChar_true in G0 as [G0 _]. rewrite Nat.add_0_r in G0.
  destruct (Ascii.eqb c "{").
  2:{ intros [= <- <-]. rewrite (fastForward_1 (set_length _ tpl))
        by (try apply tracked_set_length; assumption).
      cbn [fst]. split; [| cbn; lia].
      apply (scanned_goto _ tpl (set_length _ tpl)); cbn; try lia.
      scanned_step. }
  destruct (getChar 1 tpl) as [nc [|]] eqn:G1; cbn [negb].
  2:{ intros [= <- <-]. split; [scanned_step | intros [? [=]]]. }
  apply getChar_true in G1 as [G1 _].
  rewrite skip_two by (try assumption; lia).
  assert (Hgo : scanned tpl (goto (S (S (tpl_pos tpl))) tpl))
    by (apply scanned_goto; [now apply scanned_refl | lia | lia]).
  repeat destruct (Ascii.eqb nc _); intros [= <- <-];
    (split; [scanned_step | try (intros [? [=]]); cbn; rewrite ?addContentNode_pos; cbn; lia]).
Qed.

Lemma processComment_scanned (tpl tpl' : Template) (next : option stateFunc) :
  tracked tpl -> processComment tpl = (tpl', next) ->
  scanned tpl tpl' /\ (is_Some next -> tpl_pos tpl < tpl_pos tpl').
Proof.
  intros Ht. unfold processComment.
  destruct (getChar 0 tpl) as [c [|]] eqn:G0; cbn [negb].
  2:{ intros [= <- <-]. split; [scanned_step | intros [? [=]]]. }
  apply getChar_true in G0 as [G0 _]. rewrite Nat.add_0_r in G0.
  rewrite (fastForward_1 tpl) by assumption. cbn [fst].
  assert (Hscan : scanned tpl (goto (S (tpl_pos tpl)) tpl)
                  /\ (is_Some (Some StComment) ->
                      tpl_pos tpl < tpl_pos (goto (S (tpl_pos tpl)) tpl))).
  { split; [| cbn; lia]. apply scanned_goto; [now apply scanned_refl | lia | lia]. }
  destruct (Ascii.eqb c "#"); [| now intros [= <- <-]].
  destruct (getChar 1 tpl) as [nc [|]] eqn:G1; cbn [negb].
  2:{ intros [= <- <-]. split; [scanned_step | intros [? [=]]]. }
  apply getChar_true in G1 as [G1 _].
  destruct (Ascii.eqb nc "}"); [| now intros [= <- <-]].
  rewrite skip_two by (try assumption; lia).
  intros [= <- <-]. split; [| cbn; lia].
  apply scanned_set_start, scanned_goto; [now apply scanned_refl | lia | lia].
Qed.

(** A region that ends in a node: [processFilter] and [processTag] differ
    in the closing byte, the builder and the message only. *)
Lemma region_scanned (close : ascii) (msg : string) (st : stateFunc)
    (add : Template -> Template * option string) (tpl tpl' : Template)
    (next : option stateFunc) :
  (forall t t' t'' e, scanned t t' -> add t' = (t'', e) ->
                      scanned t t'' /\ tpl_pos t'' = tpl_pos t') ->
  tracked tpl ->
  (let '(c, success) := getChar 0 tpl in
   if negb success then (set_err msg tpl, None)
   else
     let scan :=
       (fst (fastForward 1 (set_length (S (tpl_length tpl)) tpl)), Some st) in
     if Ascii.eqb c close then
       let '(nc, success) := getChar 1 tpl in
       if negb success then (set_err msg tpl, None)
       else if Ascii.eqb nc "}"%char then
         match add tpl with
         | (tpl, Some err) => (set_err err tpl, None)
         | (tpl, None) =>
             let tpl := fst (fastForward 2 tpl) in
             (set_start (tpl_pos tpl) tpl, Some StContent)
         end
       else scan
     else scan) = (tpl', next) ->
  scanned tpl tpl' /\ (is_Some next -> tpl_pos tpl < tpl_pos tpl').
Proof.
  intros Hadd Ht.
  destruct (getChar 0 tpl) as [c [|]] eqn:G0; cbn [negb].
  2:{ intros [= <- <-]. split; [scanned_step | intros [? [=]]]. }
  apply getChar_true in G0 as [G0 _]. rewrite Nat.add_0_r in G0.
  rewrite scan_one by assumption.
  assert (Hscan : let t := set_length (S (tpl_length tpl)) (goto (S (tpl_pos tpl)) tpl) in
                  scanned tpl t /\ (is_Some (Some st) -> tpl_pos tpl < tpl_pos t)).
  { split; [| cbn; lia].
    apply scanned_set_length, scanned_goto; [now apply scanned_refl | lia | lia]. }
  cbn zeta in Hscan.
  destruct (Ascii.eqb c close); [| now intros [= <- <-]].
  destruct (getChar 1 tpl) as [nc [|]] eqn:G1; cbn [negb].
  2:{ intros [= <- <-]. split; [scanned_step | intros [? [=]]]. }
  apply getChar_true in G1 as [G1 _].
  destruct (Ascii.eqb nc "}"); [| now intros [= <- <-]].
  destruct (add tpl) as [t'' [err|]] eqn:Ha;
    destruct (Hadd tpl tpl t'' _ (scanned_refl _ Ht) Ha) as [Hs Hp].
  - intros [= <- <-]. split; [now apply scanned_set_err | intros [? [=]]].
  - pose proof (scanned_rawLen _ _ Hs) as Hl.
    rewrite skip_two by (try apply (scanned_tracked _ _ Hs); lia).
    intros [= <- <-]. split; [| cbn; lia].
    apply scanned_set_start, scanned_goto; [assumption | lia | lia].
Qed.

Lemma processFilter_scanned (tpl tpl' : Template) (next : option stateFunc) :
  tracked tpl -> processFilter tpl = (tpl', next) ->
  scanned tpl tpl' /\ (is_Some next -> tpl_pos tpl < tpl_pos tpl').
Proof.
  intros Ht H.
  apply (region_scanned "}" "File end reached within filter" StFilter addFilterNode);
    [apply scanned_addFilterNode | assumption | exact H].
Qed.

Lemma processTag_scanned (tpl tpl' : Template) (next : option stateFunc) :
  tracked tpl -> processTag tpl = (tpl', next) ->
  scanned tpl tpl' /\ (is_Some next -> tpl_pos tpl < tpl_pos tpl').
Proof.
  intros Ht H.
  apply (region_scanned "%" "File end reached within tag" StTag addTagNode);
    [apply scanned_addTagNode | assumption | exact H].
Qed.

Lemma call_scanned (state : stateFunc) (tpl tpl' : Template) (next : option stateFunc) :
  tracked tpl -> call state tpl = (tpl', next) ->
  scanned tpl tpl' /\ (is_Some next -> tpl_pos tpl < tpl_pos tpl').
Proof.
  destruct state; cbn [call];
    eauto using processContent_scanned, processComment_scanned,
      processFilter_scanned, processTag_scanned.
Qed.

(** The loop of [parse] ends: every call but the last moves the scanner
    forward, and the scanner never passes the end of the text. *)
Lemma states_returns (fuel : nat) (state : option stateFunc) (tpl : Template) :
  tracked tpl -> tpl_rawLen tpl - tpl_pos tpl < fuel ->
  exists tpl', states fuel state tpl = Some tpl' /\ scanned tpl tpl'.
Proof.
  revert state tpl. induction fuel as [|fuel IH]; intros state tpl Ht Hfuel; [lia|].
  destruct state as [f|]; cbn [states].
  2:{ exists tpl. split; [reflexivity | now apply scanned_refl]. }
  destruct (call f tpl) as [tpl1 next] eqn:Hcall.
  destruct (call_scanned _ _ _ _ Ht Hcall) as [Hs Hmove].
  destruct next as [g|].
  - specialize (Hmove (ex_intro _ g eq_refl)).
    pose proof (scanned_rawLen _ _ Hs). pose proof (tracked_pos _ (scanned_tracked _ _ Hs)).
    destruct (IH (Some g) tpl1 (scanned_tracked _ _ Hs)) as (tpl' & Hrun & Hs'); [lia|].
    exists tpl'. split; [assumption | eapply scanned_trans; eassumption].
  - exists tpl1. destruct fuel; cbn [states]; auto.
Qed.

(** ** Parsing a new template *)

Lemma newTemplate_fresh (name tplstr : string) (locator : option templateLocator)
    (tpl : Template) :
  newTemplate name tplstr locator = inl tpl ->
  fresh tpl /\ tpl_raw tpl = tplstr /\ tpl_name tpl = name.
Proof.
  unfold newTemplate. destruct (Nat.eqb_spec (String.length tplstr) 0) as [|Hne]; [discriminate|].
  intros [= <-]. repeat split; cbn; lia.
Qed.

Lemma newTemplate_some (name tplstr : string) (locator : option templateLocator) :
  tplstr <> "" -> exists tpl, newTemplate name tplstr locator = inl tpl.
Proof.
  intros Hne. unfold newTemplate. destruct tplstr; [contradiction|]. cbn. eauto.
Qed.

(** The first call of [processContent] and the loop after it make one
    run of the loop from the content state. *)
Lemma parse_unparsed (tpl : Template) :
  tpl_parsed tpl = false ->
  parse tpl =
    let tpl0 := fst (updatePosition tpl) in
    match states (S (parse_fuel tpl0)) (Some StContent) tpl0 with
    | None => None
    | Some tpl2 => Some (parse_answer tpl2)
    end.
Proof.
  intros Hp. unfold parse, parse_answer. rewrite Hp. cbn [states call].
  destruct (processContent _) as [tpl1 state]. destruct (states _ _ _); [|reflexivity].
  now destruct (0 <? _).
Qed.

Lemma parse_fresh (tpl : Template) :
  fresh tpl ->
  exists tpl2,
    states (S (S (tpl_rawLen tpl))) (Some StContent) (goto 0 tpl) = Some tpl2
    /\ scanned (goto 0 tpl) tpl2
    /\ parse tpl = Some (parse_answer tpl2).
Proof.
  intros Hf. destruct Hf as [Hp Hlen Hsome Hpos _ _ _ Hline Hcol _].
  destruct (updatePosition_first tpl Hlen Hsome Hpos Hline Hcol) as [Hup Ht].
  destruct (states_returns (S (S (tpl_rawLen tpl))) (Some StContent) _ Ht)
    as (tpl2 & Hrun & Hs); [cbn; lia|].
  exists tpl2. split; [assumption|]. split; [assumption|].
  rewrite (parse_unparsed _ Hp), Hup. cbn zeta.
  unfold parse_fuel. cbn [tpl_rawLen tpl_pos goto set_col set_line set_pos].
  rewrite Nat.sub_0_r, Hrun. reflexivity.
Qed.

(** [parse] returns on every template [newTemplate] makes, and so does
    [FromString] on every text. *)
Lemma parse_returns (tpl : Template) : fresh tpl -> is_Some (parse tpl).
Proof. intros Hf. destruct (parse_fresh tpl Hf) as (tpl2 & _ & _ & ->). eauto. Qed.

Lemma FromString_returns (name tplstr : string) (locator : option templateLocator) :
  is_Some (FromString name tplstr locator).
Proof.
  unfold FromString. destruct (newTemplate _ _ _) as [tpl|err] eqn:Hnew; [|eauto].
  apply newTemplate_fresh in Hnew as [Hf _].
  destruct (parse_returns tpl Hf) as [[tpl' [e|]] ->]; eauto.
Qed.

(** ** The content state *)

Lemma byte_app_l (s1 s2 : string) (i : nat) :
  i < String.length s1 -> byte_of (s1 +:+ s2) i = byte_of s1 i.
Proof.
  intros Hi. unfold byte_of. rewrite !at_bytes, bytes_app, lookup_app_l; [reflexivity|].
  now rewrite <- length_bytes.
Qed.

Lemma byte_app_r (s1 s2 : string) (j : nat) :
  byte_of (s1 +:+ s2) (String.length s1 + j) = byte_of s2 j.
Proof.
  unfold byte_of. rewrite !at_bytes, bytes_app, length_bytes, lookup_app_r by lia.
  do 3 f_equal. lia.
Qed.

Lemma byte_free (c : ascii) (s : string) (i : nat) :
  Bytes.contains c s = false -> i < String.length s -> byte_of s i <> c.
Proof.
  revert i. induction s as [|b s IH]; intros i; cbn; [lia|].
  intros [Hb Hs]%orb_false_elim Hi. destruct i as [|i].
  - cbn. intros ->. now rewrite Ascii.eqb_refl in Hb.
  - apply IH; [assumption | lia].
Qed.

Lemma length_app_string (s1 s2 : string) :
  String.length (s1 +:+ s2) = String.length s1 + String.length s2.
Proof. now rewrite !length_bytes, bytes_app, length_app. Qed.

Lemma getChar_in (rel : nat) (tpl : Template) :
  tpl_pos tpl + rel < tpl_rawLen tpl ->
  getChar rel tpl = (rawAt tpl (tpl_pos tpl + rel), true).
Proof.
  intros H. unfold getChar, hasReachedEnd.
  now destruct (Nat.leb_spec (tpl_rawLen tpl) (tpl_pos tpl + rel)); [lia|].
Qed.

Lemma getChar_out (rel : nat) (tpl : Template) :
  tpl_rawLen tpl <= tpl_pos tpl + rel -> getChar rel tpl = ("000"%char, false).
Proof.
  intros H. unfold getChar, hasReachedEnd.
  now destruct (Nat.leb_spec (tpl_rawLen tpl) (tpl_pos tpl + rel)); [|lia].
Qed.

Lemma goto_here (tpl : Template) : tracked tpl -> goto (tpl_pos tpl) tpl = tpl.
Proof.
  intros [_ _ _ Hline Hcol]. unfold goto, last_read in *.
  rewrite <- Hline, <- Hcol. now destruct tpl.
Qed.

Lemma processContent_end (tpl : Template) :
  tpl_rawLen tpl <= tpl_pos tpl -> processContent tpl = (addContentNode tpl, None).
Proof.
  intros H. unfold processContent. rewrite getChar_out by lia. reflexivity.
Qed.

Lemma processContent_literal (tpl : Template) :
  tracked tpl -> tpl_pos tpl < tpl_rawLen tpl ->
  rawAt tpl (tpl_pos tpl) <> "{"%char ->
  processContent tpl =
    (set_length (S (tpl_length tpl)) (goto (S (tpl_pos tpl)) tpl), Some StContent).
Proof.
  intros Ht Hlt Hne. unfold processContent.
  rewrite getChar_in, Nat.add_0_r by lia. cbn [negb].
  destruct (Ascii.eqb_spec (rawAt tpl (tpl_pos tpl)) "{"); [contradiction|].
  now rewrite scan_one.
Qed.

Lemma processContent_open (tpl : Template) :
  tracked tpl -> S (tpl_pos tpl) < tpl_rawLen tpl ->
  rawAt tpl (tpl_pos tpl) = "{"%char ->
  processContent tpl =
    let tpl2 := goto (S (S (tpl_pos tpl))) tpl in
    match opener (rawAt tpl (S (tpl_pos tpl))) with
    | Some next =>
        (set_start (tpl_pos tpl2) (addContentNode tpl2), Some next)
    | None => (set_err (unknown_open (rawAt tpl (S (tpl_pos tpl)))) tpl2, None)
    end.
Proof.
  intros Ht Hlt Hc. unfold processContent.
  rewrite getChar_in, Nat.add_0_r, Hc by lia. cbn [negb Ascii.eqb Bool.eqb andb].
  rewrite getChar_in, Nat.add_1_r by lia. cbn [negb].
  rewrite skip_two by assumption. unfold opener. cbn zeta.
  rewrite !addContentNode_pos.
  now repeat destruct (Ascii.eqb (rawAt _ _) _).
Qed.

Lemma processContent_lone_brace (tpl : Template) :
  S (tpl_pos tpl) = tpl_rawLen tpl -> rawAt tpl (tpl_pos tpl) = "{"%char ->
  processContent tpl = (set_err "File end reached (after opening '{')" tpl, None).
Proof.
  intros Hlt Hc. unfold processContent.
  rewrite getChar_in, Nat.add_0_r, Hc by lia. cbn [negb Ascii.eqb Bool.eqb andb].
  now rewrite getChar_out by lia.
Qed.

(** Scanning [k] bytes of literal text. *)
Lemma content_literal (k fuel : nat) (tpl : Template) :
  tracked tpl -> tpl_pos tpl + k <= tpl_rawLen tpl ->
  (forall i, i < k -> rawAt tpl (tpl_pos tpl + i) <> "{"%char) ->
  states (k + fuel) (Some StContent) tpl =
    states fuel (Some StContent)
      (set_length (tpl_length tpl + k) (goto (tpl_pos tpl + k) tpl)).
Proof.
  revert tpl. induction k as [|k IH]; intros tpl Ht Hk Hlit.
  - rewrite !Nat.add_0_r, goto_here by assumption. now destruct tpl.
  - cbn [Nat.add states call].
    rewrite processContent_literal; [| assumption | lia |].
    2:{ specialize (Hlit 0). rewrite Nat.add_0_r in Hlit. apply Hlit. lia. }
    rewrite IH.
    + cbn [tpl_length tpl_pos set_length goto set_col set_line set_pos].
      replace (S (tpl_length tpl) + k) with (tpl_length tpl + S k) by lia.
      replace (S (tpl_pos tpl) + k) with (tpl_pos tpl + S k) by lia.
      reflexivity.
    + apply tracked_set_length, tracked_goto; [assumption | lia].
    + cbn. lia.
    + intros i Hi. cbn [tpl_pos set_length goto set_col set_line set_pos].
      replace (S (tpl_pos tpl) + i) with (tpl_pos tpl + S i) by lia.
      apply (Hlit (S i)). lia.
Qed.

Lemma states_mono (fuel fuel' : nat) (state : option stateFunc) (tpl t : Template) :
  states fuel state tpl = Some t -> fuel <= fuel' -> states fuel' state tpl = Some t.
Proof.
  revert fuel' state tpl. induction fuel as [|fuel IH]; intros fuel' state tpl.
  - destruct state; cbn; [discriminate|]. intros [= <-] _. now destruct fuel'.
  - destruct state as [f|]; cbn [states].
    + intros H Hle. destruct fuel' as [|fuel']; [lia|]. cbn [states].
      destruct (call f tpl) as [tpl1 next]. apply IH; [assumption | lia].
    + intros [= <-] _. now destruct fuel'.
Qed.

(** Any run of the loop that stops gives the answer of [parse]. *)
Lemma parse_by_run (tpl t : Template) (n : nat) :
  fresh tpl -> states n (Some StContent) (goto 0 tpl) = Some t ->
  parse tpl = Some (parse_answer t).
Proof.
  intros Hf Hrun. destruct (parse_fresh tpl Hf) as (tpl2 & Hrun2 & _ & ->).
  apply (states_mono _ (n + S (S (tpl_rawLen tpl)))) in Hrun; [|lia].
  apply (states_mono _ (n + S (S (tpl_rawLen tpl)))) in Hrun2; [|lia].
  congruence.
Qed.

Lemma FromString_by_run (name tplstr : string) (locator : option templateLocator)
    (tpl t : Template) (n : nat) :
  newTemplate name tplstr locator = inl tpl ->
  states n (Some StContent) (goto 0 tpl) = Some t ->
  FromString name tplstr locator =
    Some (match parse_answer t with
          | (_, Some err) => inr err
          | (tpl', None) => inl tpl'
          end).
Proof.
  intros Hnew Hrun. unfold FromString. rewrite Hnew.
  apply newTemplate_fresh in Hnew as [Hf _].
  rewrite (parse_by_run tpl t n Hf Hrun). now destruct (parse_answer t) as [? [|]].
Qed.

(** A text that begins with [lit], free of braces: the loop reads it
    byte by byte and stands behind it. *)
Lemma run_literal_prefix (tpl : Template) (lit rest : string) (fuel : nat) :
  fresh tpl -> tpl_raw tpl = lit +:+ rest -> Bytes.contains "{" lit = false ->
  states (String.length lit + fuel) (Some StContent) (goto 0 tpl) =
    states fuel (Some StContent)
      (set_length (String.length lit) (goto (String.length lit) tpl)).
Proof.
  intros Hf Hraw Hlit.
  destruct (updatePosition_first tpl (fresh_rawLen _ Hf) (fresh_some _ Hf)
              (fresh_pos _ Hf) (fresh_line _ Hf) (fresh_col _ Hf)) as [_ Ht].
  pose proof (fresh_rawLen _ Hf) as Hlen.
  rewrite Hraw, length_app_string in Hlen.
  rewrite content_literal; [| assumption | cbn; lia |].
  - cbn [tpl_length tpl_pos goto set_col set_line set_pos Nat.add].
    now rewrite (fresh_length _ Hf).
  - intros i Hi. cbn [tpl_pos goto set_col set_line set_pos Nat.add].
    change (rawAt (goto 0 tpl) i) with (byte_of (tpl_raw tpl) i).
    rewrite Hraw, byte_app_l by assumption. now apply byte_free.
Qed.

(** What the lexer holds behind a literal: the scanner at the end of it,
    the literal itself captured. *)
Lemma behind_literal (tpl : Template) (lit rest : string) :
  fresh tpl -> tpl_raw tpl = lit +:+ rest -> String.length lit <= tpl_rawLen tpl ->
  let t := set_length (String.length lit) (goto (String.length lit) tpl) in
  tracked t /\ captured t = lit /\ tpl_nodes t = [] /\ tpl_err t = ""
  /\ tpl_name t = tpl_name tpl.
Proof.
  intros Hf Hraw Hle. cbn zeta.
  destruct (updatePosition_first tpl (fresh_rawLen _ Hf) (fresh_some _ Hf)
              (fresh_pos _ Hf) (fresh_line _ Hf) (fresh_col _ Hf)) as [_ Ht].
  refine (conj _ (conj _ (conj _ (conj _ _)))).
  - apply tracked_set_length. change (goto (String.length lit) tpl)
      with (goto (String.length lit) (goto 0 tpl)).
    now apply tracked_goto.
  - unfold captured. cbn. rewrite (fresh_start _ Hf), Hraw. apply slice_prefix.
  - apply (fresh_nodes _ Hf).
  - apply (fresh_err _ Hf).
  - reflexivity.
Qed.

Lemma byte_app_r0 (s1 s2 : string) :
  byte_of (s1 +:+ s2) (String.length s1) = byte_of s2 0.
Proof. rewrite <- (byte_app_r s1 s2 0). f_equal. lia. Qed.

Lemma byte_app_r1 (s1 s2 : string) :
  byte_of (s1 +:+ s2) (S (String.length s1)) = byte_of s2 1.
Proof. rewrite <- (byte_app_r s1 s2 1). f_equal. lia. Qed.

Lemma addContentNode_nodes (tpl : Template) :
  tpl_nodes (addContentNode tpl) =
    if tpl_length tpl =? 0 then tpl_nodes tpl else tpl_nodes tpl ++ [literal_node tpl].
Proof. unfold addContentNode. now destruct (tpl_length tpl =? 0). Qed.

Lemma addContentNode_err (tpl : Template) :
  tpl_err (addContentNode tpl) = tpl_err tpl.
Proof. unfold addContentNode. now destruct (tpl_length tpl =? 0). Qed.

Lemma addContentNode_name (tpl : Template) :
  tpl_name (addContentNode tpl) = tpl_name tpl.
Proof. unfold addContentNode. now destruct (tpl_length tpl =? 0). Qed.

Lemma addContentNode_length (tpl : Template) :
  tpl_length (addContentNode tpl) = 0.
Proof.
  unfold addContentNode. destruct (Nat.eqb_spec (tpl_length tpl) 0); [assumption | reflexivity].
Qed.

(** A literal followed by an opening brace and one more byte: the run of
    the loop up to the call that reads the brace. *)
Lemma run_to_brace (tpl : Template) (lit rest : string) (nc : ascii) (fuel : nat) :
  fresh tpl -> tpl_raw tpl = lit +:+ String "{" (String nc rest) ->
  Bytes.contains "{" lit = false ->
  let t2 := goto (S (S (String.length lit)))
              (set_length (String.length lit) tpl) in
  states (String.length lit + S fuel) (Some StContent) (goto 0 tpl) =
    match opener nc with
    | Some next =>
        states fuel (Some next) (set_start (tpl_pos t2) (addContentNode t2))
    | None => Some (set_err (unknown_open nc) t2)
    end.
Proof.
  intros Hf Hraw Hlit. cbn zeta.
  pose proof (fresh_rawLen _ Hf) as Hlen.
  rewrite Hraw, length_app_string in Hlen. cbn [String.length] in Hlen.
  rewrite (run_literal_prefix tpl lit _ (S fuel) Hf Hraw Hlit).
  destruct (behind_literal tpl lit _ Hf Hraw) as (Ht & _); [lia|].
  cbn [states call]. rewrite processContent_open; [| assumption | cbn; lia |].
  2:{ cbn [tpl_pos set_length goto set_col set_line set_pos].
      change (rawAt ?t ?i) with (byte_of (tpl_raw tpl) i).
      now rewrite Hraw, byte_app_r0. }
  cbn [tpl_pos set_length goto set_col set_line set_pos].
  change (rawAt ?t ?i) with (byte_of (tpl_raw tpl) i).
  rewrite Hraw, byte_app_r1. change (byte_of _ 1) with nc.
  cbn zeta. destruct (opener nc); [reflexivity|]. now destruct fuel.
Qed.

Lemma append_empty_r (s : string) : s +:+ "" = s.
Proof.
  induction s as [|c s IH]; [reflexivity|].
  change (String c (s +:+ "") = String c s). now f_equal.
Qed.

Lemma unknown_open_nonempty (nc : ascii) :
  (0 <? String.length (unknown_open nc)) = true.
Proof. reflexivity. Qed.

Lemma FromString_unknown_open (name lit rest : string) (nc : ascii)
    (locator : option templateLocator) :
  Bytes.contains "{" lit = false -> opener nc = None ->
  let src := lit +:+ String "{" (String nc rest) in
  let q := Nat.min (String.length lit + 2) (String.length src - 1) in
  FromString name src locator =
    Some (inr (parsing_error name (Position.line_at src q) (Position.col_at src q)
                 (unknown_open nc))).
Proof.
  intros Hlit Hop. cbn zeta.
  destruct (newTemplate_some name (lit +:+ String "{" (String nc rest)) locator)
    as [tpl Hnew]; [now destruct lit|].
  destruct (newTemplate_fresh _ _ _ _ Hnew) as (Hf & Hraw & Hname).
  pose proof (run_to_brace tpl lit rest nc 0 Hf Hraw Hlit) as Hrun.
  cbn zeta in Hrun. rewrite Hop in Hrun.
  rewrite (FromString_by_run _ _ _ _ _ _ Hnew Hrun).
  unfold parse_answer. cbn [tpl_err set_err]. rewrite unknown_open_nonempty.
  cbn [tpl_name tpl_line tpl_col tpl_raw tpl_rawLen set_err goto set_col set_line
         set_pos set_length].
  rewrite Hname, (fresh_rawLen _ Hf), Hraw.
  now replace (S (S (String.length lit))) with (String.length lit + 2) by lia.
Qed.

Lemma FromString_literal (name lit : string) (locator : option templateLocator) :
  lit <> "" -> Bytes.contains "{" lit = false ->
  exists tpl,
    FromString name lit locator = Some (inl tpl)
    /\ tpl_nodes tpl =
         [ContentNode {| cn_line := Position.line_at lit (String.length lit - 1);
                         cn_col := Position.col_at lit (String.length lit - 1);
                         cn_content := lit |}]
    /\ tpl_parsed tpl = true /\ tpl_err tpl = "".
Proof.
  intros Hne Hlit.
  destruct (newTemplate_some name lit locator Hne) as [tpl Hnew].
  destruct (newTemplate_fresh _ _ _ _ Hnew) as (Hf & Hraw & Hname).
  assert (Hraw' : tpl_raw tpl = lit +:+ "") by now rewrite append_empty_r.
  pose proof (fresh_rawLen _ Hf) as Hlen. rewrite Hraw in Hlen.
  pose proof (run_literal_prefix tpl lit "" 1 Hf Hraw' Hlit) as Hrun.
  destruct (behind_literal tpl lit "" Hf Hraw') as (Ht & Hcap & Hnodes & Herr & _); [lia|].
  cbn [states call] in Hrun. rewrite processContent_end in Hrun by (cbn; lia).
  cbn [states] in Hrun.
  rewrite (FromString_by_run _ _ _ _ _ _ Hnew Hrun).
  unfold parse_answer. rewrite addContentNode_err, Herr. cbn [String.length Nat.ltb Nat.leb].
  eexists. split; [reflexivity|]. cbn [tpl_nodes tpl_parsed tpl_err set_parsed].
  rewrite addContentNode_nodes, addContentNode_err, Hnodes, Herr.
  cbn [tpl_length set_length].
  destruct (Nat.eqb_spec (String.length lit) 0) as [H0|_];
    [destruct lit; [contradiction | discriminate]|].
  refine (conj _ (conj eq_refl eq_refl)). unfold literal_node. rewrite Hcap.
  cbn [app tpl_line tpl_col tpl_raw tpl_rawLen set_length goto set_col set_line set_pos].
  rewrite Hraw, Hlen. now rewrite Nat.min_r by lia.
Qed.

Lemma run_opens (name lit rest : string) (nc : ascii)
    (locator : option templateLocator) (tpl : Template) (next : stateFunc) :
  newTemplate name (lit +:+ String "{" (String nc rest)) locator = inl tpl ->
  Bytes.contains "{" lit = false -> opener nc = Some next ->
  let src := lit +:+ String "{" (String nc rest) in
  let q := Nat.min (String.length lit + 2) (String.length src - 1) in
  exists t,
    (forall fuel,
        states (String.length lit + S fuel) (Some StContent) (fst (updatePosition tpl))
        = states fuel (Some next) t)
    /\ tpl_nodes t =
         (if String.length lit =? 0 then []
          else [ContentNode {| cn_line := Position.line_at src q;
                               cn_col := Position.col_at src q;
                               cn_content := lit |}])
    /\ tpl_pos t = String.length lit + 2 /\ tpl_start t = String.length lit + 2
    /\ tpl_length t = 0 /\ tpl_err t = "".
Proof.
  intros Hnew Hlit Hop. cbn zeta.
  destruct (newTemplate_fresh _ _ _ _ Hnew) as (Hf & Hraw & Hname).
  destruct (updatePosition_first tpl (fresh_rawLen _ Hf) (fresh_some _ Hf)
              (fresh_pos _ Hf) (fresh_line _ Hf) (fresh_col _ Hf)) as [-> _].
  eexists. split.
  { intros fuel. rewrite (run_to_brace tpl lit rest nc fuel Hf Hraw Hlit).
    cbn zeta. rewrite Hop. reflexivity. }
  cbn [tpl_nodes tpl_pos tpl_start tpl_length tpl_err set_start].
  rewrite addContentNode_nodes, addContentNode_length, addContentNode_err,
    addContentNode_pos.
  cbn [tpl_nodes tpl_pos tpl_length tpl_err set_length goto set_col set_line set_pos].
  rewrite (fresh_nodes _ Hf), (fresh_err _ Hf).
  refine (conj _ (conj _ (conj _ (conj eq_refl eq_refl)))); try lia.
  destruct (String.length lit =? 0); [reflexivity|].
  unfold literal_node, captured.
  cbn [app tpl_line tpl_col tpl_raw tpl_rawLen tpl_start tpl_length set_length goto
         set_col set_line set_pos].
  rewrite (fresh_start _ Hf), (fresh_rawLen _ Hf), Hraw, slice_prefix.
  now replace (S (S (String.length lit))) with (String.length lit + 2) by lia.
Qed.

(** C7.  In the content state an opening brace followed by '#', '%' or
    another brace flushes the literal read so far ([addContentNode]
    appends it when it is not empty) and moves to the comment, tag or
    filter state; any other byte after the brace is the parse error
    "Unknown open command"; the end of the text is no error: the last
    literal is flushed and the parse succeeds.  Each is stated for one
    call of [processContent] on any template, and for the parse of a
    text that starts with a brace-free literal. *)
Theorem content_state_transitions :
  (forall tpl nc next,
      getChar 0 tpl = ("{"%char, true) -> getChar 1 tpl = (nc, true) ->
      opener nc = Some next ->
      processContent tpl =
        (let tpl2 := addContentNode (fst (fastForward 2 tpl)) in
         (set_start (tpl_pos tpl2) tpl2, Some next)))
  /\ (forall tpl nc,
      getChar 0 tpl = ("{"%char, true) -> getChar 1 tpl = (nc, true) ->
      opener nc = None ->
      processContent tpl =
        (set_err (unknown_open nc) (fst (fastForward 2 tpl)), None))
  /\ (forall tpl c,
      getChar 0 tpl = (c, false) ->
      processContent tpl = (addContentNode tpl, None))
  /\ (forall tpl,
      tpl_nodes (addContentNode tpl) =
        if tpl_length tpl =? 0 then tpl_nodes tpl
        else tpl_nodes tpl ++ [literal_node tpl])
  /\ (forall name lit rest nc locator tpl next,
      newTemplate name (lit +:+ String "{" (String nc rest)) locator = inl tpl ->
      Bytes.contains "{" lit = false -> opener nc = Some next ->
      let src := lit +:+ String "{" (String nc rest) in
      let q := Nat.min (String.length lit + 2) (String.length src - 1) in
      exists t,
        (forall fuel,
            states (String.length lit + S fuel) (Some StContent)
              (fst (updatePosition tpl))
            = states fuel (Some next) t)
        /\ tpl_nodes t =
             (if String.length lit =? 0 then []
              else [ContentNode {| cn_line := Position.line_at src q;
                                   cn_col := Position.col_at src q;
                                   cn_content := lit |}])
        /\ tpl_pos t = String.length lit + 2 /\ tpl_start t = String.length lit + 2
        /\ tpl_length t = 0 /\ tpl_err t = "")
  /\ (forall name lit rest nc locator,
      Bytes.contains "{" lit = false -> opener nc = None ->
      let src := lit +:+ String "{" (String nc rest) in
      let q := Nat.min (String.length lit + 2) (String.length src - 1) in
      FromString name src locator =
        Some (inr (parsing_error name (Position.line_at src q)
                     (Position.col_at src q) (unknown_open nc))))
  /\ (forall name lit locator,
      lit <> "" -> Bytes.contains "{" lit = false ->
      exists tpl,
        FromString name lit locator = Some (inl tpl)
        /\ tpl_nodes tpl =
             [ContentNode {| cn_line := Position.line_at lit (String.length lit - 1);
                             cn_col := Position.col_at lit (String.length lit - 1);
                             cn_content := lit |}]
        /\ tpl_parsed tpl = true /\ tpl_err tpl = "").
Proof.
  refine (conj _ (conj _ (conj _ (conj _ (conj _ (conj _ _)))))).
  - intros tpl nc next G0 G1 Hop. unfold processContent. rewrite G0, G1.
    cbn [negb Ascii.eqb Bool.eqb andb]. unfold opener in Hop. cbn zeta.
    repeat destruct (Ascii.eqb nc _); now inversion Hop.
  - intros tpl nc G0 G1 Hop. unfold processContent. rewrite G0, G1.
    cbn [negb Ascii.eqb Bool.eqb andb]. unfold opener in Hop. cbn zeta.
    repeat destruct (Ascii.eqb nc _); now inversion Hop.
  - intros tpl c G0. unfold processContent. now rewrite G0.
  - apply addContentNode_nodes.
  - apply run_opens.
  - apply FromString_unknown_open.
  - apply FromString_literal.
Qed.

(** ** The filter and tag states *)

Lemma processFilter_region (tpl : Template) :
  processFilter tpl = region "}" "File end reached within filter" StFilter addFilterNode tpl.
Proof. reflexivity. Qed.

Lemma processTag_region (tpl : Template) :
  processTag tpl = region "%" "File end reached within tag" StTag addTagNode tpl.
Proof. reflexivity. Qed.

Section Region.

Variables (close : ascii) (msg : string) (st : stateFunc)
  (add : Template -> Template * option string).
Hypothesis call_region : forall tpl, call st tpl = region close msg st add tpl.

Lemma region_end (tpl : Template) :
  tpl_rawLen tpl <= tpl_pos tpl ->
  region close msg st add tpl = (set_err msg tpl, None).
Proof. intros H. unfold region. now rewrite getChar_out by lia. Qed.

Lemma region_scan (tpl : Template) :
  tracked tpl -> tpl_pos tpl < tpl_rawLen tpl ->
  rawAt tpl (tpl_pos tpl) <> close ->
  region close msg st add tpl =
    (set_length (S (tpl_length tpl)) (goto (S (tpl_pos tpl)) tpl), Some st).
Proof.
  intros Ht Hlt Hne. unfold region.
  rewrite getChar_in, Nat.add_0_r by lia. cbn [negb].
  destruct (Ascii.eqb_spec (rawAt tpl (tpl_pos tpl)) close); [contradiction|].
  now rewrite scan_one.
Qed.

Lemma region_close (tpl : Template) :
  S (tpl_pos tpl) < tpl_rawLen tpl ->
  rawAt tpl (tpl_pos tpl) = close -> rawAt tpl (S (tpl_pos tpl)) = "}"%char ->
  region close msg st add tpl =
    match add tpl with
    | (tpl, Some err) => (set_err err tpl, None)
    | (tpl, None) =>
        let tpl := fst (fastForward 2 tpl) in
        (set_start (tpl_pos tpl) tpl, Some StContent)
    end.
Proof.
  intros Hlt Hc Hnc. unfold region.
  rewrite getChar_in, Nat.add_0_r, Hc, Ascii.eqb_refl by lia. cbn [negb].
  rewrite getChar_in, Nat.add_1_r, Hnc by lia. reflexivity.
Qed.

(** Reading [k] bytes of a region, none of them the closing byte. *)
Lemma region_literal (k fuel : nat) (tpl : Template) :
  tracked tpl -> tpl_pos tpl + k <= tpl_rawLen tpl ->
  (forall i, i < k -> rawAt tpl (tpl_pos tpl + i) <> close) ->
  states (k + fuel) (Some st) tpl =
    states fuel (Some st)
      (set_length (tpl_length tpl + k) (goto (tpl_pos tpl + k) tpl)).
Proof.
  revert tpl. induction k as [|k IH]; intros tpl Ht Hk Hlit.
  - rewrite !Nat.add_0_r, goto_here by assumption. now destruct tpl.
  - cbn [Nat.add states]. rewrite call_region, region_scan; [| assumption | lia |].
    2:{ specialize (Hlit 0). rewrite Nat.add_0_r in Hlit. apply Hlit. lia. }
    rewrite IH.
    + cbn [tpl_length tpl_pos set_length goto set_col set_line set_pos].
      replace (S (tpl_length tpl) + k) with (tpl_length tpl + S k) by lia.
      replace (S (tpl_pos tpl) + k) with (tpl_pos tpl + S k) by lia.
      reflexivity.
    + apply tracked_set_length, tracked_goto; [assumption | lia].
    + cbn. lia.
    + intros i Hi. cbn [tpl_pos set_length goto set_col set_line set_pos].
      replace (S (tpl_pos tpl) + i) with (tpl_pos tpl + S i) by lia.
      apply (Hlit (S i)). lia.
Qed.

(** A region whose text [body] holds no closing byte, read up to its
    closing delimiter: the builder is called on the whole of it. *)
Lemma region_run (tpl : Template) (pre body rest : string) (fuel : nat) :
  tracked tpl ->
  tpl_raw tpl = pre +:+ (body +:+ String close (String "}" rest)) ->
  tpl_pos tpl = String.length pre ->
  Bytes.contains close body = false ->
  states (String.length body + S fuel) (Some st) tpl =
    match add (set_length (tpl_length tpl + String.length body)
                 (goto (String.length pre + String.length body) tpl)) with
    | (t, Some err) => Some (set_err err t)
    | (t, None) =>
        states fuel (Some StContent)
          (let t := fst (fastForward 2 t) in set_start (tpl_pos t) t)
    end.
Proof.
  intros Ht Hraw Hpos Hbody.
  pose proof (tracked_rawLen _ Ht) as Hlen.
  rewrite Hraw, !length_app_string in Hlen. cbn [String.length] in Hlen.
  rewrite region_literal; [| assumption | lia |].
  2:{ intros i Hi. change (rawAt tpl ?j) with (byte_of (tpl_raw tpl) j).
      rewrite Hraw, Hpos, byte_app_r, byte_app_l by assumption.
      now apply byte_free. }
  rewrite Hpos. cbn [states]. rewrite call_region, region_close.
  - destruct (add _) as [t [err|]]; [now destruct fuel | reflexivity].
  - cbn. lia.
  - cbn [tpl_pos set_length goto set_col set_line set_pos].
    change (rawAt ?t ?j) with (byte_of (tpl_raw tpl) j).
    now rewrite Hraw, byte_app_r, byte_app_r0.
  - cbn [tpl_pos set_length goto set_col set_line set_pos].
    change (rawAt ?t ?j) with (byte_of (tpl_raw tpl) j).
    rewrite Hraw. replace (S (String.length pre + String.length body))
      with (String.length pre + S (String.length body)) by lia.
    now rewrite byte_app_r, byte_app_r1.
Qed.

End Region.

Lemma append_cons (c : ascii) (s1 s2 : string) :
  String c s1 +:+ s2 = String c (s1 +:+ s2).
Proof. reflexivity. Qed.

Lemma append_assoc (s1 s2 s3 : string) : (s1 +:+ s2) +:+ s3 = s1 +:+ (s2 +:+ s3).
Proof.
  induction s1 as [|c s1 IH]; [reflexivity|]. rewrite !append_cons. now f_equal.
Qed.

Lemma slice_app_r (s1 s2 : string) (a n : nat) :
  Bytes.slice (s1 +:+ s2) (String.length s1 + a) n = Bytes.slice s2 a n.
Proof.
  unfold Bytes.slice. induction s1 as [|c s1 IH]; [reflexivity|].
  rewrite append_cons. cbn [String.length Nat.add String.substring]. exact IH.
Qed.

Lemma opened_scanned (lit : string) (tpl : Template) :
  fresh tpl -> String.length lit + 2 <= tpl_rawLen tpl ->
  scanned (goto 0 tpl) (opened lit tpl)
  /\ tpl_pos (opened lit tpl) = String.length lit + 2
  /\ tpl_start (opened lit tpl) = String.length lit + 2
  /\ tpl_length (opened lit tpl) = 0.
Proof.
  intros Hf Hle.
  destruct (updatePosition_first tpl (fresh_rawLen _ Hf) (fresh_some _ Hf)
              (fresh_pos _ Hf) (fresh_line _ Hf) (fresh_col _ Hf)) as [_ Ht].
  unfold opened. cbn zeta.
  refine (conj _ (conj _ (conj _ _))).
  - apply scanned_set_start, scanned_addContentNode.
    change (goto ?p (set_length ?n tpl)) with (goto p (set_length n (goto 0 tpl))).
    apply scanned_goto; [| cbn; lia | cbn; lia].
    now apply scanned_set_length, scanned_refl.
  - cbn [tpl_pos set_start]. rewrite addContentNode_pos. cbn. lia.
  - cbn. lia.
  - cbn [tpl_length set_start]. apply addContentNode_length.
Qed.

Lemma run_region (close : ascii) (msg : string) (st : stateFunc)
    (add : Template -> Template * option string)
    (tpl : Template) (lit body rest : string) (o : ascii) (fuel : nat) :
  (forall t, call st t = region close msg st add t) ->
  fresh tpl ->
  tpl_raw tpl = lit +:+ String "{" (String o (body +:+ String close (String "}" rest))) ->
  Bytes.contains "{" lit = false -> opener o = Some st ->
  Bytes.contains close body = false ->
  states (String.length lit + S (String.length body + S fuel)) (Some StContent)
    (goto 0 tpl) =
    match add (closing lit body tpl) with
    | (t, Some err) => Some (set_err err t)
    | (t, None) =>
        states fuel (Some StContent)
          (let t := fst (fastForward 2 t) in set_start (tpl_pos t) t)
    end.
Proof.
  intros Hcall Hf Hraw Hlit Hop Hbody.
  pose proof (fresh_rawLen _ Hf) as Hlen.
  rewrite Hraw, !length_app_string in Hlen. cbn [String.length] in Hlen.
  rewrite !length_app_string in Hlen. cbn [String.length] in Hlen.
  rewrite (run_to_brace tpl lit _ o _ Hf Hraw Hlit). cbn zeta. rewrite Hop.
  destruct (opened_scanned lit tpl Hf) as (Hs & Hpos & Hstart & Hl0); [lia|].
  fold (opened lit tpl).
  rewrite (region_run close msg st add Hcall (opened lit tpl)
             (lit +:+ String "{" (String o "")) body rest fuel).
  - rewrite Hl0, length_app_string. cbn [String.length Nat.add].
    replace (String.length lit + 2) with (String.length lit + 2 + 0) at 1 by lia.
    unfold closing.
    now replace (String.length lit + 2 + 0 + String.length body)
      with (String.length lit + 2 + String.length body) by lia.
  - apply (scanned_tracked _ _ Hs).
  - rewrite (scanned_raw _ _ Hs). cbn [tpl_raw goto set_col set_line set_pos].
    now rewrite Hraw, append_assoc, !append_cons.
  - rewrite Hpos, length_app_string. reflexivity.
  - assumption.
Qed.

Lemma addContentNode_frame (tpl : Template) :
  tpl_raw (addContentNode tpl) = tpl_raw tpl
  /\ tpl_rawLen (addContentNode tpl) = tpl_rawLen tpl
  /\ tpl_autosafe (addContentNode tpl) = tpl_autosafe tpl.
Proof. unfold addContentNode. now destruct (tpl_length tpl =? 0). Qed.

Lemma closing_facts (tpl : Template) (lit body tail : string) (o : ascii) :
  fresh tpl ->
  tpl_raw tpl = lit +:+ String "{" (String o (body +:+ tail)) ->
  tail <> "" ->
  let t := closing lit body tpl in
  let q := String.length lit + 2 + String.length body in
  tpl_length t = String.length body
  /\ captured t = body
  /\ tpl_line t = Position.line_at (tpl_raw tpl) q
  /\ tpl_col t = Position.col_at (tpl_raw tpl) q
  /\ tpl_name t = tpl_name tpl
  /\ tpl_err t = ""
  /\ tpl_autosafe t = tpl_autosafe tpl
  /\ tpl_pos t = q
  /\ tpl_nodes t = first_literal (tpl_raw tpl) lit.
Proof.
  intros Hf Hraw Htail. cbn zeta.
  pose proof (fresh_rawLen _ Hf) as Hlen.
  rewrite Hraw, !length_app_string in Hlen. cbn [String.length] in Hlen.
  rewrite !length_app_string in Hlen.
  assert (0 < String.length tail) by (destruct tail; [contradiction | cbn; lia]).
  unfold closing, opened. cbn zeta.
  destruct (addContentNode_frame
              (goto (S (S (String.length lit))) (set_length (String.length lit) tpl)))
    as (Hr & Hrl & Hsafe).
  cbn [tpl_length tpl_line tpl_col tpl_name tpl_err tpl_autosafe tpl_pos tpl_nodes
         tpl_raw tpl_rawLen tpl_start captured set_length set_start goto
         set_col set_line set_pos].
  rewrite addContentNode_name, addContentNode_err, addContentNode_nodes, Hr, Hrl, Hsafe.
  cbn [tpl_length tpl_line tpl_col tpl_name tpl_err tpl_autosafe tpl_pos tpl_nodes
         tpl_raw tpl_rawLen tpl_start set_length set_start goto
         set_col set_line set_pos].
  rewrite (fresh_err _ Hf), (fresh_nodes _ Hf), (fresh_rawLen _ Hf).
  rewrite Nat.min_l by (rewrite Hraw; rewrite !length_app_string;
                        cbn [String.length]; rewrite !length_app_string; lia).
  refine (conj eq_refl (conj _ (conj eq_refl (conj eq_refl (conj eq_refl
            (conj eq_refl (conj eq_refl (conj eq_refl _)))))))).
  - unfold captured.
    cbn [tpl_length tpl_raw tpl_start set_length set_start goto set_col set_line set_pos].
    rewrite Hr. cbn [tpl_raw set_length goto set_col set_line set_pos].
    rewrite Hraw.
    replace (S (S (String.length lit))) with (String.length lit + 2) by lia.
    rewrite slice_app_r. apply (slice_prefix body tail).
  - unfold first_literal. destruct (String.length lit =? 0); [reflexivity|].
    unfold literal_node, captured.
    cbn [app tpl_line tpl_col tpl_raw tpl_rawLen tpl_start tpl_length set_length goto
           set_col set_line set_pos].
    rewrite (fresh_start _ Hf), (fresh_rawLen _ Hf).
    replace (S (S (String.length lit))) with (String.length lit + 2) by lia.
    do 3 f_equal. rewrite Hraw at 1. apply slice_prefix.
Qed.

Lemma parse_answer_error (err : string) (tpl : Template) :
  err <> "" ->
  parse_answer (set_err err tpl) =
    (set_err err tpl,
     Some (parsing_error (tpl_name tpl) (tpl_line tpl) (tpl_col tpl) err)).
Proof. intros H. destruct err; [contradiction | reflexivity]. Qed.

(** A region that closes on a builder error: the parse stops there and
    reports the builder's message at the first closing byte. *)
Lemma FromString_region_error (close : ascii) (msg : string) (st : stateFunc)
    (add : Template -> Template * option string)
    (name lit body rest : string) (o : ascii) (locator : option templateLocator)
    (tpl : Template) (err : string) :
  (forall t, call st t = region close msg st add t) ->
  let src := lit +:+ String "{" (String o (body +:+ String close (String "}" rest))) in
  let q := String.length lit + 2 + String.length body in
  newTemplate name src locator = inl tpl ->
  Bytes.contains "{" lit = false -> opener o = Some st ->
  Bytes.contains close body = false ->
  add (closing lit body tpl) = (closing lit body tpl, Some err) -> err <> "" ->
  FromString name src locator =
    Some (inr (parsing_error name (Position.line_at src q) (Position.col_at src q) err)).
Proof.
  intros Hcall src q Hnew Hlit Hop Hbody Hadd Herr.
  destruct (newTemplate_fresh _ _ _ _ Hnew) as (Hf & Hraw & Hname).
  pose proof (run_region close msg st add tpl lit body rest o 0 Hcall Hf Hraw Hlit Hop Hbody)
    as Hrun.
  rewrite Hadd in Hrun.
  rewrite (FromString_by_run _ _ _ _ _ _ Hnew Hrun).
  destruct (closing_facts tpl lit body (String close (String "}" rest)) o Hf Hraw)
    as (_ & _ & Hline & Hcol & Hn & _); [discriminate|].
  rewrite (parse_answer_error _ _ Herr), Hline, Hcol, Hn, Hname, Hraw.
  reflexivity.
Qed.

Lemma addFilterNode_empty (tpl : Template) :
  tpl_length tpl = 0 -> addFilterNode tpl = (tpl, Some "Empty filter").
Proof. intros H. unfold addFilterNode. now rewrite H. Qed.

Lemma addFilterNode_some (tpl : Template) :
  tpl_length tpl <> 0 ->
  addFilterNode tpl =
    let content := GoStrings.TrimSpace (captured tpl) in
    match newExpr content with
    | inr err => (tpl, Some err)
    | inl e =>
        (set_nodes
           (tpl_nodes tpl ++
              [FilterNode {| fn_line := tpl_line tpl;
                             fn_col := tpl_col tpl;
                             fn_content := content;
                             fn_e := if tpl_autosafe tpl then addFilter e "safe" else e |}])
           (set_length 0 (set_start (tpl_pos tpl) tpl)), None)
    end.
Proof.
  intros H. unfold addFilterNode.
  now destruct (Nat.eqb_spec (tpl_length tpl) 0); [contradiction|].
Qed.

(** The parse of a text whose first region is a filter with no byte in
    it. *)
Lemma FromString_empty_filter (name lit rest : string)
    (locator : option templateLocator) :
  Bytes.contains "{" lit = false ->
  let src := lit +:+ "{{}}" +:+ rest in
  let q := String.length lit + 2 in
  FromString name src locator =
    Some (inr (parsing_error name (Position.line_at src q)
                 (Position.col_at src q) "Empty filter")).
Proof.
  intros Hlit src q.
  destruct (newTemplate_some name src locator) as [tpl Hnew];
    [subst src; now destruct lit|].
  destruct (newTemplate_fresh _ _ _ _ Hnew) as (Hf & Hraw & _).
  replace q with (String.length lit + 2 + String.length "") by (cbn; lia).
  apply (FromString_region_error "}" "File end reached within filter" StFilter
           addFilterNode name lit "" rest "{" locator tpl);
    [intros; reflexivity | exact Hnew | exact Hlit | reflexivity | reflexivity
    | | discriminate].
  apply addFilterNode_empty.
  now destruct (closing_facts tpl lit "" (String "}" (String "}" rest)) "{" Hf Hraw).
Qed.

(** The parse of a text whose first region is a filter the expression
    compiler refuses. *)
Lemma FromString_filter_rejected (name lit body rest : string)
    (locator : option templateLocator) (err : string) :
  Bytes.contains "{" lit = false -> Bytes.contains "}" body = false ->
  body <> "" -> newExpr (GoStrings.TrimSpace body) = inr err -> err <> "" ->
  let src := lit +:+ "{{" +:+ body +:+ "}}" +:+ rest in
  let q := String.length lit + 2 + String.length body in
  FromString name src locator =
    Some (inr (parsing_error name (Position.line_at src q)
                 (Position.col_at src q) err)).
Proof.
  intros Hlit Hbody Hne Hexpr Herr src q.
  destruct (newTemplate_some name src locator) as [tpl Hnew];
    [subst src; now destruct lit|].
  destruct (newTemplate_fresh _ _ _ _ Hnew) as (Hf & Hraw & _).
  apply (FromString_region_error "}" "File end reached within filter" StFilter
           addFilterNode name lit body rest "{" locator tpl);
    [intros; reflexivity | exact Hnew | exact Hlit | reflexivity | exact Hbody
    | | exact Herr].
  destruct (closing_facts tpl lit body (String "}" (String "}" rest)) "{" Hf Hraw)
    as (Hl & Hcap & _); [discriminate|].
  rewrite addFilterNode_some by (rewrite Hl; now destruct body).
  cbn zeta. now rewrite Hcap, Hexpr.
Qed.

(** C4, as the code has it.  A filter region with no byte between its
    delimiters fails the parse with "Empty filter", reported at the first
    closing byte.  The guard tests the captured length before trimming: a
    region with at least one byte, white space included, passes it, and
    its trimmed text goes to the expression compiler, whose error, when
    it gives one, is the parse error. *)
Theorem empty_filter_guard :
  (forall tpl, tpl_length tpl = 0 -> addFilterNode tpl = (tpl, Some "Empty filter"))
  /\ (forall tpl,
      tpl_length tpl <> 0 ->
      addFilterNode tpl =
        let content := GoStrings.TrimSpace (captured tpl) in
        match newExpr content with
        | inr err => (tpl, Some err)
        | inl e =>
            (set_nodes
               (tpl_nodes tpl ++
                  [FilterNode {| fn_line := tpl_line tpl;
                                 fn_col := tpl_col tpl;
                                 fn_content := content;
                                 fn_e := if tpl_autosafe tpl
                                         then addFilter e "safe" else e |}])
               (set_length 0 (set_start (tpl_pos tpl) tpl)), None)
        end)
  /\ (forall name lit rest locator,
      Bytes.contains "{" lit = false ->
      let src := lit +:+ "{{}}" +:+ rest in
      let q := String.length lit + 2 in
      FromString name src locator =
        Some (inr (parsing_error name (Position.line_at src q)
                     (Position.col_at src q) "Empty filter")))
  /\ (forall name lit body rest locator err,
      Bytes.contains "{" lit = false -> Bytes.contains "}" body = false ->
      body <> "" -> newExpr (GoStrings.TrimSpace body) = inr err -> err <> "" ->
      let src := lit +:+ "{{" +:+ body +:+ "}}" +:+ rest in
      let q := String.length lit + 2 + String.length body in
      FromString name src locator =
        Some (inr (parsing_error name (Position.line_at src q)
                     (Position.col_at src q) err))).
Proof.
  exact (conj addFilterNode_empty (conj addFilterNode_some
           (conj FromString_empty_filter FromString_filter_rejected))).
Qed.

(** ** Building a tag node *)

Lemma cut_no_sep (sep : ascii) (s : string) :
  Bytes.contains sep s = false -> GoStrings.cut sep s = (s, None).
Proof.
  induction s as [|c s IH]; cbn; [reflexivity|].
  intros [Hc Hs]%orb_false_elim. rewrite Ascii.eqb_sym, Hc, (IH Hs). reflexivity.
Qed.

Lemma cut_at_sep (sep : ascii) (name rest : string) :
  Bytes.contains sep name = false ->
  GoStrings.cut sep (name +:+ String sep rest) = (name, Some rest).
Proof.
  induction name as [|c s IH]; intros H.
  - change (GoStrings.cut sep (String sep rest) = ("", Some rest)).
    cbn. now rewrite Ascii.eqb_refl.
  - cbn in H. apply orb_false_elim in H as [Hc Hs].
    rewrite append_cons. cbn [GoStrings.cut]. rewrite Ascii.eqb_sym, Hc, (IH Hs).
    reflexivity.
Qed.

Lemma SplitN2_splits (content name rest : string) :
  splits_at_space content name rest ->
  nth 0 (GoStrings.SplitN2 content " ") "" = name
  /\ (if length (GoStrings.SplitN2 content " ") =? 2
      then nth 1 (GoStrings.SplitN2 content " ") "" else "") = rest
  /\ (length (GoStrings.SplitN2 content " ") <? 1) = false.
Proof.
  intros [Hname [-> | [-> ->]]]; unfold GoStrings.SplitN2.
  - now rewrite cut_at_sep.
  - now rewrite cut_no_sep.
Qed.

(** Every text is cut in exactly one way. *)
Lemma splits_at_space_total (content : string) :
  exists name rest, splits_at_space content name rest.
Proof.
  induction content as [|c s (name & rest & Hname & Hcut)].
  - exists "", "". split; [reflexivity | now right].
  - destruct (Ascii.eqb_spec " " c) as [<-|Hne].
    + exists "", s. split; [reflexivity | now left].
    + exists (String c name), rest. split.
      * cbn [Bytes.contains]. apply Ascii.eqb_neq in Hne. now rewrite Hne, Hname.
      * destruct Hcut as [-> | [-> ->]]; [left | right]; now rewrite ?append_cons.
Qed.

Lemma splits_at_space_unique (content name rest name' rest' : string) :
  splits_at_space content name rest -> splits_at_space content name' rest' ->
  name = name' /\ rest = rest'.
Proof.
  intros H H'. apply SplitN2_splits in H as (H1 & H2 & _).
  apply SplitN2_splits in H' as (H1' & H2' & _). split; congruence.
Qed.

Lemma addTagNode_empty (tpl : Template) :
  tpl_length tpl = 0 -> addTagNode tpl = (tpl, Some "Empty tag").
Proof. intros H. unfold addTagNode. now rewrite H. Qed.

Lemma addTagNode_some (tpl : Template) (name rest : string) :
  tpl_length tpl <> 0 ->
  splits_at_space (GoStrings.TrimSpace (captured tpl)) name rest ->
  addTagNode tpl =
    match Tags !! name with
    | None => (tpl, Some (tag_missing name))
    | Some tag =>
        (set_nodes
           (tpl_nodes tpl ++
              [TagNode {| tn_line := tpl_line tpl;
                          tn_col := tpl_col tpl;
                          tn_content := GoStrings.TrimSpace (captured tpl);
                          tn_tagname := name;
                          tn_tagargs := GoStrings.TrimSpace rest;
                          tn_taghandler := tag;
                          tn_ident := "";
                          tn_args := [] |}])
           (set_length 0 (set_start (tpl_pos tpl) tpl)), None)
    end.
Proof.
  intros Hlen Hcut. unfold addTagNode.
  destruct (Nat.eqb_spec (tpl_length tpl) 0); [contradiction|].
  cbn zeta. destruct (SplitN2_splits _ _ _ Hcut) as (-> & -> & ->). reflexivity.
Qed.

Lemma tag_missing_nonempty (tagname : string) : tag_missing tagname <> "".
Proof. discriminate. Qed.

(** The parse of a text whose first region is a tag with no byte in
    it. *)
Lemma FromString_empty_tag (name lit rest : string)
    (locator : option templateLocator) :
  Bytes.contains "{" lit = false ->
  let src := lit +:+ "{%%}" +:+ rest in
  let q := String.length lit + 2 in
  FromString name src locator =
    Some (inr (parsing_error name (Position.line_at src q)
                 (Position.col_at src q) "Empty tag")).
Proof.
  intros Hlit src q.
  destruct (newTemplate_some name src locator) as [tpl Hnew];
    [subst src; now destruct lit|].
  destruct (newTemplate_fresh _ _ _ _ Hnew) as (Hf & Hraw & _).
  replace q with (String.length lit + 2 + String.length "") by (cbn; lia).
  apply (FromString_region_error "%" "File end reached within tag" StTag
           addTagNode name lit "" rest "%" locator tpl);
    [intros; reflexivity | exact Hnew | exact Hlit | reflexivity | reflexivity
    | | discriminate].
  apply addTagNode_empty.
  now destruct (closing_facts tpl lit "" (String "%" (String "}" rest)) "%" Hf Hraw).
Qed.

(** The parse of a text whose first region is a tag the registry does
    not hold. *)
Lemma FromString_missing_tag (name lit body rest : string)
    (locator : option templateLocator) (tagname args : string) :
  Bytes.contains "{" lit = false -> Bytes.contains "%" body = false ->
  body <> "" -> splits_at_space (GoStrings.TrimSpace body) tagname args ->
  Tags !! tagname = None ->
  let src := lit +:+ "{%" +:+ body +:+ "%}" +:+ rest in
  let q := String.length lit + 2 + String.length body in
  FromString name src locator =
    Some (inr (parsing_error name (Position.line_at src q)
                 (Position.col_at src q) (tag_missing tagname))).
Proof.
  intros Hlit Hbody Hne Hcut Hnone src q.
  destruct (newTemplate_some name src locator) as [tpl Hnew];
    [subst src; now destruct lit|].
  destruct (newTemplate_fresh _ _ _ _ Hnew) as (Hf & Hraw & _).
  apply (FromString_region_error "%" "File end reached within tag" StTag
           addTagNode name lit body rest "%" locator tpl);
    [intros; reflexivity | exact Hnew | exact Hlit | reflexivity | exact Hbody
    | | apply tag_missing_nonempty].
  destruct (closing_facts tpl lit body (String "%" (String "}" rest)) "%" Hf Hraw)
    as (Hl & Hcap & _); [discriminate|].
  rewrite (addTagNode_some _ tagname args).
  - now rewrite Hnone.
  - rewrite Hl. now destruct body.
  - now rewrite Hcap.
Qed.

(** C5, as the code has it.  A tag region with no byte between its
    delimiters fails with "Empty tag".  Otherwise the captured text is
    trimmed and cut at its first space byte (0x20; a tab or a line feed
    does not separate): the part before it is the name, the part after it,
    trimmed, the argument text, which is empty when there is no space.
    The name is looked up in [Tags]; an absent name fails with "Tag
    '<name>' does not exist", reported at the first closing byte; a
    present one appends the tag node with the handler the registry
    holds, which may be nil. *)
Theorem tag_node_construction :
  (forall tpl, tpl_length tpl = 0 -> addTagNode tpl = (tpl, Some "Empty tag"))
  /\ (forall content, exists name rest, splits_at_space content name rest)
  /\ (forall tpl name rest,
      tpl_length tpl <> 0 ->
      splits_at_space (GoStrings.TrimSpace (captured tpl)) name rest ->
      addTagNode tpl =
        match Tags !! name with
        | None => (tpl, Some (tag_missing name))
        | Some tag =>
            (set_nodes
               (tpl_nodes tpl ++
                  [TagNode {| tn_line := tpl_line tpl;
                              tn_col := tpl_col tpl;
                              tn_content := GoStrings.TrimSpace (captured tpl);
                              tn_tagname := name;
                              tn_tagargs := GoStrings.TrimSpace rest;
                              tn_taghandler := tag;
                              tn_ident := "";
                              tn_args := [] |}])
               (set_length 0 (set_start (tpl_pos tpl) tpl)), None)
        end)
  /\ (forall name lit rest locator,
      Bytes.contains "{" lit = false ->
      let src := lit +:+ "{%%}" +:+ rest in
      let q := String.length lit + 2 in
      FromString name src locator =
        Some (inr (parsing_error name (Position.line_at src q)
                     (Position.col_at src q) "Empty tag")))
  /\ (forall name lit body rest locator tagname args,
      Bytes.contains "{" lit = false -> Bytes.contains "%" body = false ->
      body <> "" -> splits_at_space (GoStrings.TrimSpace body) tagname args ->
      Tags !! tagname = None ->
      let src := lit +:+ "{%" +:+ body +:+ "%}" +:+ rest in
      let q := String.length lit + 2 + String.length body in
      FromString name src locator =
        Some (inr (parsing_error name (Position.line_at src q)
                     (Position.col_at src q) (tag_missing tagname)))).
Proof.
  exact (conj addTagNode_empty (conj splits_at_space_total (conj addTagNode_some
           (conj FromString_empty_tag FromString_missing_tag)))).
Qed.

(** ** Where an error is reported *)

(** A parse error carries the line and column of the last byte the
    tracker counted when the loop stopped. *)
Lemma parse_error_position (tpl tpl' : Template) (err : string) :
  fresh tpl -> parse tpl = Some (tpl', Some err) ->
  err = parsing_error (tpl_name tpl)
          (Position.line_at (tpl_raw tpl) (last_read tpl'))
          (Position.col_at (tpl_raw tpl) (last_read tpl'))
          (tpl_err tpl')
  /\ tpl_raw tpl' = tpl_raw tpl /\ tpl_rawLen tpl' = tpl_rawLen tpl.
Proof.
  intros Hf Hparse. destruct (parse_fresh tpl Hf) as (tpl2 & _ & Hs & Hp).
  rewrite Hp in Hparse. unfold parse_answer in Hparse.
  destruct (0 <? String.length (tpl_err tpl2)); [|discriminate].
  injection Hparse as <- <-.
  destruct Hs as [Hraw Hlen Hname Ht _].
  rewrite (tracked_line _ Ht), (tracked_col _ Ht). cbn in Hraw, Hlen, Hname.
  now rewrite Hraw, Hname.
Qed.

(** A region the text ends in: the error is reported at the last byte
    of the text. *)
Lemma FromString_unterminated (close : ascii) (msg : string) (st : stateFunc)
    (add : Template -> Template * option string)
    (name lit body : string) (o : ascii) (locator : option templateLocator) :
  (forall t, call st t = region close msg st add t) ->
  msg <> "" ->
  Bytes.contains "{" lit = false -> opener o = Some st ->
  Bytes.contains close body = false ->
  let src := lit +:+ String "{" (String o body) in
  let q := String.length src - 1 in
  FromString name src locator =
    Some (inr (parsing_error name (Position.line_at src q) (Position.col_at src q) msg)).
Proof.
  intros Hcall Hmsg Hlit Hop Hbody src q.
  destruct (newTemplate_some name src locator) as [tpl Hnew];
    [subst src; now destruct lit|].
  destruct (newTemplate_fresh _ _ _ _ Hnew) as (Hf & Hraw & Hname).
  pose proof (fresh_rawLen _ Hf) as Hlen.
  rewrite Hraw in Hlen. unfold src in Hlen. rewrite length_app_string in Hlen.
  cbn [String.length] in Hlen.
  destruct (opened_scanned lit tpl Hf) as (Hs & Hpos & Hstart & Hl0); [lia|].
  pose proof (scanned_tracked _ _ Hs) as Ht.
  assert (Hrl : tpl_rawLen (opened lit tpl) = tpl_rawLen tpl)
    by exact (scanned_rawLen _ _ Hs).
  assert (Hrun : states (String.length lit + S (String.length body + 1))
                   (Some StContent) (goto 0 tpl)
                 = Some (set_err msg
                           (set_length (String.length body)
                              (goto (tpl_rawLen tpl) (opened lit tpl))))).
  { rewrite (run_to_brace tpl lit body o _ Hf Hraw Hlit). cbn zeta. rewrite Hop.
    fold (opened lit tpl).
    rewrite (region_literal close msg st add Hcall);
      [| assumption | rewrite Hpos, Hrl; lia |].
    - cbn [states]. rewrite Hcall, region_end
        by (cbn [tpl_rawLen tpl_pos set_length goto set_col set_line set_pos];
            rewrite Hpos, Hrl; lia).
      rewrite Hl0, Hpos. cbn [Nat.add].
      now replace (String.length lit + 2 + String.length body) with (tpl_rawLen tpl) by lia.
    - intros i Hi. change (rawAt ?t ?j) with (byte_of (tpl_raw t) j).
      rewrite (scanned_raw _ _ Hs), Hpos. cbn [tpl_raw goto set_col set_line set_pos].
      rewrite Hraw. unfold src.
      replace (String.length lit + 2 + i) with (String.length lit + S (S i)) by lia.
      rewrite byte_app_r. change (byte_of (String "{" (String o body)) (S (S i)))
        with (byte_of body i).
      now apply byte_free. }
  rewrite (FromString_by_run _ _ _ _ _ _ Hnew Hrun), (parse_answer_error _ _ Hmsg).
  cbn [tpl_name tpl_line tpl_col tpl_raw tpl_rawLen set_length goto set_col set_line set_pos].
  rewrite Hrl. unfold opened. cbn zeta. cbn [tpl_name tpl_raw set_start].
  destruct (addContentNode_frame
              (goto (S (S (String.length lit))) (set_length (String.length lit) tpl)))
    as (-> & _ & _).
  rewrite addContentNode_name.
  cbn [tpl_name tpl_raw set_length goto set_col set_line set_pos].
  rewrite Hname, Hraw, Nat.min_r by lia.
  subst q. now rewrite (fresh_rawLen _ Hf), Hraw.
Qed.

(** ** Where a node is recorded *)

Local Transparent fastForward.

Lemma updatePosition_nodes (tpl : Template) :
  tpl_nodes (fst (updatePosition tpl)) = tpl_nodes tpl.
Proof.
  unfold updatePosition. destruct (hasReachedEnd 0 tpl); [reflexivity|].
  now destruct (Ascii.eqb _ _).
Qed.

Lemma fastForward_nodes (rel : nat) (tpl : Template) :
  tpl_nodes (fst (fastForward rel tpl)) = tpl_nodes tpl.
Proof.
  revert tpl. induction rel as [|rel IH]; intros tpl; [reflexivity|].
  cbn [fastForward].
  pose proof (updatePosition_nodes (set_pos (S (tpl_pos tpl)) tpl)) as H.
  destruct (updatePosition _) as [tpl1 []]; cbn [fst] in *; [rewrite IH|]; exact H.
Qed.

Local Opaque fastForward.

Lemma appends_addContentNode (tpl : Template) : appends None tpl (addContentNode tpl).
Proof.
  unfold appends. rewrite addContentNode_nodes.
  destruct (tpl_length tpl =? 0); [now left | right].
  eexists. split; [reflexivity|]. split; [reflexivity | intros [? [=]]].
Qed.

Lemma appends_addFilterNode (t t' : Template) (e : option string) :
  addFilterNode t = (t', e) -> appends (Some "}"%char) t t'.
Proof.
  unfold addFilterNode. destruct (tpl_length t =? 0); [intros [= <- <-]; now left|].
  destruct (newExpr _); intros [= <- <-]; [right | now left].
  eexists. split; [reflexivity|]. split; [reflexivity | now intros _].
Qed.

Lemma appends_addTagNode (t t' : Template) (e : option string) :
  addTagNode t = (t', e) -> appends (Some "%"%char) t t'.
Proof.
  unfold addTagNode. destruct (tpl_length t =? 0); [intros [= <- <-]; now left|].
  destruct (length _ <? 1); [intros [= <- <-]; now left|].
  destruct (Tags !! _); intros [= <- <-]; [right | now left].
  eexists. split; [reflexivity|]. split; [reflexivity | now intros _].
Qed.

Lemma located_appends (close : ascii) (t t' : Template) :
  tracked t -> S (tpl_pos t) < tpl_rawLen t ->
  rawAt t (tpl_pos t) = close -> rawAt t (S (tpl_pos t)) = "}"%char ->
  appends (Some close) t t' ->
  Forall (located (tpl_raw t)) (tpl_nodes t) ->
  Forall (located (tpl_raw t)) (tpl_nodes t').
Proof.
  intros Ht Hlt Hc Hnc [-> | (n & -> & Hn & Hpos)] Hall; [assumption|].
  apply Forall_app. split; [assumption|]. apply Forall_singleton.
  unfold located. rewrite Hn. destruct (Hpos (ex_intro _ close eq_refl)) as [-> ->].
  exists (tpl_pos t). rewrite <- (tracked_rawLen _ Ht).
  rewrite (tracked_line _ Ht), (tracked_col _ Ht). unfold last_read.
  rewrite Nat.min_l by lia. auto.
Qed.

Lemma located_content (t t' : Template) (src : string) :
  appends None t t' ->
  Forall (located src) (tpl_nodes t) -> Forall (located src) (tpl_nodes t').
Proof.
  intros [-> | (n & -> & Hn & _)] Hall; [assumption|].
  apply Forall_app. split; [assumption|]. apply Forall_singleton.
  unfold located. now rewrite Hn.
Qed.

Lemma processContent_located (src : string) (tpl tpl' : Template)
    (next : option stateFunc) :
  processContent tpl = (tpl', next) ->
  Forall (located src) (tpl_nodes tpl) -> Forall (located src) (tpl_nodes tpl').
Proof.
  intros H Hall. unfold processContent in H.
  assert (Hflush : forall t, tpl_nodes t = tpl_nodes tpl ->
                             Forall (located src) (tpl_nodes (addContentNode t))).
  { intros t Ht. apply (located_content t); [apply appends_addContentNode|].
    now rewrite Ht. }
  destruct (getChar 0 tpl) as [c [|]]; cbn [negb] in H.
  2:{ injection H as <- <-. now apply Hflush. }
  destruct (Ascii.eqb c "{").
  2:{ injection H as <- <-. now rewrite fastForward_nodes. }
  destruct (getChar 1 tpl) as [nc [|]]; cbn [negb] in H.
  2:{ now injection H as <- <-. }
  repeat destruct (Ascii.eqb nc _); injection H as <- <-;
    cbn [tpl_nodes set_start set_err];
    try (apply Hflush); now rewrite fastForward_nodes.
Qed.

Lemma processComment_located (src : string) (tpl tpl' : Template)
    (next : option stateFunc) :
  processComment tpl = (tpl', next) ->
  Forall (located src) (tpl_nodes tpl) -> Forall (located src) (tpl_nodes tpl').
Proof.
  intros H Hall. unfold processComment in H.
  destruct (getChar 0 tpl) as [c [|]]; cbn [negb] in H.
  2:{ now injection H as <- <-. }
  destruct (Ascii.eqb c "#").
  2:{ injection H as <- <-. now rewrite fastForward_nodes. }
  destruct (getChar 1 tpl) as [nc [|]]; cbn [negb] in H.
  2:{ now injection H as <- <-. }
  destruct (Ascii.eqb nc "}"); injection H as <- <-;
    cbn [tpl_nodes set_start]; now rewrite fastForward_nodes.
Qed.

Lemma region_located (close : ascii) (msg : string) (st : stateFunc)
    (add : Template -> Template * option string) (tpl tpl' : Template)
    (next : option stateFunc) :
  (forall t t' e, add t = (t', e) -> appends (Some close) t t') ->
  tracked tpl ->
  region close msg st add tpl = (tpl', next) ->
  Forall (located (tpl_raw tpl)) (tpl_nodes tpl) ->
  Forall (located (tpl_raw tpl)) (tpl_nodes tpl').
Proof.
  intros Hadd Ht H Hall. unfold region in H.
  destruct (getChar 0 tpl) as [c [|]] eqn:G0; cbn [negb] in H.
  2:{ now injection H as <- <-. }
  apply getChar_true in G0 as [G0 Hc]. rewrite Nat.add_0_r in G0, Hc.
  destruct (Ascii.eqb_spec c close) as [->|_].
  2:{ injection H as <- <-. now rewrite fastForward_nodes. }
  destruct (getChar 1 tpl) as [nc [|]] eqn:G1; cbn [negb] in H.
  2:{ now injection H as <- <-. }
  apply getChar_true in G1 as [G1 Hnc]. rewrite Nat.add_1_r in G1, Hnc.
  destruct (Ascii.eqb_spec nc "}") as [->|_].
  2:{ injection H as <- <-. now rewrite fastForward_nodes. }
  destruct (add tpl) as [t [err|]] eqn:Ha;
    pose proof (located_appends close tpl t Ht G1 (eq_sym Hc) (eq_sym Hnc)
                  (Hadd _ _ _ Ha) Hall) as Hall';
    injection H as <- <-; cbn [tpl_nodes set_start set_err];
    now rewrite ?fastForward_nodes.
Qed.

Lemma call_located (state : stateFunc) (tpl tpl' : Template) (next : option stateFunc) :
  tracked tpl -> call state tpl = (tpl', next) ->
  Forall (located (tpl_raw tpl)) (tpl_nodes tpl) ->
  Forall (located (tpl_raw tpl)) (tpl_nodes tpl').
Proof.
  intros Ht. destruct state; cbn [call].
  - apply processContent_located.
  - apply processComment_located.
  - rewrite processFilter_region. apply region_located; [|assumption].
    apply appends_addFilterNode.
  - rewrite processTag_region. apply region_located; [|assumption].
    apply appends_addTagNode.
Qed.

Lemma states_located (fuel : nat) (state : option stateFunc) (tpl tpl' : Template) :
  tracked tpl -> states fuel state tpl = Some tpl' ->
  Forall (located (tpl_raw tpl)) (tpl_nodes tpl) ->
  Forall (located (tpl_raw tpl)) (tpl_nodes tpl').
Proof.
  revert state tpl. induction fuel as [|fuel IH]; intros state tpl Ht.
  - destruct state; cbn; [discriminate | now intros [= <-]].
  - destruct state as [f|]; cbn [states]; [| now intros [= <-]].
    destruct (call f tpl) as [tpl1 next] eqn:Hcall. intros Hrun Hall.
    destruct (call_scanned _ _ _ _ Ht Hcall) as [Hs _].
    rewrite <- (scanned_raw _ _ Hs).
    apply (IH next tpl1 (scanned_tracked _ _ Hs) Hrun).
    rewrite (scanned_raw _ _ Hs). now apply (call_located f tpl tpl1 next).
Qed.

(** Every filter and tag node of a parsed template carries the position
    of the first byte of its closing delimiter. *)
Lemma FromString_located (name src : string) (locator : option templateLocator)
    (tpl : Template) :
  FromString name src locator = Some (inl tpl) ->
  Forall (located src) (tpl_nodes tpl).
Proof.
  unfold FromString. destruct (newTemplate name src locator) as [tpl0|] eqn:Hnew;
    [|discriminate].
  destruct (newTemplate_fresh _ _ _ _ Hnew) as (Hf & Hraw & _).
  destruct (parse_fresh tpl0 Hf) as (tpl2 & Hrun & Hs & ->).
  unfold parse_answer. destruct (0 <? _); [discriminate|]. intros [= <-].
  cbn [tpl_nodes set_parsed]. rewrite <- Hraw.
  change (tpl_raw tpl0) with (tpl_raw (goto 0 tpl0)).
  destruct (updatePosition_first tpl0 (fresh_rawLen _ Hf) (fresh_some _ Hf)
              (fresh_pos _ Hf) (fresh_line _ Hf) (fresh_col _ Hf)) as [_ Ht].
  apply (states_located _ _ _ _ Ht Hrun).
  cbn [tpl_nodes goto set_col set_line set_pos]. rewrite (fresh_nodes _ Hf). constructor.
Qed.

(** ** Running a body *)

Lemma named_in (x : string) (l : list string) :
  existsb (String.eqb x) l = true <-> x ∈ l.
Proof.
  rewrite existsb_exists, list_elem_of_In. split.
  - intros (y & Hy & ->%String.eqb_eq). assumption.
  - intros H. exists x. split; [assumption | apply String.eqb_refl].
Qed.

Lemma is_end_node_Some (n : node) (nodenames : list string) (tn : tagNode) :
  is_end_node n nodenames = Some tn <-> n = TagNode tn /\ tn_tagname tn ∈ nodenames.
Proof.
  unfold is_end_node. destruct n as [cn|fn|tn']; try (split; [discriminate | now intros [[=] _]]).
  destruct (existsb _ _) eqn:He.
  - apply named_in in He. split; [intros [= ->]; auto | now intros [[= ->] _]].
  - split; [discriminate|]. intros [[= ->] Hin%named_in]. congruence.
Qed.

Lemma is_end_node_None (n : node) (nodenames : list string) :
  is_end_node n nodenames = None <-> ~ stop_node nodenames n.
Proof.
  split.
  - intros H (tn & -> & Hin). assert (Hs : is_end_node (TagNode tn) nodenames = Some tn)
      by now apply is_end_node_Some.
    congruence.
  - intros H. destruct (is_end_node n nodenames) as [tn|] eqn:He; [|reflexivity].
    apply is_end_node_Some in He as [-> Hin]. exfalso. apply H. now exists tn.
Qed.

Lemma executeUntil_loop_eq (fuel : nat) (tpl : Template) (ctx : Context)
    (nodenames renderedStrings : list string) :
  executeUntil_loop fuel tpl ctx nodenames renderedStrings =
    match current tpl with
    | None => Some (tpl, ctx, Err (no_end_node nodenames))
    | Some node =>
        match is_end_node node nodenames with
        | Some tn => Some (tpl, ctx, Ok (tn, renderedStrings))
        | None =>
            match fuel with
            | 0 => None
            | S fuel' =>
                match execute node tpl ctx with
                | (tpl, ctx, Err err) =>
                    Some (tpl, ctx,
                          Err (node_error "Error in block-execution" (tpl_name tpl) node err))
                | (tpl, ctx, Ok str) =>
                    executeUntil_loop fuel' (next_node tpl) ctx nodenames
                      (renderedStrings ++ [str])
                end
            end
        end
    end.
Proof. now destruct fuel. Qed.

Lemma executeUntil_loop_sound (nodenames : list string) (fuel : nat) :
  forall tpl ctx out r,
    executeUntil_loop fuel tpl ctx nodenames out = Some r ->
    runs_until nodenames tpl ctx out r.
Proof.
  induction fuel as [|fuel IH]; intros tpl ctx out r; rewrite executeUntil_loop_eq;
    destruct (current tpl) as [n|] eqn:Hcur;
    try (intros [= <-]; now apply run_end);
    destruct (is_end_node n nodenames) as [tn|] eqn:Hend;
    try (apply is_end_node_Some in Hend as [-> Hin]; intros [= <-]; now apply run_stop);
    try discriminate.
  apply is_end_node_None in Hend.
  destruct (execute n tpl ctx) as [[tpl1 ctx1] [str|err]] eqn:Hex.
  - intros H. eapply run_render; eauto.
  - intros [= <-]. eapply run_fail; eauto.
Qed.

Lemma executeUntil_loop_complete (nodenames : list string) tpl ctx out r :
  runs_until nodenames tpl ctx out r ->
  exists fuel0, forall fuel, fuel0 <= fuel ->
    executeUntil_loop fuel tpl ctx nodenames out = Some r.
Proof.
  induction 1 as [tpl ctx out tn Hcur Hin | tpl ctx out Hcur
                 | tpl ctx out n tpl1 ctx1 str r Hcur Hns Hex _ (fuel0 & IH)
                 | tpl ctx out n tpl1 ctx1 err Hcur Hns Hex].
  - exists 0. intros fuel _. rewrite executeUntil_loop_eq, Hcur.
    now rewrite (proj2 (is_end_node_Some _ _ _) (conj eq_refl Hin)).
  - exists 0. intros fuel _. now rewrite executeUntil_loop_eq, Hcur.
  - exists (S fuel0). intros [|fuel] Hle; [lia|].
    rewrite executeUntil_loop_eq, Hcur, (proj2 (is_end_node_None _ _) Hns), Hex.
    apply IH. lia.
  - exists 1. intros [|fuel] Hle; [lia|].
    now rewrite executeUntil_loop_eq, Hcur, (proj2 (is_end_node_None _ _) Hns), Hex.
Qed.

Lemma execute_forward (n : node) t c t' c' r :
  cursor_forward -> execute n t c = (t', c', r) ->
  tpl_node_pos t <= tpl_node_pos t' /\ length (tpl_nodes t') = length (tpl_nodes t).
Proof.
  intros Hfw. destruct n as [cn|fn|tn]; cbn [execute].
  - intros [= <- _ _]. auto.
  - unfold filterNode_execute. destruct (evalString _ _). intros [= <- _ _]. auto.
  - unfold tagNode_execute. destruct (tn_taghandler tn); [apply Hfw|].
    intros [= <- _ _]. auto.
Qed.

Lemma current_Some_lt (tpl : Template) (n : node) :
  current tpl = Some n -> tpl_node_pos tpl < length (tpl_nodes tpl).
Proof. apply lookup_lt_Some. Qed.

Lemma executeUntil_loop_returns (nodenames : list string) (fuel : nat) :
  cursor_forward ->
  forall tpl ctx out,
    length (tpl_nodes tpl) - tpl_node_pos tpl <= fuel ->
    is_Some (executeUntil_loop fuel tpl ctx nodenames out).
Proof.
  intros Hfw. induction fuel as [|fuel IH]; intros tpl ctx out Hfuel;
    rewrite executeUntil_loop_eq; destruct (current tpl) as [n|] eqn:Hcur; eauto;
    destruct (is_end_node n nodenames); eauto;
    apply current_Some_lt in Hcur; [lia|].
  destruct (execute n tpl ctx) as [[tpl1 ctx1] [str|err]] eqn:Hex; eauto.
  destruct (execute_forward _ _ _ _ _ _ Hfw Hex) as [Hpos Hlen].
  apply IH. cbn. lia.
Qed.

Lemma set_node_pos_here (tpl : Template) : set_node_pos (tpl_node_pos tpl) tpl = tpl.
Proof. now destruct tpl. Qed.

(** A stretch of literal nodes under the cursor is rendered in order. *)
Lemma executeUntil_loop_literals (nodenames : list string) (ctx : Context)
    (tail : list node) (cs : list contentNode) :
  forall front out fuel tpl,
    tpl_nodes tpl = front ++ map ContentNode cs ++ tail ->
    tpl_node_pos tpl = length front ->
    executeUntil_loop (length cs + fuel) tpl ctx nodenames out =
      executeUntil_loop fuel (set_node_pos (length front + length cs) tpl) ctx
        nodenames (out ++ map cn_content cs).
Proof.
  induction cs as [|c cs IH]; intros front out fuel tpl Hnodes Hpos.
  - cbn [length map Nat.add]. now rewrite Nat.add_0_r, app_nil_r, <- Hpos, set_node_pos_here.
  - cbn [length map Nat.add]. rewrite executeUntil_loop_eq.
    assert (Hcur : current tpl = Some (ContentNode c)).
    { unfold current. rewrite Hnodes, Hpos, lookup_app_r, Nat.sub_diag by lia.
      reflexivity. }
    rewrite Hcur. cbn [is_end_node execute contentNode_execute].
    rewrite (IH (front ++ [ContentNode c])).
    + rewrite length_app. cbn [length].
      replace (length front + 1 + length cs) with (length front + S (length cs)) by lia.
      now rewrite <- app_assoc.
    + cbn [tpl_nodes next_node set_node_pos]. now rewrite Hnodes, <- app_assoc.
    + cbn [tpl_node_pos next_node set_node_pos]. rewrite length_app, Hpos. cbn. lia.
Qed.

Lemma executeUntil_literal_body (nodenames : list string) (ctx : Context)
    (tpl : Template) (pre : list node) (caller : node) (cs : list contentNode)
    (rest : list node) (fuel : nat) :
  tpl_nodes tpl = pre ++ caller :: map ContentNode cs ++ rest ->
  tpl_node_pos tpl = length pre ->
  length cs <= fuel ->
  executeUntilAnyTagNode fuel tpl ctx nodenames =
    option_map Returns
      (executeUntil_loop (fuel - length cs)
         (set_node_pos (length pre + 1 + length cs) tpl) ctx nodenames
         (map cn_content cs)).
Proof.
  intros Hnodes Hpos Hfuel. unfold executeUntilAnyTagNode.
  replace (length (tpl_nodes tpl) <? tpl_node_pos tpl) with false
    by (symmetry; apply Nat.ltb_ge; rewrite Hnodes, Hpos, length_app; lia).
  f_equal.
  replace fuel with (length cs + (fuel - length cs)) at 1 by lia.
  rewrite (executeUntil_loop_literals nodenames ctx rest cs (pre ++ [caller])).
  - rewrite length_app. reflexivity.
  - cbn [tpl_nodes next_node set_node_pos]. now rewrite Hnodes, <- app_assoc.
  - cbn [tpl_node_pos next_node set_node_pos]. rewrite length_app, Hpos. cbn. lia.
Qed.

(** C1.  Called with the cursor on a node or just behind the last one,
    [executeUntilAnyTagNode] first moves the cursor past the node of the
    caller, then does what [runs_until] says: it renders the nodes the
    cursor meets in order, stops on the first tag node named in
    [nodenames] without rendering it and returns the texts with that
    node, and fails with "No end-node ... found" and no text when the
    cursor leaves the node list.  (With the cursor further out, the
    allocation that opens the function panics.)  The loop returns within
    [fuel] iterations whenever the handlers move the cursor forward only.
    On a body of literal nodes this reads: the texts of the literals, in
    order, with the stop node that follows them, or the error when no
    stop node follows. *)
Theorem executeUntilAnyTagNode_spec :
  (forall nodenames tpl ctx r,
      tpl_node_pos tpl <= length (tpl_nodes tpl) ->
      (runs_until nodenames (next_node tpl) ctx [] r <->
       exists fuel0, forall fuel, fuel0 <= fuel ->
         executeUntilAnyTagNode fuel tpl ctx nodenames = Some (Returns r)))
  /\ (forall nodenames tpl ctx fuel,
      length (tpl_nodes tpl) < tpl_node_pos tpl ->
      executeUntilAnyTagNode fuel tpl ctx nodenames
      = Some (Panics "runtime error: makeslice: cap out of range"))
  /\ (cursor_forward ->
      forall nodenames tpl ctx fuel,
        length (tpl_nodes tpl) - tpl_node_pos tpl <= fuel ->
        is_Some (executeUntilAnyTagNode fuel tpl ctx nodenames))
  /\ (forall nodenames tpl ctx pre caller cs tn post fuel,
      tpl_nodes tpl = pre ++ caller :: map ContentNode cs ++ TagNode tn :: post ->
      tpl_node_pos tpl = length pre ->
      tn_tagname tn ∈ nodenames ->
      length cs <= fuel ->
      executeUntilAnyTagNode fuel tpl ctx nodenames =
        Some (Returns (set_node_pos (length pre + 1 + length cs) tpl, ctx,
                       Ok (tn, map cn_content cs))))
  /\ (forall nodenames tpl ctx pre caller cs fuel,
      tpl_nodes tpl = pre ++ caller :: map ContentNode cs ->
      tpl_node_pos tpl = length pre ->
      length cs <= fuel ->
      executeUntilAnyTagNode fuel tpl ctx nodenames =
        Some (Returns (set_node_pos (length pre + 1 + length cs) tpl, ctx,
                       Err (no_end_node nodenames)))).
Proof.
  refine (conj _ (conj _ (conj _ (conj _ _)))).
  - intros nodenames tpl ctx r Hle. unfold executeUntilAnyTagNode.
    replace (length (tpl_nodes tpl) <? tpl_node_pos tpl) with false
      by (symmetry; apply Nat.ltb_ge; lia).
    split.
    + intros (fuel0 & H)%executeUntil_loop_complete. exists fuel0.
      intros fuel Hfuel. now rewrite (H fuel Hfuel).
    + intros (fuel0 & H). apply (executeUntil_loop_sound nodenames fuel0).
      specialize (H fuel0 (Nat.le_refl _)).
      destruct (executeUntil_loop fuel0 _ _ _ _); cbn in H; congruence.
  - intros nodenames tpl ctx fuel Hlt. unfold executeUntilAnyTagNode.
    now replace (length (tpl_nodes tpl) <? tpl_node_pos tpl) with true
      by (symmetry; apply Nat.ltb_lt; lia).
  - intros Hfw nodenames tpl ctx fuel Hfuel. unfold executeUntilAnyTagNode.
    destruct (length (tpl_nodes tpl) <? tpl_node_pos tpl); [eauto|].
    destruct (executeUntil_loop_returns nodenames fuel Hfw (next_node tpl) ctx [])
      as [r ->]; [cbn; lia | cbn; eauto].
  - intros nodenames tpl ctx pre caller cs tn post fuel Hnodes Hpos Hin Hfuel.
    rewrite (executeUntil_literal_body nodenames ctx tpl pre caller cs _ fuel Hnodes Hpos Hfuel).
    rewrite executeUntil_loop_eq.
    assert (Hcur : current (set_node_pos (length pre + 1 + length cs) tpl)
                   = Some (TagNode tn)).
    { unfold current. cbn [tpl_nodes tpl_node_pos set_node_pos].
      rewrite Hnodes, lookup_app_r by lia.
      replace (length pre + 1 + length cs - length pre) with (S (length cs)) by lia.
      change ((caller :: map ContentNode cs ++ TagNode tn :: post) !! S (length cs))
        with ((map ContentNode cs ++ TagNode tn :: post) !! length cs).
      rewrite lookup_app_r by (rewrite length_map; lia).
      now rewrite length_map, Nat.sub_diag. }
    rewrite Hcur. now rewrite (proj2 (is_end_node_Some _ _ _) (conj eq_refl Hin)).
  - intros nodenames tpl ctx pre caller cs fuel Hnodes Hpos Hfuel.
    rewrite <- (app_nil_r (map ContentNode cs)) in Hnodes.
    rewrite (executeUntil_literal_body nodenames ctx tpl pre caller cs _ fuel Hnodes Hpos Hfuel).
    rewrite executeUntil_loop_eq.
    assert (Hcur : current (set_node_pos (length pre + 1 + length cs) tpl) = None).
    { unfold current. cbn [tpl_nodes tpl_node_pos set_node_pos].
      apply lookup_ge_None. rewrite Hnodes, length_app. cbn [length].
      rewrite length_app, length_map. cbn. lia. }
    now rewrite Hcur.
Qed.

(** ** Skipping a body *)

Lemma notify_ignored_hook (n : node) (tpl : Template) :
  notify_ignored n tpl =
    match ignore_hook n with
    | Some hook => hook tpl
    | None => tpl
    end.
Proof.
  destruct n as [cn|fn|tn]; try reflexivity. cbn.
  destruct (tn_taghandler tn) as [h|]; [|reflexivity]. now destruct (handler_Ignore h).
Qed.

Lemma ignoreUntil_loop_eq (fuel : nat) (tpl : Template) (nodenames : list string) :
  ignoreUntil_loop fuel tpl nodenames =
    match current tpl with
    | None => Some (tpl, Err (no_end_node nodenames))
    | Some node =>
        match is_end_node node nodenames with
        | Some tn => Some (tpl, Ok tn)
        | None =>
            match fuel with
            | 0 => None
            | S fuel' =>
                ignoreUntil_loop fuel' (next_node (notify_ignored node tpl)) nodenames
            end
        end
    end.
Proof. now destruct fuel. Qed.

Lemma ignoreUntil_loop_sound (nodenames : list string) (fuel : nat) :
  forall tpl r,
    ignoreUntil_loop fuel tpl nodenames = Some r -> skips_until nodenames tpl r.
Proof.
  induction fuel as [|fuel IH]; intros tpl r; rewrite ignoreUntil_loop_eq;
    destruct (current tpl) as [n|] eqn:Hcur;
    try (intros [= <-]; now apply skip_end);
    destruct (is_end_node n nodenames) as [tn|] eqn:Hend;
    try (apply is_end_node_Some in Hend as [-> Hin]; intros [= <-]; now apply skip_stop);
    try discriminate.
  apply is_end_node_None in Hend. rewrite notify_ignored_hook.
  destruct (ignore_hook n) as [hook|] eqn:Hhook; intros H.
  - eapply skip_notify; eauto.
  - eapply skip_pass; eauto.
Qed.

Lemma ignoreUntil_loop_complete (nodenames : list string) tpl r :
  skips_until nodenames tpl r ->
  exists fuel0, forall fuel, fuel0 <= fuel ->
    ignoreUntil_loop fuel tpl nodenames = Some r.
Proof.
  induction 1 as [tpl tn Hcur Hin | tpl Hcur
                 | tpl n hook r Hcur Hns Hhook _ (fuel0 & IH)
                 | tpl n r Hcur Hns Hhook _ (fuel0 & IH)].
  - exists 0. intros fuel _. rewrite ignoreUntil_loop_eq, Hcur.
    now rewrite (proj2 (is_end_node_Some _ _ _) (conj eq_refl Hin)).
  - exists 0. intros fuel _. now rewrite ignoreUntil_loop_eq, Hcur.
  - exists (S fuel0). intros [|fuel] Hle; [lia|].
    rewrite ignoreUntil_loop_eq, Hcur, (proj2 (is_end_node_None _ _) Hns),
      notify_ignored_hook, Hhook.
    apply IH. lia.
  - exists (S fuel0). intros [|fuel] Hle; [lia|].
    rewrite ignoreUntil_loop_eq, Hcur, (proj2 (is_end_node_None _ _) Hns),
      notify_ignored_hook, Hhook.
    apply IH. lia.
Qed.

Lemma ignoreUntil_loop_returns (nodenames : list string) (fuel : nat) :
  hooks_forward ->
  forall tpl,
    length (tpl_nodes tpl) - tpl_node_pos tpl <= fuel ->
    is_Some (ignoreUntil_loop fuel tpl nodenames).
Proof.
  intros Hfw. induction fuel as [|fuel IH]; intros tpl Hfuel;
    rewrite ignoreUntil_loop_eq; destruct (current tpl) as [n|] eqn:Hcur; eauto;
    destruct (is_end_node n nodenames); eauto;
    apply current_Some_lt in Hcur; [lia|].
  apply IH. rewrite notify_ignored_hook.
  destruct n as [cn|fn|tn]; cbn [ignore_hook next_node tpl_nodes tpl_node_pos set_node_pos];
    try lia.
  destruct (tn_taghandler tn) as [h|]; [|cbn; lia].
  destruct (handler_Ignore h) as [ignore|] eqn:Hi; [|cbn; lia].
  destruct (Hfw h ignore (tn_tagargs tn) tpl Hi). cbn. lia.
Qed.

(** A stretch of nodes under the cursor, none of them a stop node or a
    tag with a skip notification, is passed over. *)
Lemma ignoreUntil_loop_passes (nodenames : list string) (tail : list node)
    (body : list node) :
  Forall (fun n => ~ stop_node nodenames n /\ ignore_hook n = None) body ->
  forall front fuel tpl,
    tpl_nodes tpl = front ++ body ++ tail ->
    tpl_node_pos tpl = length front ->
    ignoreUntil_loop (length body + fuel) tpl nodenames =
      ignoreUntil_loop fuel (set_node_pos (length front + length body) tpl) nodenames.
Proof.
  induction 1 as [|n body [Hns Hhook] _ IH]; intros front fuel tpl Hnodes Hpos.
  - cbn [length Nat.add]. now rewrite Nat.add_0_r, <- Hpos, set_node_pos_here.
  - cbn [length Nat.add]. rewrite ignoreUntil_loop_eq.
    assert (Hcur : current tpl = Some n).
    { unfold current. rewrite Hnodes, Hpos, lookup_app_r, Nat.sub_diag by lia.
      reflexivity. }
    rewrite Hcur, (proj2 (is_end_node_None _ _) Hns), notify_ignored_hook, Hhook.
    rewrite (IH (front ++ [n])).
    + rewrite length_app. cbn [length].
      now replace (length front + 1 + length body)
        with (length front + S (length body)) by lia.
    + cbn [tpl_nodes next_node set_node_pos]. now rewrite Hnodes, <- app_assoc.
    + cbn [tpl_node_pos next_node set_node_pos]. rewrite length_app, Hpos. cbn. lia.
Qed.

Lemma ignoreUntil_body (nodenames : list string) (tpl : Template)
    (pre : list node) (caller : node) (body rest : list node) (fuel : nat) :
  Forall (fun n => ~ stop_node nodenames n /\ ignore_hook n = None) body ->
  tpl_nodes tpl = pre ++ caller :: body ++ rest ->
  tpl_node_pos tpl = length pre ->
  length body <= fuel ->
  ignoreUntilAnyTagNode fuel tpl nodenames =
    ignoreUntil_loop (fuel - length body)
      (set_node_pos (length pre + 1 + length body) tpl) nodenames.
Proof.
  intros Hbody Hnodes Hpos Hfuel. unfold ignoreUntilAnyTagNode.
  replace fuel with (length body + (fuel - length body)) at 1 by lia.
  rewrite (ignoreUntil_loop_passes nodenames rest body Hbody (pre ++ [caller])).
  - rewrite length_app. reflexivity.
  - cbn [tpl_nodes next_node set_node_pos]. now rewrite Hnodes, <- app_assoc.
  - cbn [tpl_node_pos next_node set_node_pos]. rewrite length_app, Hpos. cbn. lia.
Qed.

(** C2.  [ignoreUntilAnyTagNode] moves the cursor past the node of the
    caller and then does what [skips_until] says; neither the function
    nor that relation refers to [execute], to [evalString] or to a
    handler's [Execute], and there is no context to evaluate in.  The
    loop returns within [fuel] iterations whenever the skip notifications
    move the cursor forward only.  On a body without stop nodes and skip
    notifications, whatever its nodes are, the result is the first stop
    node after the body, the template changed in its cursor only, or the
    error "No end-node ... found" when none follows. *)
Theorem ignoreUntilAnyTagNode_spec :
  (forall nodenames tpl r,
      skips_until nodenames (next_node tpl) r <->
      exists fuel0, forall fuel, fuel0 <= fuel ->
        ignoreUntilAnyTagNode fuel tpl nodenames = Some r)
  /\ (hooks_forward ->
      forall nodenames tpl fuel,
        length (tpl_nodes tpl) - tpl_node_pos tpl <= fuel ->
        is_Some (ignoreUntilAnyTagNode fuel tpl nodenames))
  /\ (forall nodenames tpl pre caller body tn post fuel,
      Forall (fun n => ~ stop_node nodenames n /\ ignore_hook n = None) body ->
      tpl_nodes tpl = pre ++ caller :: body ++ TagNode tn :: post ->
      tpl_node_pos tpl = length pre ->
      tn_tagname tn ∈ nodenames ->
      length body <= fuel ->
      ignoreUntilAnyTagNode fuel tpl nodenames =
        Some (set_node_pos (length pre + 1 + length body) tpl, Ok tn))
  /\ (forall nodenames tpl pre caller body fuel,
      Forall (fun n => ~ stop_node nodenames n /\ ignore_hook n = None) body ->
      tpl_nodes tpl = pre ++ caller :: body ->
      tpl_node_pos tpl = length pre ->
      length body <= fuel ->
      ignoreUntilAnyTagNode fuel tpl nodenames =
        Some (set_node_pos (length pre + 1 + length body) tpl,
              Err (no_end_node nodenames))).
Proof.
  refine (conj _ (conj _ (conj _ _))).
  - intros nodenames tpl r. split.
    + apply ignoreUntil_loop_complete.
    + intros (fuel0 & H). apply (ignoreUntil_loop_sound nodenames fuel0).
      apply (H fuel0). lia.
  - intros Hfw nodenames tpl fuel Hfuel.
    apply ignoreUntil_loop_returns; [assumption | cbn; lia].
  - intros nodenames tpl pre caller body tn post fuel Hbody Hnodes Hpos Hin Hfuel.
    rewrite (ignoreUntil_body nodenames tpl pre caller body _ fuel Hbody Hnodes Hpos Hfuel).
    rewrite ignoreUntil_loop_eq.
    assert (Hcur : current (set_node_pos (length pre + 1 + length body) tpl)
                   = Some (TagNode tn)).
    { unfold current. cbn [tpl_nodes tpl_node_pos set_node_pos].
      rewrite Hnodes, lookup_app_r by lia.
      replace (length pre + 1 + length body - length pre) with (S (length body)) by lia.
      change ((caller :: body ++ TagNode tn :: post) !! S (length body))
        with ((body ++ TagNode tn :: post) !! length body).
      rewrite lookup_app_r by lia. now rewrite Nat.sub_diag. }
    rewrite Hcur. now rewrite (proj2 (is_end_node_Some _ _ _) (conj eq_refl Hin)).
  - intros nodenames tpl pre caller body fuel Hbody Hnodes Hpos Hfuel.
    rewrite <- (app_nil_r body) in Hnodes.
    rewrite (ignoreUntil_body nodenames tpl pre caller body _ fuel Hbody Hnodes Hpos Hfuel).
    rewrite ignoreUntil_loop_eq.
    assert (Hcur : current (set_node_pos (length pre + 1 + length body) tpl) = None).
    { unfold current. cbn [tpl_nodes tpl_node_pos set_node_pos].
      apply lookup_ge_None. rewrite Hnodes, length_app. cbn [length].
      rewrite length_app. cbn. lia. }
    now rewrite Hcur.
Qed.

(** ** Executing a template *)

Lemma Execute_loop_eq (fuel : nat) (tpl : Template) (ctx : Context)
    (renderedStrings : list string) :
  Execute_loop fuel tpl ctx renderedStrings =
    match current tpl with
    | None => Some (tpl, ctx, Ok (Bytes.join "" renderedStrings))
    | Some node =>
        match fuel with
        | 0 => None
        | S fuel' =>
            match execute node tpl ctx with
            | (tpl, ctx, Err err) =>
                Some (tpl, ctx, Err (node_error "Error" (tpl_name tpl) node err))
            | (tpl, ctx, Ok str) =>
                Execute_loop fuel' (next_node tpl) ctx (renderedStrings ++ [str])
            end
        end
    end.
Proof. now destruct fuel. Qed.

(** C6.  Executing a tag node whose handler is nil gives the error
    "Unhandled placeholder ...", no text, and leaves the template and the
    context as they were; [Execute] reaching such a node under its cursor
    stops with that error, wrapped with the node's position, and returns
    no text.  A tag node with a handler is executed by the handler's
    [Execute] on the argument text, the template and the context. *)
Theorem tagNode_execute_spec (tn : tagNode) (tpl : Template) (ctx : Context) :
  match tn_taghandler tn with
  | None =>
      tagNode_execute tn tpl ctx
      = (tpl, ctx, Err (unhandled_placeholder (tn_tagname tn)))
      /\ (current tpl = Some (TagNode tn) ->
          forall fuel,
            Execute (S fuel) tpl ctx
            = Some (tpl, context_or_empty ctx,
                    Err (node_error "Error" (tpl_name tpl) (TagNode tn)
                           (unhandled_placeholder (tn_tagname tn)))))
  | Some h =>
      tagNode_execute tn tpl ctx = handler_Execute h (tn_tagargs tn) tpl ctx
  end.
Proof.
  unfold tagNode_execute. destruct (tn_taghandler tn) as [h|] eqn:Hh; [reflexivity|].
  split; [reflexivity|]. intros Hcur fuel. unfold Execute.
  rewrite Execute_loop_eq, Hcur. cbn [execute]. unfold tagNode_execute.
  now rewrite Hh.
Qed.

(** C8.  Once [parse] has succeeded on a template, calling it again on
    what it left returns no error and changes nothing, the node list
    included. *)
Theorem parse_twice (tpl tpl' : Template) :
  parse tpl = Some (tpl', None) -> parse tpl' = Some (tpl', None).
Proof.
  unfold parse at 1. destruct (tpl_parsed tpl) eqn:Hp.
  - intros [= <-]. unfold parse. now rewrite Hp.
  - destruct (processContent _) as [tpl1 state]. destruct (states _ _ _) as [tpl2|];
      [|discriminate].
    destruct (0 <? _); [discriminate|]. intros [= <-]. reflexivity.
Qed.

(** C10.  A template cannot be made from the empty text: [newTemplate]
    answers the error "Template has no content" and no template, whatever
    the name and the locator, and [FromString] hands that error on
    without parsing. *)
Theorem FromString_empty (name : string) (locator : option templateLocator) :
  newTemplate name "" locator = inr "Template has no content"
  /\ FromString name "" locator = Some (inr "Template has no content").
Proof. split; reflexivity. Qed.

Lemma Execute_loop_done (fuel : nat) :
  forall tpl ctx out tpl' ctx' str,
    Execute_loop fuel tpl ctx out = Some (tpl', ctx', Ok str) -> current tpl' = None.
Proof.
  induction fuel as [|fuel IH]; intros tpl ctx out tpl' ctx' str;
    rewrite Execute_loop_eq; destruct (current tpl) as [n|] eqn:Hcur;
    try discriminate; try (now intros [= <- _ _]).
  destruct (execute n tpl ctx) as [[tpl1 ctx1] [s|err]]; [apply IH | discriminate].
Qed.

Lemma Execute_at_end (fuel : nat) (tpl : Template) (ctx : Context) :
  current tpl = None ->
  Execute fuel tpl ctx = Some (tpl, context_or_empty ctx, Ok "").
Proof. intros H. unfold Execute. now rewrite Execute_loop_eq, H. Qed.

Lemma execute_inside (n : node) t c t' c' str :
  cursor_inside -> current t = Some n -> execute n t c = (t', c', Ok str) ->
  tpl_node_pos t' < length (tpl_nodes t').
Proof.
  intros Hin Hcur%current_Some_lt. destruct n as [cn|fn|tn]; cbn [execute].
  - now intros [= <- _ _].
  - unfold filterNode_execute. destruct (evalString _ _). now intros [= <- _ _].
  - unfold tagNode_execute. destruct (tn_taghandler tn); [now apply Hin | discriminate].
Qed.

Lemma Execute_loop_cursor (fuel : nat) :
  cursor_inside ->
  forall tpl ctx out tpl' ctx' str,
    tpl_node_pos tpl <= length (tpl_nodes tpl) ->
    Execute_loop fuel tpl ctx out = Some (tpl', ctx', Ok str) ->
    tpl_node_pos tpl' = length (tpl_nodes tpl').
Proof.
  intros Hin. induction fuel as [|fuel IH]; intros tpl ctx out tpl' ctx' str Hle;
    rewrite Execute_loop_eq; destruct (current tpl) as [n|] eqn:Hcur;
    try discriminate;
    try (intros [= <- _ _]; apply lookup_ge_None in Hcur; lia).
  destruct (execute n tpl ctx) as [[tpl1 ctx1] [s|err]] eqn:Hex; [|discriminate].
  apply IH. pose proof (execute_inside _ _ _ _ _ _ Hin Hcur Hex). cbn. lia.
Qed.

Lemma Execute_loop_returns (fuel : nat) :
  cursor_forward ->
  forall tpl ctx out,
    length (tpl_nodes tpl) - tpl_node_pos tpl <= fuel ->
    is_Some (Execute_loop fuel tpl ctx out).
Proof.
  intros Hfw. induction fuel as [|fuel IH]; intros tpl ctx out Hfuel;
    rewrite Execute_loop_eq; destruct (current tpl) as [n|] eqn:Hcur; eauto;
    apply current_Some_lt in Hcur; [lia|].
  destruct (execute n tpl ctx) as [[tpl1 ctx1] [str|err]] eqn:Hex; eauto.
  destruct (execute_forward _ _ _ _ _ _ Hfw Hex) as [Hpos Hlen].
  apply IH. cbn. lia.
Qed.

Lemma Execute_loop_literals (ctx : Context) (cs : list contentNode) :
  forall front out fuel tpl,
    tpl_nodes tpl = front ++ map ContentNode cs ->
    tpl_node_pos tpl = length front ->
    length cs <= fuel ->
    Execute_loop fuel tpl ctx out =
      Some (set_node_pos (length front + length cs) tpl, ctx,
            Ok (Bytes.join "" (out ++ map cn_content cs))).
Proof.
  induction cs as [|c cs IH]; intros front out fuel tpl Hnodes Hpos Hfuel;
    rewrite Execute_loop_eq.
  - assert (Hcur : current tpl = None).
    { unfold current. apply lookup_ge_None. rewrite Hnodes, Hpos, length_app. cbn. lia. }
    rewrite Hcur. cbn [length map]. now rewrite Nat.add_0_r, app_nil_r, <- Hpos,
                                      set_node_pos_here.
  - assert (Hcur : current tpl = Some (ContentNode c)).
    { unfold current. rewrite Hnodes, Hpos, lookup_app_r, Nat.sub_diag by lia.
      reflexivity. }
    rewrite Hcur. cbn [length] in Hfuel. destruct fuel as [|fuel]; [lia|].
    cbn [execute contentNode_execute].
    rewrite (IH (front ++ [ContentNode c])).
    + rewrite length_app. cbn [length map].
      replace (length front + 1 + length cs) with (length front + S (length cs)) by lia.
      now rewrite <- app_assoc.
    + cbn [tpl_nodes next_node set_node_pos]. now rewrite Hnodes, <- app_assoc.
    + cbn [tpl_node_pos next_node set_node_pos]. rewrite length_app, Hpos. cbn. lia.
    + lia.
Qed.

(** C9.  [Execute] starts at the cursor as it finds it and never sets it
    back.  After a successful call no node is left under the cursor, so
    every further call on the template returns the empty text and
    changes nothing.  When the call starts with the cursor not past the
    end of the list and the handlers that succeed leave the cursor on a
    node of the list, the cursor of a successful call ends at the length
    of the list; otherwise it may end past the length.  On literal nodes
    this reads: the nodes from the cursor to the end are rendered, those
    before it are not. *)
Theorem Execute_keeps_cursor :
  (forall fuel tpl ctx tpl' ctx' out,
      Execute fuel tpl ctx = Some (tpl', ctx', Ok out) ->
      length (tpl_nodes tpl') <= tpl_node_pos tpl'
      /\ forall fuel2 ctx2,
           Execute fuel2 tpl' ctx2 = Some (tpl', context_or_empty ctx2, Ok ""))
  /\ (cursor_inside ->
      forall fuel tpl ctx tpl' ctx' out,
        tpl_node_pos tpl <= length (tpl_nodes tpl) ->
        Execute fuel tpl ctx = Some (tpl', ctx', Ok out) ->
        tpl_node_pos tpl' = length (tpl_nodes tpl'))
  /\ (cursor_forward ->
      forall fuel tpl ctx,
        length (tpl_nodes tpl) - tpl_node_pos tpl <= fuel ->
        is_Some (Execute fuel tpl ctx))
  /\ (forall fuel tpl ctx pre cs,
      tpl_nodes tpl = pre ++ map ContentNode cs ->
      tpl_node_pos tpl = length pre ->
      length cs <= fuel ->
      Execute fuel tpl ctx =
        Some (set_node_pos (length (tpl_nodes tpl)) tpl, context_or_empty ctx,
              Ok (Bytes.join "" (map cn_content cs)))).
Proof.
  refine (conj _ (conj _ (conj _ _))).
  - intros fuel tpl ctx tpl' ctx' out H. apply Execute_loop_done in H.
    split; [now apply lookup_ge_None in H|].
    intros fuel2 ctx2. now apply Execute_at_end.
  - intros Hin fuel tpl ctx tpl' ctx' out Hle H.
    now apply (Execute_loop_cursor fuel Hin _ _ _ _ _ _ Hle H).
  - intros Hfw fuel tpl ctx Hfuel. now apply Execute_loop_returns.
  - intros fuel tpl ctx pre cs Hnodes Hpos Hfuel. unfold Execute.
    rewrite (Execute_loop_literals _ cs pre [] fuel tpl Hnodes Hpos Hfuel).
    rewrite Hnodes, length_app, length_map. reflexivity.
Qed.

(** ** The position carried by an error *)

Lemma execute_nodes_kept (n : node) t c t' c' r :
  nodes_kept -> execute n t c = (t', c', r) -> tpl_nodes t' = tpl_nodes t.
Proof.
  intros Hk. destruct n as [cn|fn|tn]; cbn [execute].
  - now intros [= <- _ _].
  - unfold filterNode_execute. destruct (evalString _ _). now intros [= <- _ _].
  - unfold tagNode_execute. destruct (tn_taghandler tn); [apply Hk|].
    now intros [= <- _ _].
Qed.

Lemma execute_error_closer (n : node) t c t' c' err :
  execute n t c = (t', c', Err err) -> is_Some (node_closer n).
Proof. destruct n; cbn; [discriminate | eauto | eauto]. Qed.

(** An error of [Execute] is the error of the node under the cursor,
    wrapped with the line and the column that node carries. *)
Lemma Execute_loop_error (fuel : nat) :
  forall tpl ctx out tpl' ctx' msg,
    Execute_loop fuel tpl ctx out = Some (tpl', ctx', Err msg) ->
    exists t c n err,
      current t = Some n /\ is_Some (node_closer n)
      /\ execute n t c = (tpl', ctx', Err err)
      /\ msg = node_error "Error" (tpl_name tpl') n err
      /\ (nodes_kept -> tpl_nodes t = tpl_nodes tpl).
Proof.
  induction fuel as [|fuel IH]; intros tpl ctx out tpl' ctx' msg;
    rewrite Execute_loop_eq; destruct (current tpl) as [n|] eqn:Hcur;
    try discriminate.
  destruct (execute n tpl ctx) as [[tpl1 ctx1] [s|err]] eqn:Hex.
  - intros H. destruct (IH _ _ _ _ _ _ H) as (t & c & n' & err & H1 & H2 & H3 & H4 & H5).
    exists t, c, n', err. repeat (split; [assumption|]).
    intros Hk. rewrite (H5 Hk). cbn [tpl_nodes next_node set_node_pos].
    now apply (execute_nodes_kept n tpl ctx tpl1 ctx1 (Ok s)).
  - intros [= <- <- <-]. exists tpl, ctx, n, err.
    split; [assumption|]. split; [now apply (execute_error_closer n tpl ctx tpl1 ctx1 err)|].
    auto.
Qed.

(** C3, as the code has it.  The line and column of a parse error are
    those of the last byte the position tracker counted when the error
    was found: the byte under the scanner, or the last byte of the text
    when the scanner has passed it, as it has in a region the text ends
    in.  So a region that is empty, or holds an unknown tag or an
    expression the compiler refuses, is reported at the first byte of its
    closing delimiter, and an unknown open command at the byte behind the
    two opening bytes.  The line and column of an execution error are
    those the failing node carries, and the parser records a filter or
    tag node at the first byte of its closing delimiter. *)
Theorem error_positions :
  (forall tpl tpl' err,
      fresh tpl -> parse tpl = Some (tpl', Some err) ->
      err = parsing_error (tpl_name tpl)
              (Position.line_at (tpl_raw tpl) (last_read tpl'))
              (Position.col_at (tpl_raw tpl) (last_read tpl'))
              (tpl_err tpl'))
  /\ (forall name lit body locator,
      Bytes.contains "{" lit = false -> Bytes.contains "%" body = false ->
      let src := lit +:+ "{%" +:+ body in
      let q := String.length src - 1 in
      FromString name src locator =
        Some (inr (parsing_error name (Position.line_at src q)
                     (Position.col_at src q) "File end reached within tag")))
  /\ (forall name lit body locator,
      Bytes.contains "{" lit = false -> Bytes.contains "}" body = false ->
      let src := lit +:+ "{{" +:+ body in
      let q := String.length src - 1 in
      FromString name src locator =
        Some (inr (parsing_error name (Position.line_at src q)
                     (Position.col_at src q) "File end reached within filter")))
  /\ (forall name lit rest nc locator,
      Bytes.contains "{" lit = false -> opener nc = None ->
      let src := lit +:+ String "{" (String nc rest) in
      let q := Nat.min (String.length lit + 2) (String.length src - 1) in
      FromString name src locator =
        Some (inr (parsing_error name (Position.line_at src q)
                     (Position.col_at src q) (unknown_open nc))))
  /\ (forall name lit rest locator,
      Bytes.contains "{" lit = false ->
      let q := String.length lit + 2 in
      (let src := lit +:+ "{{}}" +:+ rest in
       FromString name src locator =
         Some (inr (parsing_error name (Position.line_at src q)
                      (Position.col_at src q) "Empty filter")))
      /\ (let src := lit +:+ "{%%}" +:+ rest in
          FromString name src locator =
            Some (inr (parsing_error name (Position.line_at src q)
                         (Position.col_at src q) "Empty tag"))))
  /\ (forall name lit body rest locator err,
      Bytes.contains "{" lit = false -> Bytes.contains "}" body = false ->
      body <> "" -> newExpr (GoStrings.TrimSpace body) = inr err -> err <> "" ->
      let src := lit +:+ "{{" +:+ body +:+ "}}" +:+ rest in
      let q := String.length lit + 2 + String.length body in
      FromString name src locator =
        Some (inr (parsing_error name (Position.line_at src q)
                     (Position.col_at src q) err)))
  /\ (forall name lit body rest locator tagname args,
      Bytes.contains "{" lit = false -> Bytes.contains "%" body = false ->
      body <> "" -> splits_at_space (GoStrings.TrimSpace body) tagname args ->
      Tags !! tagname = None ->
      let src := lit +:+ "{%" +:+ body +:+ "%}" +:+ rest in
      let q := String.length lit + 2 + String.length body in
      FromString name src locator =
        Some (inr (parsing_error name (Position.line_at src q)
                     (Position.col_at src q) (tag_missing tagname))))
  /\ (forall name src locator tpl,
      FromString name src locator = Some (inl tpl) ->
      Forall (located src) (tpl_nodes tpl))
  /\ (forall fuel tpl ctx tpl' ctx' msg,
      Execute fuel tpl ctx = Some (tpl', ctx', Err msg) ->
      exists t c n err,
        current t = Some n /\ is_Some (node_closer n)
        /\ execute n t c = (tpl', ctx', Err err)
        /\ msg = node_error "Error" (tpl_name tpl') n err
        /\ (nodes_kept -> n ∈ tpl_nodes tpl)).
Proof.
  refine (conj _ (conj _ (conj _ (conj FromString_unknown_open (conj _
            (conj FromString_filter_rejected (conj FromString_missing_tag
               (conj FromString_located _)))))))).
  - intros tpl tpl' err Hf Hp. now destruct (parse_error_position tpl tpl' err Hf Hp).
  - intros name lit body locator Hlit Hbody.
    apply (FromString_unterminated "%" "File end reached within tag" StTag addTagNode
             name lit body "%" locator);
      [intros; reflexivity | discriminate | exact Hlit | reflexivity | exact Hbody].
  - intros name lit body locator Hlit Hbody.
    apply (FromString_unterminated "}" "File end reached within filter" StFilter
             addFilterNode name lit body "{" locator);
      [intros; reflexivity | discriminate | exact Hlit | reflexivity | exact Hbody].
  - intros name lit rest locator Hlit q. split.
    + now apply FromString_empty_filter.
    + now apply FromString_empty_tag.
  - intros fuel tpl ctx tpl' ctx' msg H. unfold Execute in H.
    destruct (Execute_loop_error _ _ _ _ _ _ _ H) as (t & c & n & err & H1 & H2 & H3 & H4 & H5).
    exists t, c, n, err. repeat (split; [assumption|]).
    intros Hk. rewrite <- (H5 Hk). apply list_elem_of_lookup. now exists (tpl_node_pos t).
Qed.

(** * Further properties *)

(** ** Slices *)

Lemma bytes_inj (s1 s2 : string) :
  Position.bytes s1 = Position.bytes s2 -> s1 = s2.
Proof.
  unfold Position.bytes. intros H.
  rewrite <- (string_of_list_ascii_of_string s1), <- (string_of_list_ascii_of_string s2).
  now rewrite H.
Qed.

Lemma bytes_slice (s : string) (a n : nat) :
  Position.bytes (Bytes.slice s a n) = take n (drop a (Position.bytes s)).
Proof.
  unfold Bytes.slice, Position.bytes. revert a n.
  induction s as [|c s IH]; intros [|a] [|n]; cbn; try reflexivity.
  - now rewrite (IH 0 n), drop_0.
  - apply (IH a 0).
  - apply (IH a (S n)).
Qed.

Lemma length_slice (s : string) (a n : nat) :
  a + n <= String.length s -> String.length (Bytes.slice s a n) = n.
Proof.
  intros H. rewrite length_bytes in H.
  rewrite length_bytes, bytes_slice, length_take, length_drop. lia.
Qed.

Lemma slice_0 (s : string) (a : nat) : Bytes.slice s a 0 = "".
Proof. apply bytes_inj. now rewrite bytes_slice. Qed.

Lemma slice_S (s : string) (a n : nat) :
  a + n < String.length s ->
  Bytes.slice s a (S n) = Bytes.slice s a n +:+ String (byte_of s (a + n)) "".
Proof.
  intros H. apply bytes_inj. rewrite bytes_app, !bytes_slice.
  unfold byte_of. rewrite at_bytes.
  destruct (lookup_lt_is_Some_2 (Position.bytes s) (a + n)) as [c Hc];
    [rewrite <- length_bytes; lia|].
  rewrite Hc. cbn [default]. change (Position.bytes (String c "")) with [c].
  apply take_S_r. now rewrite lookup_drop.
Qed.

Lemma contains_app (c : ascii) (s1 s2 : string) :
  Bytes.contains c (s1 +:+ s2) = Bytes.contains c s1 || Bytes.contains c s2.
Proof.
  induction s1 as [|b s1 IH]; [reflexivity|].
  rewrite append_cons. cbn [Bytes.contains]. now rewrite IH, orb_assoc.
Qed.

(** ** The fields the lexer leaves alone *)

Lemma untouched_refl (t : Template) : untouched t t.
Proof. now constructor. Qed.

Lemma untouched_trans (t1 t2 t3 : Template) :
  untouched t1 t2 -> untouched t2 t3 -> untouched t1 t3.
Proof. intros [] []. constructor; congruence. Qed.

Lemma untouched_goto (p : nat) (t t' : Template) :
  untouched t t' -> untouched t (goto p t').
Proof. intros []. now constructor. Qed.

Lemma untouched_set_length (v : nat) (t t' : Template) :
  untouched t t' -> untouched t (set_length v t').
Proof. intros []. now constructor. Qed.

Lemma untouched_set_start (v : nat) (t t' : Template) :
  untouched t t' -> untouched t (set_start v t').
Proof. intros []. now constructor. Qed.

Lemma untouched_set_err (v : string) (t t' : Template) :
  untouched t t' -> untouched t (set_err v t').
Proof. intros []. now constructor. Qed.

Lemma untouched_set_nodes (v : list node) (t t' : Template) :
  untouched t t' -> untouched t (set_nodes v t').
Proof. intros []. now constructor. Qed.

Lemma untouched_addContentNode (t t' : Template) :
  untouched t t' -> untouched t (addContentNode t').
Proof.
  intros H. unfold addContentNode. destruct (tpl_length t' =? 0); [assumption|].
  now apply untouched_set_nodes, untouched_set_length, untouched_set_start.
Qed.

Ltac untouched_step :=
  repeat first
    [ apply untouched_set_err | apply untouched_set_start | apply untouched_set_length
    | apply untouched_set_nodes | apply untouched_addContentNode | apply untouched_goto ];
  try assumption; try apply untouched_refl.

(** ** The three builders *)

Lemma addFilterNode_builder : builder addFilterNode.
Proof.
  intros t t' e _ _. unfold addFilterNode.
  destruct (tpl_length t =? 0).
  { intros [= <- <-]. refine (conj (untouched_refl _) (conj eq_refl (conj eq_refl _))).
    left. discriminate. }
  destruct (newExpr _) as [x|err] eqn:He; intros [= <- <-].
  - refine (conj _ (conj eq_refl (conj eq_refl _))); [untouched_step|].
    eexists. split; [reflexivity|]. exists x. split; [exact He | reflexivity].
  - refine (conj (untouched_refl _) (conj eq_refl (conj eq_refl _))).
    destruct err; [right; eauto | left; discriminate].
Qed.

Lemma addTagNode_builder : builder addTagNode.
Proof.
  intros t t' e _ _.
  destruct (Nat.eq_dec (tpl_length t) 0) as [H0|H0].
  { rewrite addTagNode_empty by assumption. intros [= <- <-].
    refine (conj (untouched_refl _) (conj eq_refl (conj eq_refl _))).
    left. discriminate. }
  destruct (splits_at_space_total (GoStrings.TrimSpace (captured t)))
    as (name & rest & Hcut).
  rewrite (addTagNode_some t name rest H0 Hcut).
  destruct (Tags !! name) as [tag|] eqn:Htag; intros [= <- <-].
  - refine (conj _ (conj eq_refl (conj eq_refl _))); [untouched_step|].
    eexists. split; [reflexivity|]. cbn.
    refine (conj Htag (conj _ (conj eq_refl eq_refl))). now exists rest.
  - refine (conj (untouched_refl _) (conj eq_refl (conj eq_refl _))).
    left. apply tag_missing_nonempty.
Qed.

(** ** One call of a state function *)

Lemma lexing_failed (t0 tpl : Template) (err : string) :
  untouched t0 tpl ->
  Forall (well_built (tpl_autosafe t0)) (tpl_nodes tpl) ->
  err <> "" \/ (exists s, newExpr s = inr "") ->
  lexing t0 None (set_err err tpl).
Proof.
  intros Hu Hn He. constructor.
  - now apply untouched_set_err.
  - exact I.
  - exact Hn.
  - intros [? [=]].
  - intros _ Herr. destruct He as [He|He]; [now cbn in Herr | now right].
Qed.

Lemma well_built_literal (safe : bool) (tpl : Template) :
  tpl_rawLen tpl = String.length (tpl_raw tpl) ->
  tpl_start tpl + tpl_length tpl <= tpl_rawLen tpl ->
  tpl_length tpl <> 0 ->
  Bytes.contains "{" (captured tpl) = false ->
  well_built safe (literal_node tpl).
Proof.
  intros Hlen Hle H0 Hc. cbn. split; [|assumption].
  intros Hcap. apply (f_equal String.length) in Hcap. unfold captured in Hcap.
  rewrite length_slice in Hcap by lia. cbn in Hcap. lia.
Qed.

Lemma flushed_well_built (safe : bool) (tpl : Template) :
  tpl_rawLen tpl = String.length (tpl_raw tpl) ->
  tpl_start tpl + tpl_length tpl <= tpl_rawLen tpl ->
  Bytes.contains "{" (captured tpl) = false ->
  Forall (well_built safe) (tpl_nodes tpl) ->
  Forall (well_built safe) (tpl_nodes (addContentNode tpl)).
Proof.
  intros Hlen Hle Hc Hn. rewrite addContentNode_nodes.
  destruct (Nat.eqb_spec (tpl_length tpl) 0); [assumption|].
  apply Forall_app. split; [assumption|]. apply Forall_singleton.
  now apply well_built_literal.
Qed.

Lemma opener_next (nc : ascii) (st : stateFunc) :
  opener nc = Some st -> st <> StContent.
Proof.
  unfold opener. repeat destruct (Ascii.eqb nc _); intros [= <-]; discriminate.
Qed.

Lemma processContent_lexing (t0 tpl tpl' : Template) (next : option stateFunc) :
  tracked tpl -> lexing t0 (Some StContent) tpl ->
  processContent tpl = (tpl', next) -> lexing t0 next tpl'.
Proof.
  intros Ht [Hu [Hw Hc] Hn He _] H.
  specialize (He (ex_intro _ StContent eq_refl)).
  pose proof (tracked_rawLen _ Ht) as Hlen. pose proof (tracked_pos _ Ht) as Hpos.
  destruct (le_lt_dec (tpl_rawLen tpl) (tpl_pos tpl)) as [Hend|Hin].
  - rewrite processContent_end in H by assumption. injection H as <- <-.
    constructor.
    + untouched_step.
    + exact I.
    + apply flushed_well_built; [assumption | lia | assumption | assumption].
    + intros [? [=]].
    + intros _ _. left. rewrite addContentNode_pos, addContentNode_length.
      destruct (addContentNode_frame tpl) as (_ & -> & _). now split.
  - destruct (Ascii.eqb_spec (rawAt tpl (tpl_pos tpl)) "{") as [Hb|Hb].
    + destruct (le_lt_dec (tpl_rawLen tpl) (S (tpl_pos tpl))) as [Hlast|Hmore].
      * rewrite processContent_lone_brace in H by (assumption || lia).
        injection H as <- <-. apply lexing_failed; [assumption | assumption |].
        left. discriminate.
      * rewrite processContent_open in H by assumption. cbn zeta in H.
        destruct (opener _) as [st|] eqn:Hop; injection H as <- <-.
        -- pose proof (opener_next _ _ Hop) as Hst.
           constructor.
           ++ untouched_step.
           ++ destruct st; [contradiction | | |]; cbn [window tpl_start tpl_length tpl_pos set_start];
                rewrite ?addContentNode_pos, addContentNode_length; cbn; lia.
           ++ cbn [tpl_nodes set_start]. apply flushed_well_built; try assumption.
              cbn. lia.
           ++ intros _. cbn [tpl_err set_start]. now rewrite addContentNode_err.
           ++ intros [=].
        -- apply lexing_failed; [untouched_step | assumption |].
           left. discriminate.
    + rewrite processContent_literal in H by assumption. injection H as <- <-.
      constructor.
      * untouched_step.
      * cbn [window]. split; [cbn; lia|]. unfold captured.
        cbn [tpl_raw tpl_start tpl_length set_length goto set_col set_line set_pos].
        rewrite slice_S by lia. rewrite contains_app. fold (captured tpl). rewrite Hc.
        cbn [Bytes.contains orb]. rewrite Hw.
        change (byte_of (tpl_raw tpl) (tpl_pos tpl)) with (rawAt tpl (tpl_pos tpl)).
        rewrite orb_false_r. apply Ascii.eqb_neq. congruence.
      * exact Hn.
      * intros _. exact He.
      * intros [=].
Qed.

Lemma captured_empty (tpl : Template) :
  tpl_length tpl = 0 -> Bytes.contains "{" (captured tpl) = false.
Proof. intros H. unfold captured. now rewrite H, slice_0. Qed.

Lemma processComment_lexing (t0 tpl tpl' : Template) (next : option stateFunc) :
  tracked tpl -> lexing t0 (Some StComment) tpl ->
  processComment tpl = (tpl', next) -> lexing t0 next tpl'.
Proof.
  intros Ht [Hu Hw Hn He _]. cbn [window] in Hw.
  specialize (He (ex_intro _ StComment eq_refl)).
  unfold processComment.
  destruct (getChar 0 tpl) as [c [|]] eqn:G0; cbn [negb].
  2:{ intros [= <- <-]. apply lexing_failed; [assumption | assumption |].
      left. discriminate. }
  apply getChar_true in G0 as [G0 _]. rewrite Nat.add_0_r in G0.
  rewrite (fastForward_1 tpl) by assumption. cbn [fst].
  assert (Hscan : lexing t0 (Some StComment) (goto (S (tpl_pos tpl)) tpl)).
  { constructor; [untouched_step | exact Hw | exact Hn | intros _; exact He | intros [=]]. }
  destruct (Ascii.eqb c "#"); [| now intros [= <- <-]].
  destruct (getChar 1 tpl) as [nc [|]] eqn:G1; cbn [negb].
  2:{ intros [= <- <-]. apply lexing_failed; [assumption | assumption |].
      left. discriminate. }
  apply getChar_true in G1 as [G1 _].
  destruct (Ascii.eqb nc "}"); [| now intros [= <- <-]].
  rewrite skip_two by (try assumption; lia).
  intros [= <- <-]. constructor.
  - untouched_step.
  - split; [cbn; lia|]. now apply captured_empty.
  - exact Hn.
  - intros _. exact He.
  - intros [=].
Qed.

Lemma region_lexing (close : ascii) (msg : string) (st : stateFunc)
    (add : Template -> Template * option string) (t0 tpl tpl' : Template)
    (next : option stateFunc) :
  builder add ->
  (forall t t' t'' e, scanned t t' -> add t' = (t'', e) ->
                      scanned t t'' /\ tpl_pos t'' = tpl_pos t') ->
  msg <> "" ->
  (forall t, window (Some st) t <-> tpl_start t + tpl_length t = tpl_pos t) ->
  tracked tpl -> lexing t0 (Some st) tpl ->
  region close msg st add tpl = (tpl', next) -> lexing t0 next tpl'.
Proof.
  intros Hb Hadd Hmsg Hst Ht [Hu Hw Hn He _]. apply Hst in Hw.
  specialize (He (ex_intro _ st eq_refl)). unfold region.
  destruct (getChar 0 tpl) as [c [|]] eqn:G0; cbn [negb].
  2:{ intros [= <- <-]. apply lexing_failed; [assumption | assumption | now left]. }
  apply getChar_true in G0 as [G0 _]. rewrite Nat.add_0_r in G0.
  rewrite scan_one by assumption.
  assert (Hscan : lexing t0 (Some st)
                    (set_length (S (tpl_length tpl)) (goto (S (tpl_pos tpl)) tpl))).
  { constructor; [untouched_step | apply Hst; cbn; lia | exact Hn | intros _; exact He
                 | intros [=]]. }
  destruct (Ascii.eqb c close); [| now intros [= <- <-]].
  destruct (getChar 1 tpl) as [nc [|]] eqn:G1; cbn [negb].
  2:{ intros [= <- <-]. apply lexing_failed; [assumption | assumption | now left]. }
  apply getChar_true in G1 as [G1 _].
  destruct (Ascii.eqb nc "}"); [| now intros [= <- <-]].
  destruct (add tpl) as [t'' [err|]] eqn:Ha;
    destruct (Hadd tpl tpl t'' _ (scanned_refl _ Ht) Ha) as [Hs Hp];
    destruct (Hb tpl t'' _ Ht Hw Ha) as (Hu' & Herr & Hres).
  - intros [= <- <-]. destruct Hres as [Hnodes Hne].
    apply lexing_failed; [now apply (untouched_trans _ tpl) | now rewrite Hnodes | exact Hne].
  - destruct Hres as (Hl0 & n & Hnodes & Hwb).
    pose proof (scanned_rawLen _ _ Hs) as Hl.
    rewrite skip_two by (try apply (scanned_tracked _ _ Hs); lia).
    intros [= <- <-]. constructor.
    + untouched_step. now apply (untouched_trans _ tpl).
    + split; [cbn; lia|]. now apply captured_empty.
    + cbn [tpl_nodes set_start goto set_col set_line set_pos]. rewrite Hnodes.
      apply Forall_app. split; [assumption|]. apply Forall_singleton.
      now rewrite <- (untouched_autosafe _ _ Hu).
    + intros _. cbn [tpl_err set_start goto set_col set_line set_pos]. congruence.
    + intros [=].
Qed.

Lemma call_lexing (t0 : Template) (state : stateFunc) (tpl tpl' : Template)
    (next : option stateFunc) :
  tracked tpl -> lexing t0 (Some state) tpl ->
  call state tpl = (tpl', next) -> lexing t0 next tpl'.
Proof.
  intros Ht Hl. destruct state; cbn [call].
  - now apply processContent_lexing.
  - now apply processComment_lexing.
  - rewrite processFilter_region.
    apply region_lexing; try assumption; try discriminate;
      [apply addFilterNode_builder | apply scanned_addFilterNode | reflexivity].
  - rewrite processTag_region.
    apply region_lexing; try assumption; try discriminate;
      [apply addTagNode_builder | apply scanned_addTagNode | reflexivity].
Qed.

Lemma states_lexing (t0 : Template) (fuel : nat) :
  forall state tpl tpl',
    tracked tpl -> lexing t0 state tpl -> states fuel state tpl = Some tpl' ->
    lexing t0 None tpl'.
Proof.
  induction fuel as [|fuel IH]; intros state tpl tpl' Ht Hl.
  - destruct state; cbn; [discriminate | now intros [= <-]].
  - destruct state as [f|]; cbn [states]; [| now intros [= <-]].
    destruct (call f tpl) as [tpl1 next] eqn:Hcall. intros Hrun.
    destruct (call_scanned _ _ _ _ Ht Hcall) as [Hs _].
    apply (IH next tpl1 tpl' (scanned_tracked _ _ Hs)); [|assumption].
    now apply (call_lexing t0 f tpl).
Qed.

Lemma newTemplate_fields (name tplstr : string) (locator : option templateLocator)
    (tpl : Template) :
  newTemplate name tplstr locator = inl tpl ->
  tpl_autosafe tpl = true /\ tpl_node_pos tpl = 0 /\ tpl_locator tpl = locator
  /\ tpl_internal_context tpl = Context_empty.
Proof.
  unfold newTemplate. destruct (String.length tplstr =? 0); [discriminate|].
  now intros [= <-].
Qed.

(** What a successful [FromString] went through: the template
    [newTemplate] made, and the loop of [parse] that stopped on [t2] with
    no error message. *)
Lemma FromString_lexing (name src : string) (locator : option templateLocator)
    (tpl : Template) :
  FromString name src locator = Some (inl tpl) ->
  exists t0 t2,
    newTemplate name src locator = inl t0
    /\ scanned (goto 0 t0) t2 /\ lexing t0 None t2
    /\ tpl_err t2 = "" /\ tpl = set_parsed true t2.
Proof.
  unfold FromString. destruct (newTemplate name src locator) as [t0|] eqn:Hnew;
    [|discriminate].
  destruct (newTemplate_fresh _ _ _ _ Hnew) as (Hf & Hraw & _).
  destruct (parse_fresh t0 Hf) as (t2 & Hrun & Hs & ->).
  unfold parse_answer.
  destruct (String.length (tpl_err t2)) eqn:Herr; cbn [Nat.ltb Nat.leb];
    [|discriminate].
  intros [= <-]. exists t0, t2.
  destruct (updatePosition_first t0 (fresh_rawLen _ Hf) (fresh_some _ Hf)
              (fresh_pos _ Hf) (fresh_line _ Hf) (fresh_col _ Hf)) as [_ Ht].
  refine (conj eq_refl (conj Hs (conj _ (conj _ eq_refl)))).
  - refine (states_lexing t0 _ _ _ _ Ht _ Hrun).
    constructor.
    + untouched_step.
    + split; [cbn; rewrite (fresh_start _ Hf), (fresh_length _ Hf); reflexivity|].
      apply captured_empty. cbn. apply (fresh_length _ Hf).
    + cbn [tpl_nodes goto set_col set_line set_pos]. rewrite (fresh_nodes _ Hf).
      constructor.
    + intros _. cbn. apply (fresh_err _ Hf).
    + intros [=].
  - now destruct (tpl_err t2).
Qed.

(** ** The template a parse returns *)

Lemma FromString_fields (name src : string) (locator : option templateLocator)
    (tpl : Template) :
  FromString name src locator = Some (inl tpl) ->
  tpl_name tpl = name /\ tpl_raw tpl = src /\ tpl_rawLen tpl = String.length src
  /\ src <> ""
  /\ tpl_parsed tpl = true /\ tpl_err tpl = ""
  /\ tpl_autosafe tpl = true /\ tpl_node_pos tpl = 0
  /\ tpl_locator tpl = locator /\ tpl_internal_context tpl = Context_empty.
Proof.
  intros H. destruct (FromString_lexing _ _ _ _ H) as (t0 & t2 & Hnew & Hs & Hl & Herr & ->).
  destruct (newTemplate_fresh _ _ _ _ Hnew) as (Hf & Hraw & Hname).
  destruct (newTemplate_fields _ _ _ _ Hnew) as (Hsafe & Hcur & Hloc & Hctx).
  destruct Hs as [Hr Hrl Hn _ _]. destruct Hl as [[_ Ha Hc Hlo Hi] _ _ _ _].
  cbn in Hr, Hrl, Hn.
  cbn [tpl_name tpl_raw tpl_rawLen tpl_parsed tpl_err tpl_autosafe tpl_node_pos
         tpl_locator tpl_internal_context set_parsed].
  pose proof (fresh_rawLen _ Hf) as Hlen. pose proof (fresh_some _ Hf) as Hsome.
  refine (conj _ (conj _ (conj _ (conj _ (conj eq_refl (conj Herr (conj _ (conj _
            (conj _ _))))))))); try congruence.
  intros ->. rewrite Hraw in Hlen. cbn in Hlen. lia.
Qed.

(** X1.  The template [FromString] returns carries the name, the text
    and the locator it was given; it is marked as parsed, holds no error
    message, has the [safe] filter switched on, an empty internal context
    and the execution cursor on the first node. *)
Theorem FromString_template (name src : string) (locator : option templateLocator)
    (tpl : Template) :
  FromString name src locator = Some (inl tpl) ->
  tpl_name tpl = name /\ tpl_raw tpl = src /\ tpl_rawLen tpl = String.length src
  /\ src <> ""
  /\ tpl_parsed tpl = true /\ tpl_err tpl = ""
  /\ tpl_autosafe tpl = true /\ tpl_node_pos tpl = 0
  /\ tpl_locator tpl = locator /\ tpl_internal_context tpl = Context_empty.
Proof. apply FromString_fields. Qed.

(** X2.  When the expression compiler never fails with an empty message,
    a parse that succeeds has read the whole text: the scanner is at the
    end of it and nothing is left captured. *)
Theorem FromString_reads_all (name src : string) (locator : option templateLocator)
    (tpl : Template) :
  (forall s, newExpr s <> inr "") ->
  FromString name src locator = Some (inl tpl) ->
  tpl_pos tpl = String.length src /\ tpl_length tpl = 0.
Proof.
  intros Hexpr H.
  destruct (FromString_lexing _ _ _ _ H) as (t0 & t2 & Hnew & Hs & Hl & Herr & ->).
  destruct (newTemplate_fresh _ _ _ _ Hnew) as (Hf & Hraw & _).
  cbn [tpl_pos tpl_length set_parsed].
  destruct (lexing_end _ _ _ Hl eq_refl Herr) as [[Hge H0]|[s Hs']];
    [| now destruct (Hexpr s)].
  pose proof (tracked_pos _ (scanned_tracked _ _ Hs)) as Hle.
  pose proof (scanned_rawLen _ _ Hs) as Hrl. cbn in Hrl.
  rewrite (fresh_rawLen _ Hf), Hraw in Hrl. split; [lia | assumption].
Qed.

Lemma FromString_well_built (name src : string) (locator : option templateLocator)
    (tpl : Template) :
  FromString name src locator = Some (inl tpl) ->
  Forall (well_built true) (tpl_nodes tpl).
Proof.
  intros H. destruct (FromString_lexing _ _ _ _ H) as (t0 & t2 & Hnew & _ & Hl & _ & ->).
  destruct (newTemplate_fields _ _ _ _ Hnew) as (Hsafe & _).
  rewrite <- Hsafe. exact (lexing_nodes _ _ _ Hl).
Qed.

(** X3.  A literal node of a parsed template is never empty and never
    holds an opening brace. *)
Theorem literal_nodes_plain (name src : string) (locator : option templateLocator)
    (tpl : Template) (cn : contentNode) :
  FromString name src locator = Some (inl tpl) ->
  ContentNode cn ∈ tpl_nodes tpl ->
  cn_content cn <> "" /\ Bytes.contains "{" (cn_content cn) = false.
Proof.
  intros H Hin. pose proof (FromString_well_built _ _ _ _ H) as Hall.
  rewrite Forall_forall in Hall. exact (Hall _ Hin).
Qed.

(** X4.  A filter node of a parsed template carries the expression the
    compiler made of the text the node holds, with the [safe] filter
    added to it. *)
Theorem filter_nodes_compiled (name src : string) (locator : option templateLocator)
    (tpl : Template) (fn : filterNode) :
  FromString name src locator = Some (inl tpl) ->
  FilterNode fn ∈ tpl_nodes tpl ->
  exists e, newExpr (fn_content fn) = inl e /\ fn_e fn = addFilter e "safe".
Proof.
  intros H Hin. pose proof (FromString_well_built _ _ _ _ H) as Hall.
  rewrite Forall_forall in Hall. exact (Hall _ Hin).
Qed.

(** X5.  The name of a tag node of a parsed template is the text of the
    node up to its first space; it is a key of the registry, and the node
    carries the handler the registry holds for it, which may be nil.  The
    argument text is what follows the first space, trimmed; [ident] and
    [args] are never set. *)
Theorem tag_nodes_registered (name src : string) (locator : option templateLocator)
    (tpl : Template) (tn : tagNode) :
  FromString name src locator = Some (inl tpl) ->
  TagNode tn ∈ tpl_nodes tpl ->
  Tags !! tn_tagname tn = Some (tn_taghandler tn)
  /\ (exists rest, splits_at_space (tn_content tn) (tn_tagname tn) rest
                   /\ tn_tagargs tn = GoStrings.TrimSpace rest)
  /\ tn_ident tn = "" /\ tn_args tn = [].
Proof.
  intros H Hin. pose proof (FromString_well_built _ _ _ _ H) as Hall.
  rewrite Forall_forall in Hall. exact (Hall _ Hin).
Qed.

(** ** Scanning a text piece by piece *)

Lemma content_run (tpl : Template) (pre lit rest : string) (nc : ascii) (fuel : nat) :
  tracked tpl -> tpl_raw tpl = pre +:+ (lit +:+ String "{" (String nc rest)) ->
  tpl_pos tpl = String.length pre -> Bytes.contains "{" lit = false ->
  let t2 := goto (S (S (String.length pre + String.length lit)))
              (set_length (tpl_length tpl + String.length lit) tpl) in
  states (String.length lit + S fuel) (Some StContent) tpl =
    match opener nc with
    | Some next =>
        states fuel (Some next) (set_start (tpl_pos t2) (addContentNode t2))
    | None => Some (set_err (unknown_open nc) t2)
    end.
Proof.
  intros Ht Hraw Hpos Hlit. cbn zeta.
  pose proof (tracked_rawLen _ Ht) as Hlen.
  rewrite Hraw, !length_app_string in Hlen. cbn [String.length] in Hlen.
  rewrite content_literal; [| assumption | lia |].
  2:{ intros i Hi. change (rawAt tpl ?j) with (byte_of (tpl_raw tpl) j).
      rewrite Hraw, Hpos, byte_app_r, byte_app_l by assumption. now apply byte_free. }
  cbn [states call]. rewrite processContent_open.
  - cbn [tpl_pos set_length goto set_col set_line set_pos].
    change (rawAt ?t ?i) with (byte_of (tpl_raw tpl) i).
    rewrite Hraw, Hpos.
    replace (S (String.length pre + String.length lit))
      with (String.length pre + (String.length lit + 1)) by lia.
    rewrite !byte_app_r. change (byte_of _ 1) with nc.
    replace (S (String.length pre + (String.length lit + 1)))
      with (S (S (String.length pre + String.length lit))) by lia.
    cbn zeta. destruct (opener nc); [reflexivity|]. now destruct fuel.
  - apply tracked_set_length, tracked_goto; [assumption | lia].
  - cbn. lia.
  - cbn [tpl_pos set_length goto set_col set_line set_pos].
    change (rawAt ?t ?i) with (byte_of (tpl_raw tpl) i).
    rewrite Hraw, Hpos, !byte_app_r. now rewrite byte_app_r0.
Qed.

Lemma at_content_raw (t0 t : Template) (p : nat) (ns : list node) :
  at_content t0 p ns t ->
  tracked t /\ tpl_raw t = tpl_raw t0 /\ tpl_rawLen t = String.length (tpl_raw t0).
Proof.
  intros [Hs _ _ _ _ _ _]. pose proof (scanned_tracked _ _ Hs) as Ht.
  refine (conj Ht (conj (scanned_raw _ _ Hs) _)).
  now rewrite (tracked_rawLen _ Ht), (scanned_raw _ _ Hs).
Qed.

(** Behind the two opening bytes of a piece: the literal before it is
    flushed, recorded at the scanner. *)
Lemma opened_at (t0 t : Template) (p : nat) (ns : list node) (pre lit rest : string) :
  at_content t0 p ns t ->
  tpl_raw t0 = pre +:+ (lit +:+ rest) -> String.length pre = p ->
  2 < String.length rest ->
  let t2 := goto (S (S (p + String.length lit))) (set_length (String.length lit) t) in
  at_content t0 (p + String.length lit + 2)
    (ns ++ literal_at (tpl_raw t0) (p + String.length lit + 2) lit)
    (set_start (tpl_pos t2) (addContentNode t2)).
Proof.
  intros Hac Hraw Hp Hrest. cbn zeta.
  destruct (at_content_raw _ _ _ _ Hac) as (Ht & Hr & Hrl).
  destruct Hac as [Hs Hu Hpos Hstart Hl0 Herr Hnodes].
  assert (Hlen : p + String.length lit + 2 < String.length (tpl_raw t0)).
  { rewrite Hraw, !length_app_string. lia. }
  constructor.
  - apply (scanned_trans t0 t); [assumption|].
    apply scanned_set_start, scanned_addContentNode, scanned_goto;
      [now apply scanned_set_length, scanned_refl | cbn; lia | cbn; lia].
  - untouched_step.
  - cbn [tpl_pos set_start]. rewrite addContentNode_pos. cbn. lia.
  - cbn. lia.
  - cbn [tpl_length set_start]. apply addContentNode_length.
  - cbn [tpl_err set_start]. rewrite addContentNode_err. exact Herr.
  - cbn [tpl_nodes set_start]. rewrite addContentNode_nodes.
    cbn [tpl_length tpl_nodes set_length goto set_col set_line set_pos].
    unfold literal_at. rewrite Hnodes.
    destruct (String.length lit =? 0); [now rewrite app_nil_r|].
    f_equal. unfold literal_node, captured.
    cbn [tpl_line tpl_col tpl_raw tpl_rawLen tpl_start tpl_length set_length goto
           set_col set_line set_pos].
    rewrite Hr, Hrl, Hstart, Nat.min_l by lia.
    replace (S (S (p + String.length lit))) with (p + String.length lit + 2) by lia.
    do 3 f_equal. rewrite Hraw at 1. rewrite <- Hp.
    replace (String.length pre) with (String.length pre + 0) by lia.
    rewrite slice_app_r. apply slice_prefix.
Qed.

(** A text without the two closing bytes, byte by byte. *)
Lemma closed_in_bytes (close : ascii) (s : string) :
  closed_in close s = false ->
  forall i, byte_of s i = close -> byte_of s (S i) <> "}"%char.
Proof.
  induction s as [|c s IH]; intros H i Hc; [discriminate|].
  destruct s as [|d s]; [now destruct i|].
  cbn [closed_in] in H. apply orb_false_elim in H as [Hcd Hs].
  destruct i as [|i].
  - cbn in Hc. subst c. rewrite Ascii.eqb_refl in Hcd. cbn in Hcd.
    cbn. intros ->. discriminate.
  - apply (IH Hs i). exact Hc.
Qed.

Lemma closed_in_snoc (close : ascii) (s : string) :
  close <> "}"%char ->
  closed_in close (s +:+ String close "") = closed_in close s.
Proof.
  intros Hne. apply Ascii.eqb_neq in Hne.
  induction s as [|c s IH]; [reflexivity|].
  rewrite append_cons. destruct s as [|d s].
  - cbn [closed_in]. change ("" +:+ String close "") with (String close "").
    cbn [closed_in]. rewrite Hne. now destruct (Ascii.eqb c close).
  - rewrite append_cons in *. cbn [closed_in] in *. now rewrite IH.
Qed.

Lemma byte_app_snoc (s tail : string) (c : ascii) (j : nat) :
  j <= String.length s ->
  byte_of (s +:+ String c tail) j = byte_of (s +:+ String c "") j.
Proof.
  intros Hj. destruct (Nat.eq_dec j (String.length s)) as [->|Hne].
  - now rewrite !byte_app_r0.
  - now rewrite !byte_app_l by lia.
Qed.

(** The bytes of a region before its closing delimiter, in the text. *)
Lemma body_bytes (close : ascii) (pre body rest : string) (i : nat) :
  closed_in close (body +:+ String close "") = false ->
  i < String.length body ->
  byte_of (pre +:+ (body +:+ String close (String "}" rest))) (String.length pre + i)
  = close ->
  byte_of (pre +:+ (body +:+ String close (String "}" rest)))
    (S (String.length pre + i)) <> "}"%char.
Proof.
  intros Hbody Hi.
  replace (S (String.length pre + i)) with (String.length pre + S i) by lia.
  rewrite !byte_app_r, !(byte_app_snoc body (String "}" rest)) by lia.
  now apply closed_in_bytes.
Qed.

Section Body.

Variables (close : ascii) (msg : string) (st : stateFunc)
  (add : Template -> Template * option string).
Hypothesis call_region : forall tpl, call st tpl = region close msg st add tpl.

(** A byte that no closing brace follows is a byte of the region, the
    closing byte too. *)
Lemma region_scan_on (tpl : Template) :
  tracked tpl -> S (tpl_pos tpl) < tpl_rawLen tpl ->
  rawAt tpl (S (tpl_pos tpl)) <> "}"%char ->
  region close msg st add tpl =
    (set_length (S (tpl_length tpl)) (goto (S (tpl_pos tpl)) tpl), Some st).
Proof.
  intros Ht Hlt Hnc. unfold region.
  rewrite getChar_in, Nat.add_0_r by lia. cbn [negb].
  rewrite scan_one by (assumption || lia).
  destruct (Ascii.eqb (rawAt tpl (tpl_pos tpl)) close); [|reflexivity].
  rewrite getChar_in, Nat.add_1_r by lia. cbn [negb].
  now destruct (Ascii.eqb_spec (rawAt tpl (S (tpl_pos tpl))) "}").
Qed.

(** Reading [k] bytes of a region that does not close on them. *)
Lemma region_body (k fuel : nat) (tpl : Template) :
  tracked tpl -> tpl_pos tpl + k < tpl_rawLen tpl ->
  (forall i, i < k -> rawAt tpl (tpl_pos tpl + i) = close ->
             rawAt tpl (S (tpl_pos tpl + i)) <> "}"%char) ->
  states (k + fuel) (Some st) tpl =
    states fuel (Some st)
      (set_length (tpl_length tpl + k) (goto (tpl_pos tpl + k) tpl)).
Proof.
  revert tpl. induction k as [|k IH]; intros tpl Ht Hk Hbody.
  - rewrite !Nat.add_0_r, goto_here by assumption. now destruct tpl.
  - cbn [Nat.add states]. rewrite call_region.
    assert (Hstep : region close msg st add tpl =
                    (set_length (S (tpl_length tpl)) (goto (S (tpl_pos tpl)) tpl),
                     Some st)).
    { destruct (Ascii.eqb_spec (rawAt tpl (tpl_pos tpl)) close) as [Hc|Hc].
      - apply region_scan_on; [assumption | lia |].
        specialize (Hbody 0). rewrite Nat.add_0_r in Hbody. apply Hbody; [lia | exact Hc].
      - apply region_scan; [assumption | lia | exact Hc]. }
    rewrite Hstep, IH.
    + cbn [tpl_length tpl_pos set_length goto set_col set_line set_pos].
      replace (S (tpl_length tpl) + k) with (tpl_length tpl + S k) by lia.
      replace (S (tpl_pos tpl) + k) with (tpl_pos tpl + S k) by lia.
      reflexivity.
    + apply tracked_set_length, tracked_goto; [assumption | lia].
    + cbn. lia.
    + intros i Hi. cbn [tpl_pos set_length goto set_col set_line set_pos].
      replace (S (tpl_pos tpl) + i) with (tpl_pos tpl + S i) by lia.
      apply (Hbody (S i)). lia.
Qed.

(** A region read up to the first closing delimiter: the builder is
    called on the text before it. *)
Lemma region_run_body (tpl : Template) (pre body rest : string) (fuel : nat) :
  tracked tpl ->
  tpl_raw tpl = pre +:+ (body +:+ String close (String "}" rest)) ->
  tpl_pos tpl = String.length pre ->
  closed_in close (body +:+ String close "") = false ->
  states (String.length body + S fuel) (Some st) tpl =
    match add (set_length (tpl_length tpl + String.length body)
                 (goto (String.length pre + String.length body) tpl)) with
    | (t, Some err) => Some (set_err err t)
    | (t, None) =>
        states fuel (Some StContent)
          (let t := fst (fastForward 2 t) in set_start (tpl_pos t) t)
    end.
Proof.
  intros Ht Hraw Hpos Hbody.
  pose proof (tracked_rawLen _ Ht) as Hlen.
  rewrite Hraw, !length_app_string in Hlen. cbn [String.length] in Hlen.
  rewrite region_body; [| assumption | lia |].
  2:{ intros i Hi. change (rawAt tpl ?j) with (byte_of (tpl_raw tpl) j).
      rewrite Hraw, Hpos. now apply body_bytes. }
  rewrite Hpos. cbn [states]. rewrite call_region, region_close.
  - destruct (add _) as [t [err|]]; [now destruct fuel | reflexivity].
  - cbn. lia.
  - cbn [tpl_pos set_length goto set_col set_line set_pos].
    change (rawAt ?t ?j) with (byte_of (tpl_raw tpl) j).
    now rewrite Hraw, byte_app_r, byte_app_r0.
  - cbn [tpl_pos set_length goto set_col set_line set_pos].
    change (rawAt ?t ?j) with (byte_of (tpl_raw tpl) j).
    rewrite Hraw. replace (S (String.length pre + String.length body))
      with (String.length pre + S (String.length body)) by lia.
    now rewrite byte_app_r, byte_app_r1.
Qed.

End Body.

(** A filter or tag region that closes on a node. *)
Lemma region_piece (close : ascii) (msg : string) (st : stateFunc)
    (add : Template -> Template * option string) (mk : nat -> nat -> node)
    (t0 t : Template) (p : nat) (ns : list node) (pre body rest : string) :
  (forall t, call st t = region close msg st add t) ->
  (forall tc, captured tc = body -> tpl_length tc = String.length body ->
              tpl_autosafe tc = tpl_autosafe t0 ->
              add tc = (set_nodes (tpl_nodes tc ++ [mk (tpl_line tc) (tpl_col tc)])
                          (set_length 0 (set_start (tpl_pos tc) tc)), None)) ->
  at_content t0 p ns t ->
  tpl_raw t0 = pre +:+ (body +:+ String close (String "}" rest)) ->
  String.length pre = p -> closed_in close (body +:+ String close "") = false ->
  exists t',
    (forall fuel, states (String.length body + S fuel) (Some st) t
                  = states fuel (Some StContent) t')
    /\ at_content t0 (p + String.length body + 2)
         (ns ++ [mk (Position.line_at (tpl_raw t0) (p + String.length body))
                    (Position.col_at (tpl_raw t0) (p + String.length body))]) t'.
Proof.
  intros Hcall Hadd Hac Hraw Hp Hbody.
  destruct (at_content_raw _ _ _ _ Hac) as (Ht & Hr & Hrl).
  destruct Hac as [Hs Hu Hpos Hstart Hl0 Herr Hnodes].
  assert (Hlen : p + String.length body + 2 <= String.length (tpl_raw t0)).
  { rewrite Hraw, !length_app_string. cbn [String.length]. lia. }
  remember (set_length (String.length body) (goto (p + String.length body) t))
    as tc eqn:Htc.
  assert (Hsc : scanned t0 tc).
  { rewrite Htc. apply (scanned_trans t0 t); [assumption|].
    apply scanned_set_length, scanned_goto; [now apply scanned_refl | lia | lia]. }
  assert (Huc : untouched t0 tc) by (rewrite Htc; untouched_step).
  assert (Hfacts : tpl_pos tc = p + String.length body /\ tpl_start tc = p
                   /\ tpl_length tc = String.length body /\ tpl_err tc = ""
                   /\ tpl_nodes tc = ns
                   /\ tpl_line tc = Position.line_at (tpl_raw t0) (p + String.length body)
                   /\ tpl_col tc = Position.col_at (tpl_raw t0) (p + String.length body)
                   /\ tpl_rawLen tc = String.length (tpl_raw t0)).
  { rewrite Htc.
    cbn [tpl_pos tpl_start tpl_length tpl_err tpl_nodes tpl_line tpl_col tpl_raw
           tpl_rawLen set_length goto set_col set_line set_pos].
    rewrite Hr, Hrl, Nat.min_l by lia. auto 10. }
  destruct Hfacts as (Hpc & Hstc & Hlc & Hec & Hnc & Hline & Hcol & Hrlc).
  assert (Hcap : captured tc = body).
  { unfold captured. rewrite Hstc, Hlc, (scanned_raw _ _ Hsc), Hraw, <- Hp.
    replace (String.length pre) with (String.length pre + 0) by lia.
    rewrite slice_app_r. apply slice_prefix. }
  specialize (Hadd tc Hcap Hlc (untouched_autosafe _ _ Huc)).
  remember (set_nodes (tpl_nodes tc ++ [mk (tpl_line tc) (tpl_col tc)])
              (set_length 0 (set_start (tpl_pos tc) tc))) as t4 eqn:Ht4.
  assert (Hs4 : scanned t0 t4).
  { rewrite Ht4. now apply scanned_set_nodes, scanned_set_length, scanned_set_start. }
  assert (Hp4 : tpl_pos t4 = p + String.length body) by (rewrite Ht4; exact Hpc).
  assert (Hrl4 : tpl_rawLen t4 = String.length (tpl_raw t0)) by (rewrite Ht4; exact Hrlc).
  exists (set_start (S (S (tpl_pos t4))) (goto (S (S (tpl_pos t4))) t4)). split.
  - intros fuel.
    rewrite (region_run_body close msg st add Hcall t pre body rest fuel Ht);
      [| now rewrite Hr | now rewrite Hpos | assumption].
    rewrite Hl0, Hp. cbn [Nat.add]. rewrite <- Htc, Hadd. cbn zeta.
    rewrite skip_two by (try apply (scanned_tracked _ _ Hs4); lia). reflexivity.
  - constructor.
    + apply scanned_set_start, scanned_goto; [assumption | lia | lia].
    + untouched_step. rewrite Ht4. untouched_step.
    + cbn. lia.
    + cbn. lia.
    + rewrite Ht4. reflexivity.
    + rewrite Ht4. exact Hec.
    + rewrite Ht4. cbn [tpl_nodes set_start goto set_col set_line set_pos set_nodes].
      now rewrite Hnc, Hline, Hcol.
Qed.

Lemma processComment_end (tpl : Template) :
  tpl_rawLen tpl <= tpl_pos tpl ->
  processComment tpl = (set_err "File end reached within comment" tpl, None).
Proof. intros H. unfold processComment. now rewrite getChar_out by lia. Qed.

Lemma processComment_scan (tpl : Template) :
  tracked tpl -> tpl_pos tpl < tpl_rawLen tpl ->
  rawAt tpl (tpl_pos tpl) <> "#"%char ->
  processComment tpl = (goto (S (tpl_pos tpl)) tpl, Some StComment).
Proof.
  intros Ht Hlt Hc. unfold processComment.
  rewrite getChar_in, Nat.add_0_r by lia. cbn [negb].
  rewrite fastForward_1 by assumption. cbn [fst].
  now destruct (Ascii.eqb_spec (rawAt tpl (tpl_pos tpl)) "#").
Qed.

Lemma processComment_hash_end (tpl : Template) :
  S (tpl_pos tpl) = tpl_rawLen tpl -> rawAt tpl (tpl_pos tpl) = "#"%char ->
  processComment tpl = (set_err "File end reached within comment" tpl, None).
Proof.
  intros Hlt Hc. unfold processComment.
  rewrite getChar_in, Nat.add_0_r, Hc by lia. cbn [negb Ascii.eqb Bool.eqb andb].
  now rewrite getChar_out by lia.
Qed.

Lemma processComment_close (tpl : Template) :
  tracked tpl -> S (tpl_pos tpl) < tpl_rawLen tpl ->
  rawAt tpl (tpl_pos tpl) = "#"%char -> rawAt tpl (S (tpl_pos tpl)) = "}"%char ->
  processComment tpl =
    (set_start (S (S (tpl_pos tpl))) (goto (S (S (tpl_pos tpl))) tpl), Some StContent).
Proof.
  intros Ht Hlt Hc Hnc. unfold processComment.
  rewrite getChar_in, Nat.add_0_r, Hc by lia. cbn [negb Ascii.eqb Bool.eqb andb].
  rewrite getChar_in, Nat.add_1_r, Hnc by lia. cbn [negb Ascii.eqb Bool.eqb andb].
  now rewrite skip_two by assumption.
Qed.

Lemma processComment_hash_scan (tpl : Template) :
  tracked tpl -> S (tpl_pos tpl) < tpl_rawLen tpl ->
  rawAt tpl (S (tpl_pos tpl)) <> "}"%char ->
  processComment tpl = (goto (S (tpl_pos tpl)) tpl, Some StComment).
Proof.
  intros Ht Hlt Hnc. unfold processComment.
  rewrite getChar_in, Nat.add_0_r by lia. cbn [negb].
  rewrite fastForward_1 by (assumption || lia). cbn [fst].
  destruct (Ascii.eqb (rawAt tpl (tpl_pos tpl)) "#"); [|reflexivity].
  rewrite getChar_in, Nat.add_1_r by lia. cbn [negb].
  now destruct (Ascii.eqb_spec (rawAt tpl (S (tpl_pos tpl))) "}").
Qed.

(** Scanning [k] bytes of a comment that does not close on them. *)
Lemma comment_body (k fuel : nat) (tpl : Template) :
  tracked tpl -> tpl_pos tpl + k < tpl_rawLen tpl ->
  (forall i, i < k -> rawAt tpl (tpl_pos tpl + i) = "#"%char ->
             rawAt tpl (S (tpl_pos tpl + i)) <> "}"%char) ->
  states (k + fuel) (Some StComment) tpl =
    states fuel (Some StComment) (goto (tpl_pos tpl + k) tpl).
Proof.
  revert tpl. induction k as [|k IH]; intros tpl Ht Hk Hbody.
  - now rewrite !Nat.add_0_r, goto_here by assumption.
  - cbn [Nat.add states call].
    assert (Hstep : processComment tpl = (goto (S (tpl_pos tpl)) tpl, Some StComment)).
    { destruct (Ascii.eqb_spec (rawAt tpl (tpl_pos tpl)) "#") as [Hc|Hc].
      - apply processComment_hash_scan; [assumption | lia |].
        specialize (Hbody 0). rewrite Nat.add_0_r in Hbody. apply Hbody; [lia | exact Hc].
      - apply processComment_scan; [assumption | lia | exact Hc]. }
    rewrite Hstep, IH.
    + cbn [tpl_pos goto set_col set_line set_pos].
      replace (S (tpl_pos tpl) + k) with (tpl_pos tpl + S k) by lia.
      reflexivity.
    + apply tracked_goto; [assumption | lia].
    + cbn. lia.
    + intros i Hi. cbn [tpl_pos goto set_col set_line set_pos].
      replace (S (tpl_pos tpl) + i) with (tpl_pos tpl + S i) by lia.
      apply (Hbody (S i)). lia.
Qed.

(** A comment that closes: no node, the scanner behind the comment. *)
Lemma comment_piece (t0 t : Template) (p : nat) (ns : list node)
    (pre body rest : string) :
  at_content t0 p ns t ->
  tpl_raw t0 = pre +:+ (body +:+ String "#" (String "}" rest)) ->
  String.length pre = p -> closed_in "#" body = false ->
  exists t',
    (forall fuel, states (String.length body + S fuel) (Some StComment) t
                  = states fuel (Some StContent) t')
    /\ at_content t0 (p + String.length body + 2) ns t'.
Proof.
  intros Hac Hraw Hp Hbody.
  destruct (at_content_raw _ _ _ _ Hac) as (Ht & Hr & Hrl).
  destruct Hac as [Hs Hu Hpos Hstart Hl0 Herr Hnodes].
  assert (Hlen : p + String.length body + 2 <= String.length (tpl_raw t0)).
  { rewrite Hraw, !length_app_string. cbn [String.length]. lia. }
  remember (goto (p + String.length body) t) as tc eqn:Htc.
  assert (Hsc : scanned t tc).
  { rewrite Htc. apply scanned_goto; [now apply scanned_refl | lia | lia]. }
  assert (Hpc : tpl_pos tc = p + String.length body) by now rewrite Htc.
  assert (Hrc : tpl_raw tc = tpl_raw t0) by now rewrite Htc.
  assert (Hrlc : tpl_rawLen tc = String.length (tpl_raw t0)) by now rewrite Htc.
  exists (set_start (S (S (tpl_pos tc))) (goto (S (S (tpl_pos tc))) tc)). split.
  - intros fuel. rewrite comment_body; [| assumption | lia |].
    2:{ intros i Hi. change (rawAt t ?j) with (byte_of (tpl_raw t) j).
        rewrite Hr, Hraw, Hpos, <- Hp. apply body_bytes; [|assumption].
        now rewrite closed_in_snoc. }
    rewrite Hpos, <- Htc. cbn [states call].
    rewrite processComment_close; [reflexivity | apply (scanned_tracked _ _ Hsc) | lia | |].
    + change (rawAt tc ?j) with (byte_of (tpl_raw tc) j).
      rewrite Hrc, Hpc, Hraw, <- Hp, byte_app_r. now rewrite byte_app_r0.
    + change (rawAt tc ?j) with (byte_of (tpl_raw tc) j).
      rewrite Hrc, Hpc, Hraw, <- Hp.
      replace (S (String.length pre + String.length body))
        with (String.length pre + S (String.length body)) by lia.
      rewrite byte_app_r. now rewrite byte_app_r1.
  - constructor.
    + apply (scanned_trans t0 t); [assumption|].
      apply scanned_set_start, scanned_goto; [assumption | lia | lia].
    + untouched_step. rewrite Htc. untouched_step.
    + cbn. lia.
    + cbn. lia.
    + rewrite Htc. exact Hl0.
    + rewrite Htc. exact Herr.
    + rewrite Htc. exact Hnodes.
Qed.

Lemma piece_text_app (pc : piece) (post : string) :
  piece_text pc +:+ post =
    String "{" (String (piece_open pc)
      (piece_body pc +:+ String (piece_close pc) (String "}" post))).
Proof. unfold piece_text. now rewrite !append_cons, append_assoc. Qed.

Lemma length_piece_text (pc : piece) :
  String.length (piece_text pc) = String.length (piece_body pc) + 4.
Proof.
  unfold piece_text. cbn [String.length]. rewrite length_app_string. cbn. lia.
Qed.

Lemma piece_opener (pc : piece) :
  opener (piece_open pc) =
    Some match pc with
         | CommentPiece _ => StComment
         | FilterPiece _ => StFilter
         | TagPiece _ => StTag
         end.
Proof. now destruct pc. Qed.

(** A literal and the piece behind it. *)
Lemma piece_run (t0 t : Template) (p : nat) (ns ns1 : list node)
    (pre lit post : string) (pc : piece) :
  tpl_autosafe t0 = true ->
  at_content t0 p ns t ->
  tpl_raw t0 = pre +:+ (lit +:+ (piece_text pc +:+ post)) -> String.length pre = p ->
  Bytes.contains "{" lit = false ->
  piece_node (tpl_raw t0) (p + String.length lit + 2 + String.length (piece_body pc))
    pc ns1 ->
  exists t',
    (forall fuel,
        states (String.length lit + S (String.length (piece_body pc) + S fuel))
          (Some StContent) t
        = states fuel (Some StContent) t')
    /\ at_content t0 (p + String.length lit + 4 + String.length (piece_body pc))
         (ns ++ literal_at (tpl_raw t0) (p + String.length lit + 2) lit ++ ns1) t'.
Proof.
  intros Hsafe Hac Hraw Hp Hlit Hnode. rewrite piece_text_app in Hraw.
  destruct (at_content_raw _ _ _ _ Hac) as (Ht & Hr & Hrl).
  pose proof (opened_at t0 t p ns pre lit _ Hac Hraw Hp) as Hopen.
  cbn zeta in Hopen.
  remember (set_start
              (tpl_pos (goto (S (S (p + String.length lit)))
                          (set_length (String.length lit) t)))
              (addContentNode (goto (S (S (p + String.length lit)))
                                 (set_length (String.length lit) t)))) as t3 eqn:Ht3.
  assert (Hopen' : at_content t0 (p + String.length lit + 2)
                     (ns ++ literal_at (tpl_raw t0) (p + String.length lit + 2) lit) t3).
  { apply Hopen. cbn [String.length]. rewrite length_app_string.
    cbn [String.length]. lia. }
  clear Hopen.
  assert (Hrun1 : forall fuel,
             states (String.length lit + S fuel) (Some StContent) t =
               states fuel (opener (piece_open pc)) t3).
  { intros fuel.
    rewrite (content_run t pre lit
               (piece_body pc +:+ String (piece_close pc) (String "}" post))
               (piece_open pc) fuel Ht);
      [| now rewrite Hr | rewrite (ac_pos _ _ _ _ Hac); now symmetry | assumption].
    cbn zeta. rewrite piece_opener, (ac_length _ _ _ _ Hac), Hp. cbn [Nat.add].
    now rewrite <- Ht3. }
  assert (Hraw' : tpl_raw t0 =
                  (pre +:+ (lit +:+ String "{" (String (piece_open pc) "")))
                  +:+ (piece_body pc +:+ String (piece_close pc) (String "}" post))).
  { rewrite Hraw, !append_assoc. reflexivity. }
  assert (Hp' : String.length (pre +:+ (lit +:+ String "{" (String (piece_open pc) "")))
                = p + String.length lit + 2).
  { rewrite !length_app_string. cbn [String.length]. lia. }
  assert (Hgoal : forall ns2,
             (exists t',
                 (forall fuel, states (String.length (piece_body pc) + S fuel)
                                 (opener (piece_open pc)) t3
                               = states fuel (Some StContent) t')
                 /\ at_content t0 (p + String.length lit + 2
                                   + String.length (piece_body pc) + 2) ns2 t') ->
             ns2 = ns ++ literal_at (tpl_raw t0) (p + String.length lit + 2) lit ++ ns1 ->
             exists t',
               (forall fuel,
                   states (String.length lit + S (String.length (piece_body pc) + S fuel))
                     (Some StContent) t
                   = states fuel (Some StContent) t')
               /\ at_content t0 (p + String.length lit + 4 + String.length (piece_body pc))
                    (ns ++ literal_at (tpl_raw t0) (p + String.length lit + 2) lit ++ ns1)
                    t').
  { intros ns2 (t' & Hrun2 & Hac') ->. exists t'. split.
    - intros fuel. now rewrite Hrun1, Hrun2.
    - now replace (p + String.length lit + 4 + String.length (piece_body pc))
        with (p + String.length lit + 2 + String.length (piece_body pc) + 2) by lia. }
  inversion Hnode as [body Hb Hpc Hns | body e Hb Hne He Hpc Hns
                     | body name rest tag Hb Hne Hcut Htag Hpc Hns];
    subst pc ns1; cbn [piece_body piece_open piece_close opener Ascii.eqb Bool.eqb andb] in *.
  - apply (Hgoal _ (comment_piece t0 t3 _ _ _ body post Hopen' Hraw' Hp' Hb)).
    now rewrite app_nil_r.
  - eapply Hgoal.
    + refine (region_piece "}" "File end reached within filter" StFilter addFilterNode
                (fun l c => FilterNode {| fn_line := l; fn_col := c;
                                          fn_content := GoStrings.TrimSpace body;
                                          fn_e := addFilter e "safe" |})
                t0 t3 _ _ _ body post processFilter_region _ Hopen' Hraw' Hp' Hb).
      intros tc Hcap Hlc Hsc. rewrite addFilterNode_some by (rewrite Hlc; now destruct body).
      cbn zeta. now rewrite Hcap, He, Hsc, Hsafe.
    + now rewrite <- app_assoc.
  - eapply Hgoal.
    + refine (region_piece "%" "File end reached within tag" StTag addTagNode
                (fun l c => TagNode {| tn_line := l; tn_col := c;
                                       tn_content := GoStrings.TrimSpace body;
                                       tn_tagname := name;
                                       tn_tagargs := GoStrings.TrimSpace rest;
                                       tn_taghandler := tag;
                                       tn_ident := ""; tn_args := [] |})
                t0 t3 _ _ _ body post processTag_region _ Hopen' Hraw' Hp' _);
        [| now rewrite closed_in_snoc].
      intros tc Hcap Hlc Hsc.
      rewrite (addTagNode_some tc name rest) by (rewrite ?Hlc, ?Hcap; now destruct body).
      now rewrite Htag, Hcap.
    + now rewrite <- app_assoc.
Qed.

(** The last literal: the text ends, the literal is flushed and the loop
    stops. *)
Lemma last_run (t0 t : Template) (p : nat) (ns : list node) (pre last : string) :
  at_content t0 p ns t ->
  tpl_raw t0 = pre +:+ last -> String.length pre = p ->
  Bytes.contains "{" last = false ->
  exists t',
    states (String.length last + 1) (Some StContent) t = Some t'
    /\ scanned t0 t' /\ untouched t0 t' /\ tpl_err t' = ""
    /\ tpl_nodes t' =
         ns ++ literal_at (tpl_raw t0) (String.length (tpl_raw t0) - 1) last.
Proof.
  intros Hac Hraw Hp Hlast.
  destruct (at_content_raw _ _ _ _ Hac) as (Ht & Hr & Hrl).
  destruct Hac as [Hs Hu Hpos Hstart Hl0 Herr Hnodes].
  assert (Hlen : String.length (tpl_raw t0) = p + String.length last)
    by (rewrite Hraw, length_app_string; lia).
  remember (set_length (String.length last) (goto (p + String.length last) t))
    as t1 eqn:Ht1.
  assert (Hs1 : scanned t t1).
  { rewrite Ht1. apply scanned_set_length, scanned_goto;
      [now apply scanned_refl | lia | lia]. }
  exists (addContentNode t1). split.
  - rewrite content_literal; [| assumption | lia |].
    2:{ intros i Hi. change (rawAt t ?j) with (byte_of (tpl_raw t) j).
        rewrite Hr, Hraw, Hpos, <- Hp, byte_app_r. now apply byte_free. }
    rewrite Hl0, Hpos. cbn [Nat.add]. rewrite <- Ht1. cbn [states call].
    rewrite processContent_end; [reflexivity|].
    rewrite Ht1. cbn. lia.
  - refine (conj _ (conj _ (conj _ _))).
    + apply (scanned_trans t0 t); [assumption|]. now apply scanned_addContentNode.
    + untouched_step. rewrite Ht1. untouched_step.
    + rewrite addContentNode_err, Ht1. exact Herr.
    + rewrite addContentNode_nodes, Ht1.
      cbn [tpl_length tpl_nodes set_length goto set_col set_line set_pos].
      unfold literal_at. rewrite Hnodes.
      destruct (String.length last =? 0); [now rewrite app_nil_r|].
      f_equal. unfold literal_node, captured.
      cbn [tpl_line tpl_col tpl_raw tpl_rawLen tpl_start tpl_length set_length goto
             set_col set_line set_pos].
      rewrite Hr, Hrl, Hstart, Nat.min_r by lia.
      do 3 f_equal. rewrite Hraw at 1. rewrite <- Hp.
      replace (String.length pre) with (String.length pre + 0) by lia.
      rewrite slice_app_r. apply slice_all.
Qed.

Lemma parses_run (t0 : Template) (segs : list (string * piece)) (last : string)
    (p : nat) (ns' : list node) :
  tpl_autosafe t0 = true ->
  parses_to (tpl_raw t0) p segs last ns' ->
  forall t ns pre,
    at_content t0 p ns t ->
    tpl_raw t0 = pre +:+ unparse segs last -> String.length pre = p ->
    exists fuel t',
      states fuel (Some StContent) t = Some t'
      /\ scanned t0 t' /\ untouched t0 t' /\ tpl_err t' = ""
      /\ tpl_nodes t' = ns ++ ns'.
Proof.
  intros Hsafe H.
  induction H as [p last Hlast | p lit pc segs last ns1 ns2 Hlit Hnode _ IH];
    intros t ns pre Hac Hraw Hp; cbn [unparse] in Hraw.
  - destruct (last_run t0 t p ns pre last Hac Hraw Hp Hlast) as (t' & Hrun & Hrest).
    now exists (String.length last + 1), t'.
  - destruct (piece_run t0 t p ns ns1 pre lit (unparse segs last) pc Hsafe Hac Hraw Hp
                Hlit Hnode) as (t1 & Hrun & Hac1).
    destruct (IH t1 _ (pre +:+ (lit +:+ piece_text pc)) Hac1)
      as (fuel & t' & Hrun' & Hs & Hu & He & Hn).
    + now rewrite Hraw, !append_assoc.
    + rewrite !length_app_string, length_piece_text. lia.
    + exists (String.length lit + S (String.length (piece_body pc) + S fuel)), t'.
      rewrite Hrun. refine (conj Hrun' (conj Hs (conj Hu (conj He _)))).
      now rewrite Hn, <- !app_assoc.
Qed.

Lemma parse_answer_ok (tpl : Template) :
  tpl_err tpl = "" -> parse_answer tpl = (set_parsed true tpl, None).
Proof. intros H. unfold parse_answer. now rewrite H. Qed.

(** The parse of a text put together from literals and pieces. *)
Lemma FromString_by_pieces (name : string) (locator : option templateLocator)
    (segs : list (string * piece)) (last : string) (ns : list node) :
  unparse segs last <> "" ->
  parses_to (unparse segs last) 0 segs last ns ->
  exists t,
    FromString name (unparse segs last) locator = Some (inl (set_parsed true t))
    /\ tpl_nodes t = ns /\ tpl_node_pos t = 0 /\ tpl_name t = name.
Proof.
  intros Hne Hparse.
  destruct (newTemplate_some name _ locator Hne) as [tpl Hnew].
  destruct (newTemplate_fresh _ _ _ _ Hnew) as (Hf & Hraw & Hname).
  destruct (newTemplate_fields _ _ _ _ Hnew) as (Hsafe & Hcur & _).
  destruct (updatePosition_first tpl (fresh_rawLen _ Hf) (fresh_some _ Hf)
              (fresh_pos _ Hf) (fresh_line _ Hf) (fresh_col _ Hf)) as [_ Ht].
  assert (Hac : at_content (goto 0 tpl) 0 [] (goto 0 tpl)).
  { constructor; [now apply scanned_refl | apply untouched_refl | reflexivity
                 | apply (fresh_start _ Hf) | apply (fresh_length _ Hf)
                 | apply (fresh_err _ Hf) | apply (fresh_nodes _ Hf)]. }
  destruct (parses_run (goto 0 tpl) segs last 0 ns Hsafe) with (t := goto 0 tpl)
    (ns := @nil node) (pre := "") as (fuel & t' & Hrun & Hs & Hu & He & Hn);
    [now rewrite <- Hraw in Hparse | exact Hac | exact Hraw | reflexivity |].
  exists t'. rewrite (FromString_by_run _ _ _ _ _ _ Hnew Hrun), (parse_answer_ok _ He).
  refine (conj eq_refl (conj Hn (conj _ _))).
  - now rewrite (untouched_node_pos _ _ Hu).
  - now rewrite (scanned_name _ _ Hs).
Qed.

(** X6.  The parse of a text put together from literals without an
    opening brace and from regions succeeds and gives the nodes of the
    literals and regions in their order.  A region is a comment, a filter
    region that is not empty and compiles, or a tag region that is not
    empty and whose name is registered; its body is the text up to the
    first closing delimiter, so it does not hold the two closing bytes,
    and the body of a filter region does not end with a brace.  No node
    is made for a comment or an empty literal; each literal is recorded
    behind the two opening bytes that follow it, the last one at the last
    byte of the text; each filter and tag node at the first byte of its
    closing delimiter. *)
Theorem FromString_pieces (name : string) (locator : option templateLocator)
    (segs : list (string * piece)) (last : string) (ns : list node) :
  unparse segs last <> "" ->
  parses_to (unparse segs last) 0 segs last ns ->
  exists tpl,
    FromString name (unparse segs last) locator = Some (inl tpl)
    /\ tpl_nodes tpl = ns.
Proof.
  intros Hne Hparse.
  destruct (FromString_by_pieces name locator segs last ns Hne Hparse)
    as (t & Hfrom & Hn & _).
  now exists (set_parsed true t).
Qed.

(** ** Rendering without tags *)

Lemma join_cons (x : string) (l : list string) :
  Bytes.join "" (x :: l) = x +:+ Bytes.join "" l.
Proof. destruct l; cbn [Bytes.join]; [now rewrite append_empty_r | reflexivity]. Qed.

Lemma join_app (l1 l2 : list string) :
  Bytes.join "" (l1 ++ l2) = Bytes.join "" l1 +:+ Bytes.join "" l2.
Proof.
  induction l1 as [|x l1 IH]; [reflexivity|].
  change ((x :: l1) ++ l2) with (x :: (l1 ++ l2)).
  now rewrite !join_cons, IH, append_assoc.
Qed.

Lemma current_middle (tpl : Template) (front tail : list node) (n : node) :
  tpl_nodes tpl = front ++ n :: tail -> tpl_node_pos tpl = length front ->
  current tpl = Some n.
Proof. intros Hn Hp. unfold current. rewrite Hn, Hp. apply list_lookup_middle. reflexivity. Qed.

Lemma next_node_at (tpl : Template) (k : nat) :
  tpl_node_pos tpl = k -> next_node tpl = set_node_pos (S k) tpl.
Proof. intros <-. reflexivity. Qed.

Lemma Execute_loop_plays (ns : list node) (ctx ctx' : Context) (texts : list string) :
  plays ns ctx ctx' texts ->
  forall tpl front tail outs fuel,
    tpl_nodes tpl = front ++ ns ++ tail -> tpl_node_pos tpl = length front ->
    Execute_loop (length ns + fuel) tpl ctx outs =
      Execute_loop fuel (set_node_pos (length front + length ns) tpl) ctx'
        (outs ++ texts).
Proof.
  induction 1 as [ctx | cn ns ctx ctx' texts _ IH | fn ns ctx ctx1 ctx' v texts Hev _ IH];
    intros tpl front tail outs fuel Hn Hp.
  - cbn [length Nat.add]. now rewrite Nat.add_0_r, <- Hp, set_node_pos_here, app_nil_r.
  - cbn [length Nat.add]. rewrite Execute_loop_eq.
    rewrite (current_middle tpl front (ns ++ tail) (ContentNode cn) Hn Hp).
    cbn [execute contentNode_execute]. rewrite (next_node_at _ _ Hp).
    rewrite (IH (set_node_pos (S (length front)) tpl) (front ++ [ContentNode cn]) tail).
    + cbn [tpl_nodes set_node_pos]. rewrite length_app. cbn [length].
      replace (length front + 1 + length ns) with (length front + S (length ns)) by lia.
      now rewrite <- app_assoc.
    + cbn [tpl_nodes set_node_pos]. now rewrite Hn, <- app_assoc.
    + cbn [tpl_node_pos set_node_pos]. rewrite length_app. cbn. lia.
  - cbn [length Nat.add]. rewrite Execute_loop_eq.
    rewrite (current_middle tpl front (ns ++ tail) (FilterNode fn) Hn Hp).
    cbn [execute]. unfold filterNode_execute. rewrite Hev. rewrite (next_node_at _ _ Hp).
    rewrite (IH (set_node_pos (S (length front)) tpl) (front ++ [FilterNode fn]) tail).
    + cbn [tpl_nodes set_node_pos]. rewrite length_app. cbn [length].
      replace (length front + 1 + length ns) with (length front + S (length ns)) by lia.
      now rewrite <- app_assoc.
    + cbn [tpl_nodes set_node_pos]. now rewrite Hn, <- app_assoc.
    + cbn [tpl_node_pos set_node_pos]. rewrite length_app. cbn. lia.
Qed.

Lemma plays_app (ns1 ns2 : list node) (ctx ctx1 ctx' : Context) (o1 o2 : list string) :
  plays ns1 ctx ctx1 o1 -> plays ns2 ctx1 ctx' o2 ->
  plays (ns1 ++ ns2) ctx ctx' (o1 ++ o2).
Proof.
  induction 1; intros H2; cbn [app];
    [assumption | constructor; auto | econstructor; eauto].
Qed.

Lemma plays_literal (src : string) (q : nat) (lit : string) (ctx : Context) :
  exists texts, plays (literal_at src q lit) ctx ctx texts /\ Bytes.join "" texts = lit.
Proof.
  unfold literal_at. destruct (Nat.eqb_spec (String.length lit) 0) as [H0|_].
  - exists []. split; [constructor | now destruct lit].
  - exists [lit]. split; [|reflexivity].
    apply (plays_content {| cn_line := _; cn_col := _; cn_content := lit |}). constructor.
Qed.

Lemma parses_plays (src : string) (p : nat) (segs : list (string * piece))
    (last : string) (ns : list node) :
  parses_to src p segs last ns ->
  forall ctx ctx' out,
    renders segs ctx ctx' out ->
    exists texts, plays ns ctx ctx' texts /\ Bytes.join "" texts = out +:+ last.
Proof.
  induction 1 as [p last Hlast | p lit pc segs last ns1 ns2 Hlit Hnode _ IH];
    intros ctx ctx' out Hr.
  - inversion Hr; subst. apply plays_literal.
  - inversion Hr as [| lit' body segs' c c' out' Hr' | lit' body e v segs' c c1 c' out' He Hev Hr'];
      subst.
    + destruct (IH _ _ _ Hr') as (texts & Hp & Hj).
      inversion Hnode; subst.
      destruct (plays_literal src (p + String.length lit + 2) lit ctx) as (tl & Hpl & Hjl).
      exists (tl ++ texts). split.
      * apply (plays_app _ _ ctx ctx); assumption.
      * now rewrite join_app, Hjl, Hj, append_assoc.
    + destruct (IH _ _ _ Hr') as (texts & Hp & Hj).
      inversion Hnode as [| body' e' Hb Hne He' Hpc Hns |]; subst.
      rewrite He in He'. injection He' as <-.
      destruct (plays_literal src (p + String.length lit + 2) lit ctx) as (tl & Hpl & Hjl).
      exists (tl ++ v :: texts). split.
      * apply (plays_app _ _ ctx ctx); [assumption|].
        apply (plays_filter {| fn_line := _; fn_col := _; fn_content := _;
                               fn_e := addFilter e "safe" |} _ _ c1); assumption.
      * now rewrite join_app, join_cons, Hjl, Hj, !append_assoc.
Qed.

(** X7.  [Execute] on literal and filter nodes: from the cursor to the
    end of the list the nodes are executed in order, each filter in the
    context the filters before it left; the result is the texts joined,
    the context the last filter left, and the cursor at the end of the
    list, when the loop is given an iteration per node. *)
Theorem Execute_plain_nodes (tpl : Template) (front ns : list node)
    (ctx ctx' : Context) (texts : list string) (fuel : nat) :
  tpl_nodes tpl = front ++ ns -> tpl_node_pos tpl = length front ->
  plays ns (context_or_empty ctx) ctx' texts ->
  length ns <= fuel ->
  Execute fuel tpl ctx =
    Some (set_node_pos (length (tpl_nodes tpl)) tpl, ctx', Ok (Bytes.join "" texts)).
Proof.
  intros Hn Hp Hplay Hfuel. unfold Execute. fold (context_or_empty ctx).
  replace fuel with (length ns + (fuel - length ns)) by lia.
  rewrite (Execute_loop_plays _ _ _ _ Hplay tpl front [] []) by
    (rewrite ?app_nil_r; assumption).
  rewrite Execute_loop_eq. unfold current. cbn [tpl_nodes tpl_node_pos set_node_pos].
  rewrite Hn, length_app, lookup_ge_None_2 by (rewrite length_app; lia).
  reflexivity.
Qed.

(** X8.  A filter that fails stops [Execute]: the nodes behind it are
    not executed, no text is returned, the error is that of the filter
    with the template name and the line, column and text of the node put
    before it, and the cursor stays on the failing node. *)
Theorem Execute_failing_filter (tpl : Template) (front ns tail : list node)
    (fn : filterNode) (ctx ctx1 ctx2 : Context) (texts : list string)
    (err : string) (fuel : nat) :
  tpl_nodes tpl = front ++ ns ++ FilterNode fn :: tail ->
  tpl_node_pos tpl = length front ->
  plays ns (context_or_empty ctx) ctx1 texts ->
  evalString (fn_e fn) ctx1 = (ctx2, Err err) ->
  length ns < fuel ->
  Execute fuel tpl ctx =
    Some (set_node_pos (length front + length ns) tpl, ctx2,
          Err ("[Error: " +:+ tpl_name tpl +:+ "] [Line " +:+ GoFmt.d (fn_line fn)
               +:+ " Col " +:+ GoFmt.d (fn_col fn) +:+ " (" +:+ fn_content fn
               +:+ ")] " +:+ err)).
Proof.
  intros Hn Hp Hplay Hev Hfuel. unfold Execute. fold (context_or_empty ctx).
  replace fuel with (length ns + S (fuel - S (length ns))) by lia.
  rewrite (Execute_loop_plays _ _ _ _ Hplay tpl front (FilterNode fn :: tail) []) by
    assumption.
  rewrite Execute_loop_eq.
  rewrite (current_middle _ (front ++ ns) tail (FilterNode fn)).
  - cbn [execute]. unfold filterNode_execute. now rewrite Hev.
  - cbn [tpl_nodes set_node_pos]. now rewrite Hn, <- app_assoc.
  - cbn [tpl_node_pos set_node_pos]. now rewrite length_app.
Qed.

(** X9.  The text of literals without an opening brace, comments and
    filter regions, parsed and executed, renders as the pieces read in
    order: the literals as they are, nothing for the comments, and for
    each filter region the value of its expression, when every filter
    evaluates without an error.  The regions are as [piece_node] has
    them: a body runs up to the first closing delimiter, and a filter
    region is not empty and compiles. *)
Theorem Execute_pieces (name : string) (locator : option templateLocator)
    (segs : list (string * piece)) (last : string) (ns : list node)
    (ctx ctx' : Context) (out : string) (fuel : nat) :
  unparse segs last <> "" ->
  parses_to (unparse segs last) 0 segs last ns ->
  renders segs (context_or_empty ctx) ctx' out ->
  length ns <= fuel ->
  exists tpl,
    FromString name (unparse segs last) locator = Some (inl tpl)
    /\ Execute fuel tpl ctx =
         Some (set_node_pos (length ns) tpl, ctx', Ok (out +:+ last)).
Proof.
  intros Hne Hparse Hr Hfuel.
  destruct (FromString_by_pieces name locator segs last ns Hne Hparse)
    as (t & Hfrom & Hn & Hcur & _).
  destruct (parses_plays _ _ _ _ _ Hparse _ _ _ Hr) as (texts & Hplay & Hjoin).
  exists (set_parsed true t). split; [exact Hfrom|].
  unfold Execute. fold (context_or_empty ctx).
  replace fuel with (length ns + (fuel - length ns)) by lia.
  rewrite (Execute_loop_plays _ _ _ _ Hplay (set_parsed true t) [] [] []) by
    (rewrite ?app_nil_r; assumption).
  rewrite Execute_loop_eq. unfold current. cbn [tpl_nodes tpl_node_pos set_node_pos set_parsed].
  rewrite lookup_ge_None_2 by (rewrite Hn; cbn; lia).
  cbn [length Nat.add app]. now rewrite Hjoin.
Qed.

(** ** Running and skipping a body *)

Lemma executeUntil_loop_plays (nodenames : list string) (ns : list node)
    (ctx ctx' : Context) (texts : list string) :
  plays ns ctx ctx' texts ->
  forall tpl front tail outs fuel,
    tpl_nodes tpl = front ++ ns ++ tail -> tpl_node_pos tpl = length front ->
    executeUntil_loop (length ns + fuel) tpl ctx nodenames outs =
      executeUntil_loop fuel (set_node_pos (length front + length ns) tpl) ctx'
        nodenames (outs ++ texts).
Proof.
  induction 1 as [ctx | cn ns ctx ctx' texts _ IH | fn ns ctx ctx1 ctx' v texts Hev _ IH];
    intros tpl front tail outs fuel Hn Hp.
  - cbn [length Nat.add]. now rewrite Nat.add_0_r, <- Hp, set_node_pos_here, app_nil_r.
  - cbn [length Nat.add]. rewrite executeUntil_loop_eq.
    rewrite (current_middle tpl front (ns ++ tail) (ContentNode cn) Hn Hp).
    cbn [is_end_node execute contentNode_execute]. rewrite (next_node_at _ _ Hp).
    rewrite (IH (set_node_pos (S (length front)) tpl) (front ++ [ContentNode cn]) tail).
    + cbn [tpl_nodes set_node_pos]. rewrite length_app. cbn [length].
      replace (length front + 1 + length ns) with (length front + S (length ns)) by lia.
      now rewrite <- app_assoc.
    + cbn [tpl_nodes set_node_pos]. now rewrite Hn, <- app_assoc.
    + cbn [tpl_node_pos set_node_pos]. rewrite length_app. cbn. lia.
  - cbn [length Nat.add]. rewrite executeUntil_loop_eq.
    rewrite (current_middle tpl front (ns ++ tail) (FilterNode fn) Hn Hp).
    cbn [is_end_node execute]. unfold filterNode_execute. rewrite Hev.
    rewrite (next_node_at _ _ Hp).
    rewrite (IH (set_node_pos (S (length front)) tpl) (front ++ [FilterNode fn]) tail).
    + cbn [tpl_nodes set_node_pos]. rewrite length_app. cbn [length].
      replace (length front + 1 + length ns) with (length front + S (length ns)) by lia.
      now rewrite <- app_assoc.
    + cbn [tpl_nodes set_node_pos]. now rewrite Hn, <- app_assoc.
    + cbn [tpl_node_pos set_node_pos]. rewrite length_app. cbn. lia.
Qed.

(** X10.  [executeUntilAnyTagNode] on a body of literal and filter
    nodes that a stop node follows: the nodes of the body are executed in
    order, each filter in the context the filters before it left; the
    result is their texts, one per node, with the stop node, and the
    cursor is on the stop node.  A context that is nil is passed on as it
    is. *)
Theorem executeUntil_plain_body (nodenames : list string) (tpl : Template)
    (pre : list node) (caller : node) (ns post : list node) (tn : tagNode)
    (ctx ctx' : Context) (texts : list string) (fuel : nat) :
  tpl_nodes tpl = pre ++ caller :: ns ++ TagNode tn :: post ->
  tpl_node_pos tpl = length pre ->
  plays ns ctx ctx' texts ->
  tn_tagname tn ∈ nodenames ->
  length ns <= fuel ->
  executeUntilAnyTagNode fuel tpl ctx nodenames =
    Some (Returns (set_node_pos (length pre + 1 + length ns) tpl, ctx',
                   Ok (tn, texts))).
Proof.
  intros Hn Hp Hplay Hin Hfuel. unfold executeUntilAnyTagNode.
  replace (length (tpl_nodes tpl) <? tpl_node_pos tpl) with false
    by (symmetry; apply Nat.ltb_ge; rewrite Hn, Hp, length_app; lia).
  rewrite (next_node_at _ _ Hp).
  replace fuel with (length ns + (fuel - length ns)) by lia.
  rewrite (executeUntil_loop_plays nodenames _ _ _ _ Hplay
             (set_node_pos (S (length pre)) tpl) (pre ++ [caller]) (TagNode tn :: post) []).
  - rewrite executeUntil_loop_eq.
    rewrite (current_middle _ (pre ++ [caller] ++ ns) post (TagNode tn)).
    + rewrite (proj2 (is_end_node_Some _ _ _) (conj eq_refl Hin)).
      cbn [option_map app]. rewrite length_app. reflexivity.
    + cbn [tpl_nodes set_node_pos]. rewrite Hn, <- !app_assoc. reflexivity.
    + cbn [tpl_node_pos set_node_pos]. rewrite !length_app. cbn. lia.
  - cbn [tpl_nodes set_node_pos]. now rewrite Hn, <- app_assoc.
  - cbn [tpl_node_pos set_node_pos]. rewrite length_app. cbn. lia.
Qed.

Lemma executeUntil_loop_cursor (nodenames : list string) (fuel : nat) :
  forall tpl ctx outs tpl' ctx' r,
    executeUntil_loop fuel tpl ctx nodenames outs = Some (tpl', ctx', r) ->
    match r with
    | Ok (tn, _) => current tpl' = Some (TagNode tn) /\ tn_tagname tn ∈ nodenames
    | Err err =>
        (current tpl' = None /\ err = no_end_node nodenames)
        \/ exists n e,
             err = node_error "Error in block-execution" (tpl_name tpl') n e
    end.
Proof.
  induction fuel as [|fuel IH]; intros tpl ctx outs tpl' ctx' r;
    rewrite executeUntil_loop_eq; destruct (current tpl) as [n|] eqn:Hcur.
  - destruct (is_end_node n nodenames) as [tn|] eqn:Hend; [|discriminate].
    intros [= <- <- <-]. apply is_end_node_Some in Hend as [-> Hin]. now split.
  - intros [= <- <- <-]. left. now split.
  - destruct (is_end_node n nodenames) as [tn|] eqn:Hend.
    + intros [= <- <- <-]. apply is_end_node_Some in Hend as [-> Hin]. now split.
    + destruct (execute n tpl ctx) as [[t1 c1] [s|e]].
      * apply IH.
      * intros [= <- <- <-]. right. now exists n, e.
  - intros [= <- <- <-]. left. now split.
Qed.

(** X11.  When [executeUntilAnyTagNode] returns a stop node, the cursor
    is on that node and the name of the node is one of the names asked
    for.  When it fails, either no node is under the cursor and the error
    is "No end-node ... found", or the error is that of a node of the
    body, marked as an error in block-execution. *)
Theorem executeUntil_cursor (fuel : nat) (tpl : Template) (ctx : Context)
    (nodenames : list string) (tpl' : Template) (ctx' : Context)
    (r : result (tagNode * list string)) :
  executeUntilAnyTagNode fuel tpl ctx nodenames = Some (Returns (tpl', ctx', r)) ->
  match r with
  | Ok (tn, _) => current tpl' = Some (TagNode tn) /\ tn_tagname tn ∈ nodenames
  | Err err =>
      (current tpl' = None /\ err = no_end_node nodenames)
      \/ exists n e, err = node_error "Error in block-execution" (tpl_name tpl') n e
  end.
Proof.
  unfold executeUntilAnyTagNode.
  destruct (length (tpl_nodes tpl) <? tpl_node_pos tpl); [discriminate|].
  destruct (executeUntil_loop fuel _ ctx nodenames []) as [[[t c] r']|] eqn:Hloop;
    [|discriminate].
  intros [= <- <- <-]. exact (executeUntil_loop_cursor _ _ _ _ _ _ _ _ Hloop).
Qed.

Lemma ignoreUntil_loop_cursor (nodenames : list string) (fuel : nat) :
  forall tpl tpl' r,
    ignoreUntil_loop fuel tpl nodenames = Some (tpl', r) ->
    match r with
    | Ok tn => current tpl' = Some (TagNode tn) /\ tn_tagname tn ∈ nodenames
    | Err err => current tpl' = None /\ err = no_end_node nodenames
    end.
Proof.
  induction fuel as [|fuel IH]; intros tpl tpl' r;
    rewrite ignoreUntil_loop_eq; destruct (current tpl) as [n|] eqn:Hcur.
  - destruct (is_end_node n nodenames) as [tn|] eqn:Hend; [|discriminate].
    intros [= <- <-]. apply is_end_node_Some in Hend as [-> Hin]. now split.
  - intros [= <- <-]. now split.
  - destruct (is_end_node n nodenames) as [tn|] eqn:Hend.
    + intros [= <- <-]. apply is_end_node_Some in Hend as [-> Hin]. now split.
    + apply IH.
  - intros [= <- <-]. now split.
Qed.

(** X12.  When [ignoreUntilAnyTagNode] returns a stop node, the cursor
    is on that node and its name is one of the names asked for; its only
    failure is "No end-node ... found", with no node under the cursor. *)
Theorem ignoreUntil_cursor (fuel : nat) (tpl : Template) (nodenames : list string)
    (tpl' : Template) (r : result tagNode) :
  ignoreUntilAnyTagNode fuel tpl nodenames = Some (tpl', r) ->
  match r with
  | Ok tn => current tpl' = Some (TagNode tn) /\ tn_tagname tn ∈ nodenames
  | Err err => current tpl' = None /\ err = no_end_node nodenames
  end.
Proof. apply ignoreUntil_loop_cursor. Qed.

(** ** The helpers of the lexer *)

Local Transparent fastForward.

Lemma fastForward_0 (tpl : Template) : fastForward 0 tpl = (tpl, true).
Proof. reflexivity. Qed.

Local Opaque fastForward.

(** X13.  [fastForward], called inside the text, moves the scanner
    [rel] bytes on, or to the end of the text when that is nearer, the
    line and column following; it answers whether the scanner is still
    inside the text. *)
Theorem fastForward_moves (rel : nat) (tpl : Template) :
  tracked tpl -> tpl_pos tpl < tpl_rawLen tpl ->
  fastForward rel tpl =
    (goto (Nat.min (tpl_pos tpl + rel) (tpl_rawLen tpl)) tpl,
     tpl_pos tpl + rel <? tpl_rawLen tpl).
Proof.
  revert tpl. induction rel as [|rel IH]; intros tpl Ht Hlt.
  - rewrite fastForward_0, Nat.add_0_r, Nat.min_l, goto_here by (assumption || lia).
    f_equal. symmetry. now apply Nat.ltb_lt.
  - rewrite fastForward_S, fastForward_1 by assumption.
    destruct (Nat.ltb_spec (S (tpl_pos tpl)) (tpl_rawLen tpl)) as [Hin|Hend].
    + rewrite IH by (try apply tracked_goto; cbn; (assumption || lia)).
      cbn [tpl_pos tpl_rawLen goto set_col set_line set_pos]. rewrite goto_goto.
      now replace (S (tpl_pos tpl) + rel) with (tpl_pos tpl + S rel) by lia.
    + rewrite Nat.min_r by lia. replace (tpl_rawLen tpl) with (S (tpl_pos tpl)) by lia.
      f_equal. symmetry. apply Nat.ltb_ge. lia.
Qed.

(** X14.  The loop of [parse] stops on every text: a state function
    that names a next state has moved the scanner at least one byte on,
    and never past the end of the text, so the loop makes at most one
    call per byte and one more; [FromString] always returns. *)
Theorem lexer_stops :
  (forall state tpl tpl' next,
      tracked tpl -> call state tpl = (tpl', Some next) ->
      tpl_pos tpl < tpl_pos tpl' <= tpl_rawLen tpl)
  /\ (forall fuel state tpl,
      tracked tpl -> tpl_rawLen tpl - tpl_pos tpl < fuel ->
      is_Some (states fuel state tpl))
  /\ (forall name src locator, is_Some (FromString name src locator)).
Proof.
  refine (conj _ (conj _ FromString_returns)).
  - intros state tpl tpl' next Ht Hcall.
    destruct (call_scanned _ _ _ _ Ht Hcall) as [Hs Hmove].
    split; [apply Hmove; eauto|].
    rewrite <- (scanned_rawLen _ _ Hs). apply (tracked_pos _ (scanned_tracked _ _ Hs)).
  - intros fuel state tpl Ht Hfuel.
    destruct (states_returns fuel state tpl Ht Hfuel) as (tpl' & -> & _). eauto.
Qed.

(** ** Texts that end too early *)

(** A comment that nothing closes runs to the end of the text. *)
Lemma comment_unclosed (n : nat) :
  forall tpl,
    tracked tpl -> tpl_rawLen tpl - tpl_pos tpl <= n ->
    (forall i, tpl_pos tpl <= i -> S i < tpl_rawLen tpl ->
               rawAt tpl i = "#"%char -> rawAt tpl (S i) <> "}"%char) ->
    exists p',
      tpl_rawLen tpl - 1 <= p' <= tpl_rawLen tpl
      /\ states (S n) (Some StComment) tpl =
           Some (set_err "File end reached within comment" (goto p' tpl)).
Proof.
  induction n as [|n IH]; intros tpl Ht Hn Hbody;
    pose proof (tracked_pos _ Ht) as Hpos; pose proof (tracked_some _ Ht) as Hsome.
  - exists (tpl_pos tpl). split; [lia|]. cbn [states call].
    rewrite processComment_end by lia. now rewrite goto_here.
  - destruct (le_lt_dec (tpl_rawLen tpl) (tpl_pos tpl)) as [Hend|Hin].
    { exists (tpl_pos tpl). split; [lia|]. cbn [states call].
      rewrite processComment_end by lia. now rewrite goto_here. }
    assert (Hstep : forall t1,
               t1 = goto (S (tpl_pos tpl)) tpl ->
               processComment tpl = (t1, Some StComment) ->
               exists p',
                 tpl_rawLen tpl - 1 <= p' <= tpl_rawLen tpl
                 /\ states (S (S n)) (Some StComment) tpl =
                      Some (set_err "File end reached within comment" (goto p' tpl))).
    { intros t1 -> Hcall.
      destruct (IH (goto (S (tpl_pos tpl)) tpl)) as (p' & Hp' & Hrun).
      - apply tracked_goto; [assumption | lia].
      - cbn. lia.
      - intros i Hi Hlt. apply Hbody; [cbn in Hi; lia | exact Hlt].
      - exists p'. split; [exact Hp'|].
        change (states (S (S n)) (Some StComment) tpl)
          with (let '(tpl1, next) := call StComment tpl in states (S n) next tpl1).
        cbn [call]. rewrite Hcall. exact Hrun. }
    destruct (Ascii.eqb_spec (rawAt tpl (tpl_pos tpl)) "#") as [Hc|Hc].
    + destruct (le_lt_dec (tpl_rawLen tpl) (S (tpl_pos tpl))) as [Hlast|Hmore].
      * exists (tpl_pos tpl). split; [lia|]. cbn [states call].
        rewrite processComment_hash_end by (assumption || lia). now rewrite goto_here.
      * apply (Hstep _ eq_refl). apply processComment_hash_scan; try assumption.
        apply Hbody; [lia | assumption | assumption].
    + apply (Hstep _ eq_refl). now apply processComment_scan.
Qed.

(** X15.  A comment that is never closed, whatever its text, is the
    parse error "File end reached within comment", reported at the last
    byte of the text. *)
Theorem FromString_unterminated_comment (name lit body : string)
    (locator : option templateLocator) :
  Bytes.contains "{" lit = false ->
  (forall i, byte_of body i = "#"%char -> byte_of body (S i) <> "}"%char) ->
  let src := lit +:+ "{#" +:+ body in
  let q := String.length src - 1 in
  FromString name src locator =
    Some (inr (parsing_error name (Position.line_at src q) (Position.col_at src q)
                 "File end reached within comment")).
Proof.
  intros Hlit Hbody.
  change (lit +:+ "{#" +:+ body) with (lit +:+ String "{" (String "#" body)).
  intros src q.
  destruct (newTemplate_some name src locator) as [tpl Hnew];
    [subst src; now destruct lit|].
  destruct (newTemplate_fresh _ _ _ _ Hnew) as (Hf & Hraw & Hname).
  destruct (updatePosition_first tpl (fresh_rawLen _ Hf) (fresh_some _ Hf)
              (fresh_pos _ Hf) (fresh_line _ Hf) (fresh_col _ Hf)) as [_ Ht].
  pose proof (fresh_rawLen _ Hf) as Hlen.
  rewrite Hraw in Hlen. unfold src in Hlen. rewrite length_app_string in Hlen.
  cbn [String.length] in Hlen.
  remember (set_start
              (tpl_pos (goto (S (S (String.length lit)))
                          (set_length (String.length lit) (goto 0 tpl))))
              (addContentNode (goto (S (S (String.length lit)))
                                 (set_length (String.length lit) (goto 0 tpl)))))
    as t3 eqn:Ht3.
  assert (Hs3 : scanned (goto 0 tpl) t3).
  { rewrite Ht3. apply scanned_set_start, scanned_addContentNode, scanned_goto;
      [now apply scanned_set_length, scanned_refl | cbn; lia | cbn; lia]. }
  assert (Hp3 : tpl_pos t3 = String.length lit + 2).
  { rewrite Ht3. cbn [tpl_pos set_start]. rewrite addContentNode_pos. cbn. lia. }
  pose proof (scanned_rawLen _ _ Hs3) as Hrl3. pose proof (scanned_raw _ _ Hs3) as Hr3.
  cbn in Hrl3, Hr3.
  destruct (comment_unclosed (String.length body) t3 (scanned_tracked _ _ Hs3))
    as (p' & Hp' & Hrun3).
  { rewrite Hrl3, Hp3. lia. }
  { intros i Hi Hlt. change (rawAt t3 ?j) with (byte_of (tpl_raw t3) j).
    rewrite Hr3, Hraw. unfold src. rewrite Hp3 in Hi.
    replace i with (String.length lit + S (S (i - (String.length lit + 2)))) by lia.
    replace (S (String.length lit + S (S (i - (String.length lit + 2)))))
      with (String.length lit + S (S (S (i - (String.length lit + 2))))) by lia.
    rewrite !byte_app_r. apply Hbody. }
  assert (Hrun : states (String.length lit + S (S (String.length body)))
                   (Some StContent) (goto 0 tpl)
                 = Some (set_err "File end reached within comment" (goto p' t3))).
  { rewrite (content_run (goto 0 tpl) "" lit body "#" _ Ht);
      [| exact Hraw | reflexivity | exact Hlit].
    cbn zeta. cbn [opener Ascii.eqb Bool.eqb andb String.length Nat.add].
    change (tpl_length (goto 0 tpl)) with (tpl_length tpl).
    rewrite (fresh_length _ Hf). cbn [Nat.add]. rewrite <- Ht3. exact Hrun3. }
  rewrite (FromString_by_run _ _ _ _ _ _ Hnew Hrun), parse_answer_error by discriminate.
  cbn [tpl_name tpl_line tpl_col tpl_raw tpl_rawLen goto set_col set_line set_pos].
  rewrite (scanned_name _ _ Hs3), Hr3, Hrl3. cbn [tpl_name goto set_col set_line set_pos].
  rewrite Hname, Hraw, Nat.min_r by lia.
  subst q. now rewrite (fresh_rawLen _ Hf), Hraw.
Qed.

(** X16.  An opening brace that is the last byte of the text is the
    parse error "File end reached (after opening '{')", reported at that
    byte. *)
Theorem FromString_lone_brace (name lit : string) (locator : option templateLocator) :
  Bytes.contains "{" lit = false ->
  let src := lit +:+ "{" in
  let q := String.length src - 1 in
  FromString name src locator =
    Some (inr (parsing_error name (Position.line_at src q) (Position.col_at src q)
                 "File end reached (after opening '{')")).
Proof.
  intros Hlit src q.
  destruct (newTemplate_some name src locator) as [tpl Hnew];
    [subst src; now destruct lit|].
  destruct (newTemplate_fresh _ _ _ _ Hnew) as (Hf & Hraw & Hname).
  pose proof (fresh_rawLen _ Hf) as Hlen.
  rewrite Hraw in Hlen. unfold src in Hlen. rewrite length_app_string in Hlen.
  cbn [String.length] in Hlen.
  pose proof (run_literal_prefix tpl lit "{" 1 Hf Hraw Hlit) as Hrun.
  destruct (behind_literal tpl lit "{" Hf Hraw) as (Ht & _ & _ & _ & Hn); [lia|].
  cbn zeta in Ht, Hn. cbn [states call] in Hrun.
  rewrite processContent_lone_brace in Hrun.
  - cbn [states] in Hrun.
    rewrite (FromString_by_run _ _ _ _ _ _ Hnew Hrun), parse_answer_error by discriminate.
    cbn [tpl_name tpl_line tpl_col tpl_raw tpl_rawLen set_length goto set_col set_line
           set_pos].
    rewrite Hname, Hraw, Nat.min_l by lia.
    subst q. unfold src. rewrite length_app_string. cbn [String.length].
    now replace (String.length lit + 1 - 1) with (String.length lit) by lia.
  - cbn. lia.
  - cbn [tpl_pos set_length goto set_col set_line set_pos].
    change (rawAt ?t ?i) with (byte_of (tpl_raw tpl) i).
    rewrite Hraw. unfold src. now rewrite byte_app_r0.
Qed.

End Engine.

(** * Templates from files

    [FromFile] reads the text of a template from a file and hands the
    template a locator for the other files it names.  What it takes from
    [path/filepath] and [io/ioutil] are parameters here: [IsAbs], [Dir],
    [Base] and [Join] work on the path alone; [Abs] and [ReadFile] depend
    on the working directory and the files, the state [OS] of the
    system.  A locator is a Go function from a name to a text or an
    error: it sees the system as it is when it is called.  A result with
    an [error] is a sum, the message of the error on the right. *)

Section Files.

Variable expr : Type.
Variable TagHandler : Type.
Variable Context : Type.
Variable newExpr : string -> expr + string.
Variable addFilter : expr -> string -> expr.
Variable Tags : gmap string (option TagHandler).
Variable Context_empty : Context.

Variable OS : Type.
Variable IsAbs : string -> bool.
Variable Abs : OS -> string -> string + string.
Variable ReadFile : OS -> string -> string + string.
Variable Dir : string -> string.
Variable Base : string -> string.
Variable Join : string -> string -> string.

Definition fileLocator : Type := OS -> string -> string + string.

(** The locator [FromFile] makes when it is given none: a name that is
    not absolute is looked for in the directory of the template file. *)
Definition default_locator (file_base : string) : fileLocator :=
  fun os name =>
    let filename := if IsAbs name then name else Join file_base name in
    match ReadFile os filename with
    | inr err =>
        inr ("Could not find the template '" +:+ filename
             +:+ "' (default file locator): " +:+ err)
    | inl buf => inl buf
    end.

(** Reads a template from file.  [None] is the loop of [parse] out of
    iterations, which does not happen ([parse_returns]). *)
Definition FromFile (os : OS) (file_path : string) (locator : option fileLocator)
  : option (Template expr TagHandler Context fileLocator + string) :=
  match (if IsAbs file_path then inl file_path else Abs os file_path) with
  | inr err => Some (inr err)
  | inl file_path =>
      match ReadFile os file_path with
      | inr err => Some (inr err)
      | inl buf =>
          let file_base := Dir file_path in
          let locator :=
            match locator with
            | Some l => l
            | None => default_locator file_base
            end in
          let name := Base file_path in
          match newTemplate expr TagHandler Context fileLocator Context_empty
                  name buf (Some locator) with
          | inr err => Some (inr err)
          | inl tpl =>
              match parse expr TagHandler Context fileLocator newExpr addFilter Tags
                      tpl with
              | None => None
              | Some (_, Some err) => Some (inr err)
              | Some (tpl, None) => Some (inl tpl)
              end
          end
      end
  end.

(** The path [FromFile] reads: the path it is given when that is
    absolute, and what [Abs] makes of it otherwise. *)
Definition resolved (os : OS) (file_path : string) : string + string :=
  if IsAbs file_path then inl file_path else Abs os file_path.

(** ** Properties *)

Lemma FromFile_read (os : OS) (file_path abs buf : string)
    (locator : option fileLocator) :
  resolved os file_path = inl abs -> ReadFile os abs = inl buf ->
  FromFile os file_path locator =
    FromString expr TagHandler Context fileLocator newExpr addFilter Tags
      Context_empty (Base abs) buf
      (Some match locator with
            | Some l => l
            | None => default_locator (Dir abs)
            end).
Proof.
  unfold resolved, FromFile. intros -> ->. reflexivity.
Qed.

(** X17.  [FromFile] is [FromString] on the text of the file: the
    template is named by the last element of the path that was read, and
    it is given the locator [FromFile] was called with or, without one, a
    locator for the directory of the file. *)
Theorem FromFile_reads (os : OS) (file_path abs buf : string)
    (locator : option fileLocator) :
  resolved os file_path = inl abs -> ReadFile os abs = inl buf ->
  FromFile os file_path locator =
    FromString expr TagHandler Context fileLocator newExpr addFilter Tags
      Context_empty (Base abs) buf
      (Some match locator with
            | Some l => l
            | None => default_locator (Dir abs)
            end).
Proof. apply FromFile_read. Qed.

(** X18.  [FromFile] always returns, and it returns no template when
    the path cannot be made absolute, when the file cannot be read, each
    with the error of that step as it is, or when the file is empty, with
    "Template has no content". *)
Theorem FromFile_fails (os : OS) (file_path : string) (locator : option fileLocator) :
  is_Some (FromFile os file_path locator)
  /\ (forall err, resolved os file_path = inr err ->
                  FromFile os file_path locator = Some (inr err))
  /\ (forall abs err, resolved os file_path = inl abs -> ReadFile os abs = inr err ->
                      FromFile os file_path locator = Some (inr err))
  /\ (forall abs, resolved os file_path = inl abs -> ReadFile os abs = inl "" ->
                  FromFile os file_path locator = Some (inr "Template has no content")).
Proof.
  refine (conj _ (conj _ (conj _ _))).
  - destruct (resolved os file_path) as [abs|err] eqn:Hres.
    + destruct (ReadFile os abs) as [buf|err] eqn:Hread.
      * rewrite (FromFile_read os file_path abs buf locator Hres Hread).
        apply FromString_returns.
      * unfold resolved in Hres. unfold FromFile. rewrite Hres, Hread. eauto.
    + unfold resolved in Hres. unfold FromFile. rewrite Hres. eauto.
  - unfold resolved, FromFile. now intros err ->.
  - unfold resolved, FromFile. now intros abs err -> ->.
  - intros abs Hres Hread. now rewrite (FromFile_read _ _ _ _ _ Hres Hread).
Qed.

(** X19.  The template [FromFile] returns when it is given no locator
    is named by the last element of the path that was read and holds the
    text of the file; its locator reads a name that is absolute as it is
    and any other name in the directory of the template file, from the
    files as they are when it is called, and puts "Could not find the
    template" and the path before the error of a read that fails. *)
Theorem FromFile_default_locator (os : OS) (file_path : string)
    (tpl : Template expr TagHandler Context fileLocator) :
  FromFile os file_path None = Some (inl tpl) ->
  exists abs l,
    resolved os file_path = inl abs
    /\ ReadFile os abs = inl (tpl_raw _ _ _ _ tpl)
    /\ tpl_name _ _ _ _ tpl = Base abs
    /\ tpl_locator _ _ _ _ tpl = Some l
    /\ forall os' name,
         let filename := if IsAbs name then name else Join (Dir abs) name in
         l os' name =
           match ReadFile os' filename with
           | inl buf => inl buf
           | inr err =>
               inr ("Could not find the template '" +:+ filename
                    +:+ "' (default file locator): " +:+ err)
           end.
Proof.
  intros H.
  destruct (resolved os file_path) as [abs|err] eqn:Hres.
  2:{ unfold resolved in Hres. unfold FromFile in H. rewrite Hres in H. discriminate. }
  destruct (ReadFile os abs) as [buf|err] eqn:Hread.
  2:{ unfold resolved in Hres. unfold FromFile in H. rewrite Hres, Hread in H.
      discriminate. }
  rewrite (FromFile_read _ _ _ _ _ Hres Hread) in H.
  destruct (FromString_fields _ _ _ _ _ _ _ _ _ _ _ _ H)
    as (Hname & Hraw & _ & _ & _ & _ & _ & _ & Hloc & _).
  exists abs, (default_locator (Dir abs)).
  refine (conj eq_refl (conj _ (conj Hname (conj Hloc _)))); [now rewrite Hraw|].
  intros os' name. unfold default_locator. cbn zeta.
  now destruct (ReadFile os' _).
Qed.

End Files.

(** * The claims as the specification words them *)

Module Claimed.

Definition is_white (c : ascii) : bool :=
  existsb (Ascii.eqb c) ["009"; "010"; "011"; "012"; "013"; " "]%char.

(** "Split on the first whitespace run into name and remainder
    (remainder absent: empty argument string)". *)
Fixpoint split_whitespace (s : string) : string * string :=
  match s with
  | EmptyString => (EmptyString, EmptyString)
  | String c s' =>
      if is_white c then (EmptyString, GoStrings.TrimLeftSpace s')
      else let '(name, rest) := split_whitespace s' in (String c name, rest)
  end.

Fixpoint last_byte (s : string) : option ascii :=
  match s with
  | EmptyString => None
  | String c s' =>
      match last_byte s' with
      | Some d => Some d
      | None => Some c
      end
  end.


End Claimed.

(** * The engine at work

    A small registry and a compiler of expressions to run the definitions
    on: a filter expression is a variable name, looked up in an
    association list; the tags are [if] with its markers [else] and
    [endif], and [now]. *)

Module Demo.

Inductive handler := IfTag | NowTag.

Definition vars : Type := option (list (string * string)).

Definition T : Type := Template string handler vars unit.

(** A compiler that refuses the empty expression, and one that accepts
    every text. *)
Definition newExpr_strict (s : string) : string + string :=
  if String.eqb s "" then inr "Empty expression" else inl s.

Definition newExpr_any (s : string) : string + string := inl s.

Definition addFilter (e f : string) : string := e +:+ "|" +:+ f.

Definition Tags : gmap string (option handler) :=
  list_to_map [("if", Some IfTag); ("else", None); ("endif", None);
               ("now", Some NowTag)].

Definition from_string (newExpr : string -> string + string) (src : string)
  : option (T + string) :=
  FromString string handler vars unit newExpr addFilter Tags (Some []) "t" src None.

Fixpoint assoc (name : string) (l : list (string * string)) : option string :=
  match l with
  | [] => None
  | (k, v) :: l' => if String.eqb k name then Some v else assoc name l'
  end.

Definition variable (e : string) (ctx : vars) : option string :=
  match ctx with
  | Some l => assoc (fst (GoStrings.cut "|" e)) l
  | None => None
  end.

Definition evalString (e : string) (ctx : vars) : vars * result string :=
  match variable e ctx with
  | Some v => (ctx, Ok v)
  | None => (ctx, Err ("Unknown variable '" +:+ fst (GoStrings.cut "|" e) +:+ "'"))
  end.

Definition is_nil (ctx : vars) : bool :=
  match ctx with
  | None => true
  | Some _ => false
  end.

(** The skip notification of [if] skips to the [endif] of the nested
    construct; [depth] bounds the nesting. *)
Fixpoint Ignore (depth : nat) (h : handler) : option (string -> T -> T) :=
  match h with
  | NowTag => None
  | IfTag =>
      Some (fun _ tpl =>
              match depth with
              | 0 => tpl
              | S depth' =>
                  match ignoreUntilAnyTagNode string handler vars unit (Ignore depth')
                          (length (tpl_nodes _ _ _ _ tpl)) tpl ["endif"] with
                  | Some (tpl', _) => tpl'
                  | None => tpl
                  end
              end)
  end.

(** [if name]: the first branch when the variable is bound, the branch
    after [else] otherwise. *)
Fixpoint Execute_handler (depth : nat) (h : handler) (args : string) (tpl : T)
    (ctx : vars) : T * vars * result string :=
  match h with
  | NowTag => (tpl, ctx, Ok "NOW")
  | IfTag =>
      match depth with
      | 0 => (tpl, ctx, Err "Nesting too deep")
      | S depth' =>
          let fuel := length (tpl_nodes _ _ _ _ tpl) in
          let run :=
            executeUntilAnyTagNode string handler vars unit evalString
              (Execute_handler depth') fuel in
          let skip :=
            ignoreUntilAnyTagNode string handler vars unit (Ignore depth') fuel in
          match variable args ctx with
          | Some _ =>
              match run tpl ctx ["else"; "endif"] with
              | Some (Panics msg) => (tpl, ctx, Err msg)
              | Some (Returns (tpl1, ctx1, Ok (tn, out))) =>
                  if String.eqb (tn_tagname _ tn) "else" then
                    match skip tpl1 ["endif"] with
                    | Some (tpl2, Ok _) => (tpl2, ctx1, Ok (Bytes.join "" out))
                    | Some (tpl2, Err err) => (tpl2, ctx1, Err err)
                    | None => (tpl1, ctx1, Err "Out of fuel")
                    end
                  else (tpl1, ctx1, Ok (Bytes.join "" out))
              | Some (Returns (tpl1, ctx1, Err err)) => (tpl1, ctx1, Err err)
              | None => (tpl, ctx, Err "Out of fuel")
              end
          | None =>
              match skip tpl ["else"; "endif"] with
              | Some (tpl1, Ok tn) =>
                  if String.eqb (tn_tagname _ tn) "else" then
                    match run tpl1 ctx ["endif"] with
                    | Some (Panics msg) => (tpl1, ctx, Err msg)
                    | Some (Returns (tpl2, ctx2, Ok (_, out))) =>
                        (tpl2, ctx2, Ok (Bytes.join "" out))
                    | Some (Returns (tpl2, ctx2, Err err)) => (tpl2, ctx2, Err err)
                    | None => (tpl1, ctx, Err "Out of fuel")
                    end
                  else (tpl1, ctx, Ok "")
              | Some (tpl1, Err err) => (tpl1, ctx, Err err)
              | None => (tpl, ctx, Err "Out of fuel")
              end
          end
      end
  end.

Definition execute_template (tpl : T) (ctx : vars) : option (T * vars * result string) :=
  Execute string handler vars unit is_nil (Some []) evalString (Execute_handler 8)
    (length (tpl_nodes _ _ _ _ tpl)) tpl ctx.

(** Parse and render; the template is dropped. *)
Definition render (src : string) (ctx : vars) : option (result string) :=
  match from_string newExpr_strict src with
  | Some (inl tpl) =>
      match execute_template tpl ctx with
      | Some (_, _, r) => Some r
      | None => None
      end
  | Some (inr err) => Some (Err err)
  | None => None
  end.


(** The text of a tag whose name and argument are separated by a tab. *)
Definition tabbed : string := "if" +:+ String "009" "x".

(** The template [parse] is called on twice below. *)
Definition unparsed : T :=
  {| tpl_name := "t"; tpl_parsed := false; tpl_raw := "Hello {{ name }}!";
     tpl_rawLen := 17; tpl_pos := 0; tpl_start := 0; tpl_length := 0;
     tpl_err := ""; tpl_line := 1; tpl_col := 0; tpl_autosafe := true;
     tpl_nodes := []; tpl_node_pos := 0; tpl_locator := None;
     tpl_internal_context := Some [] |}.

Definition parsed : T :=
  match parse string handler vars unit newExpr_strict addFilter Tags unparsed with
  | Some (tpl, _) => tpl
  | None => unparsed
  end.

(** ** A handler that uses up the template *)

(** The tag [cut] drops what follows it: its handler skips to an
    [endcut], pays no heed to the error of a skip that finds none, and
    reports success. *)
Inductive cutter := CutTag.

Definition CT : Type := Template string cutter vars unit.

Definition cut_Tags : gmap string (option cutter) :=
  list_to_map [("cut", Some CutTag)].

Definition Execute_cut (h : cutter) (args : string) (tpl : CT) (ctx : vars)
  : CT * vars * result string :=
  match ignoreUntilAnyTagNode string cutter vars unit (fun _ => None)
          (length (tpl_nodes _ _ _ _ tpl)) tpl ["endcut"] with
  | Some (tpl', _) => (tpl', ctx, Ok "")
  | None => (tpl, ctx, Err "Out of fuel")
  end.

(** ** The templates and files the further properties are shown on *)

Definition hello : contentNode :=
  {| cn_line := 1; cn_col := 9; cn_content := "Hello " |}.

Definition name_filter : filterNode string :=
  {| fn_line := 1; fn_col := 15; fn_content := "name"; fn_e := "name|safe" |}.

Definition bang : contentNode :=
  {| cn_line := 1; cn_col := 17; cn_content := "!" |}.

Definition if_node : tagNode handler :=
  {| tn_line := 1; tn_col := 10; tn_content := "if x"; tn_tagname := "if";
     tn_tagargs := "x"; tn_taghandler := Some IfTag; tn_ident := ""; tn_args := [] |}.

Definition yes : contentNode :=
  {| cn_line := 1; cn_col := 17; cn_content := "yes" |}.

Definition endif_node : tagNode handler :=
  {| tn_line := 1; tn_col := 24; tn_content := "endif"; tn_tagname := "endif";
     tn_tagargs := ""; tn_taghandler := None; tn_ident := ""; tn_args := [] |}.

Definition a_node : contentNode :=
  {| cn_line := 1; cn_col := 4; cn_content := "a" |}.

Definition b_node : contentNode :=
  {| cn_line := 1; cn_col := 26; cn_content := "b" |}.

(** The template of [Hello {{ name }}!], as [FromString] returns it. *)
Definition hello_template : T :=
  {| tpl_name := "t"; tpl_parsed := true; tpl_raw := "Hello {{ name }}!";
     tpl_rawLen := 17; tpl_pos := 17; tpl_start := 17; tpl_length := 0;
     tpl_err := ""; tpl_line := 1; tpl_col := 17; tpl_autosafe := true;
     tpl_nodes := [ContentNode _ _ hello; FilterNode _ _ name_filter;
                   ContentNode _ _ bang];
     tpl_node_pos := 0; tpl_locator := None; tpl_internal_context := Some [] |}.

(** The template of [a{% if x %}yes{% endif %}b], with the cursor on
    node [cursor]. *)
Definition if_template (cursor : nat) : T :=
  {| tpl_name := "t"; tpl_parsed := true; tpl_raw := "a{% if x %}yes{% endif %}b";
     tpl_rawLen := 26; tpl_pos := 26; tpl_start := 26; tpl_length := 0;
     tpl_err := ""; tpl_line := 1; tpl_col := 26; tpl_autosafe := true;
     tpl_nodes := [ContentNode _ _ a_node; TagNode _ _ if_node; ContentNode _ _ yes;
                   TagNode _ _ endif_node; ContentNode _ _ b_node];
     tpl_node_pos := cursor; tpl_locator := None; tpl_internal_context := Some [] |}.

(** The template [parse] starts on, the byte at offset 0 counted. *)
Definition started : T :=
  {| tpl_name := "t"; tpl_parsed := false; tpl_raw := "Hello {{ name }}!";
     tpl_rawLen := 17; tpl_pos := 0; tpl_start := 0; tpl_length := 0;
     tpl_err := ""; tpl_line := 1; tpl_col := 1; tpl_autosafe := true;
     tpl_nodes := []; tpl_node_pos := 0; tpl_locator := None;
     tpl_internal_context := Some [] |}.

(** Files by their absolute path, and stand-ins for the functions of
    the system: a path is absolute when it starts with a slash, the
    working directory is [/work]. *)
Definition files : Type := list (string * string).

Definition is_abs (p : string) : bool :=
  match p with
  | String "/" _ => true
  | _ => false
  end.

Definition abs_path (_ : files) (p : string) : string + string :=
  inl ("/work/" +:+ p).

Definition read_file (os : files) (p : string) : string + string :=
  match assoc p os with
  | Some text => inl text
  | None => inr ("open " +:+ p +:+ ": no such file or directory")
  end.

Fixpoint dir_of (p : string) : string :=
  match p with
  | EmptyString => EmptyString
  | String c p' => if Bytes.contains "/" p' then String c (dir_of p') else EmptyString
  end.

Fixpoint base_of (p : string) : string :=
  match p with
  | EmptyString => EmptyString
  | String c p' =>
      if Bytes.contains "/" p' then base_of p'
      else if Ascii.eqb c "/" then p' else p
  end.

Definition join_path (a b : string) : string := a +:+ "/" +:+ b.

Definition disk : files :=
  [("/tpl/index.html", "Hello {{ name }}!"); ("/tpl/base.html", "Base")].

Definition FT : Type := Template string handler vars (fileLocator files).

(** The locator [FromFile] makes for the files of [/tpl]. *)
Definition tpl_locator_of_dir : fileLocator files :=
  default_locator files is_abs read_file join_path "/tpl".

(** The template of the file [/tpl/index.html], as [FromFile] returns
    it. *)
Definition index_template : FT :=
  {| tpl_name := "index.html"; tpl_parsed := true; tpl_raw := "Hello {{ name }}!";
     tpl_rawLen := 17; tpl_pos := 17; tpl_start := 17; tpl_length := 0;
     tpl_err := ""; tpl_line := 1; tpl_col := 17; tpl_autosafe := true;
     tpl_nodes := [ContentNode _ _ hello; FilterNode _ _ name_filter;
                   ContentNode _ _ bang];
     tpl_node_pos := 0; tpl_locator := Some tpl_locator_of_dir;
     tpl_internal_context := Some [] |}.

(** ** Renderings *)

Lemma last_byte_app (a b : string) :
  Claimed.last_byte (a +:+ b) =
    match Claimed.last_byte b with
    | Some c => Some c
    | None => Claimed.last_byte a
    end.
Proof.
  induction a as [|c a IH].
  - change ("" +:+ b) with b. now destruct (Claimed.last_byte b).
  - change (String c a +:+ b) with (String c (a +:+ b)). cbn [Claimed.last_byte].
    rewrite IH. now destruct (Claimed.last_byte b).
Qed.


Example render_hello :
  render "Hello {{ name }}!{# note #}" (Some [("name", "World")]) = Some (Ok "Hello World!").
Proof. vm_compute. reflexivity. Qed.

Example render_if :
  render "a{% if x %}yes{% else %}no{% endif %}b{% now %}" (Some [("x", "1")])
  = Some (Ok "ayesbNOW")
  /\ render "a{% if x %}yes{% else %}no{% endif %}b{% now %}" (Some [])
     = Some (Ok "anobNOW").
Proof. split; vm_compute; reflexivity. Qed.

Example render_nested :
  render "a{% if x %}yes{% if y %}Y{% else %}N{% endif %}{% else %}no{% endif %}b"
    (Some [("y", "1")]) = Some (Ok "anob").
Proof. vm_compute. reflexivity. Qed.

Example render_marker :
  render "a{% endif %}b" (Some [])
  = Some (Err (node_error string handler "Error" "t"
                 (TagNode string handler
                    {| tn_line := 1; tn_col := 11; tn_content := "endif";
                       tn_tagname := "endif"; tn_tagargs := "";
                       tn_taghandler := None; tn_ident := ""; tn_args := [] |})
                 (unhandled_placeholder "endif"))).
Proof. vm_compute. reflexivity. Qed.

Example render_no_end :
  render "a{% if x %}b" (Some [("x", "1")])
  = Some (Err ("[Error: t] [Line 1 Col 10 (if x)] " +:+ no_end_node ["else"; "endif"])).
Proof. vm_compute. reflexivity. Qed.

(** A second [Execute] on the same template gives the empty text. *)
Example execute_again :
  match from_string newExpr_strict "Hello {{ name }}!" with
  | Some (inl tpl) =>
      match execute_template tpl (Some [("name", "World")]) with
      | Some (tpl', _, first) =>
          first = Ok "Hello World!"
          /\ tpl_node_pos _ _ _ _ tpl' = 3
          /\ option_map snd (execute_template tpl' (Some [("name", "World")]))
             = Some (Ok "")
      | None => False
      end
  | _ => False
  end.
Proof. vm_compute. auto. Qed.

(** ** The claims that fail, each at one text *)

(** C3 fails at the text [ab{% x], whose tag never closes: the error
    names line 1, column 6, the last byte of the text, while the opening
    brace of the tag, at offset 2, is at line 1, column 3.  It fails as
    well for the execution error of [{{ x }}]: the error names column 6,
    where the closing braces start, and the node starts at column 1. *)
Lemma error_position_counterexample :
  from_string newExpr_strict "ab{% x"
  = Some (inr (parsing_error "t" 1 6 "File end reached within tag"))
  /\ byte_of "ab{% x" 2 = "{"%char
  /\ (Position.line_at "ab{% x" 2, Position.col_at "ab{% x" 2) = (1, 3)
  /\ ~ (exists msg,
          from_string newExpr_strict "ab{% x"
          = Some (inr (parsing_error "t" (Position.line_at "ab{% x" 2)
                         (Position.col_at "ab{% x" 2) msg)))
  /\ render "{{ x }}" (Some [])
     = Some (Err ("[Error: t] [Line 1 Col 6 (x)] Unknown variable 'x'"))
  /\ (Position.line_at "{{ x }}" 0, Position.col_at "{{ x }}" 0) = (1, 1).
Proof.
  refine (conj _ (conj _ (conj _ (conj _ (conj _ _))))); try (vm_compute; reflexivity).
  intros [msg H]. vm_compute in H. discriminate H.
Qed.

(** C4 fails at the text [{{ }}]: its captured text is one space, empty
    once trimmed, and the parse does not fail with "Empty filter".  With
    a compiler that accepts the empty expression the parse succeeds and
    stores a filter node; with one that refuses it the error is the
    compiler's. *)
Lemma empty_filter_counterexample :
  GoStrings.TrimSpace " " = ""
  /\ (exists tpl,
        from_string newExpr_any "{{ }}" = Some (inl tpl)
        /\ tpl_nodes _ _ _ _ tpl
           = [FilterNode string handler
                {| fn_line := 1; fn_col := 4; fn_content := ""; fn_e := "|safe" |}])
  /\ from_string newExpr_strict "{{ }}"
     = Some (inr (parsing_error "t" 1 4 "Empty expression"))
  /\ ~ (exists line col,
          from_string newExpr_strict "{{ }}"
          = Some (inr (parsing_error "t" line col "Empty filter"))).
Proof.
  refine (conj _ (conj _ (conj _ _))); try (vm_compute; reflexivity).
  - eexists. split; vm_compute; reflexivity.
  - intros (line & col & H).
    assert (Hs : from_string newExpr_strict "{{ }}"
                 = Some (inr (parsing_error "t" 1 4 "Empty expression")))
      by (vm_compute; reflexivity).
    rewrite Hs in H. injection H as H. apply (f_equal Claimed.last_byte) in H.
    unfold parsing_error in H. rewrite !last_byte_app in H.
    vm_compute in H. discriminate H.
Qed.

(** C5 fails at the tag [{% if<tab>x %}]: split at its first white
    space the text gives the name [if], which the registry holds, but
    the code cuts at the first space byte, finds none, looks the whole
    text up as the name and fails. *)
Lemma tag_split_counterexample :
  Claimed.split_whitespace tabbed = ("if", "x")
  /\ GoStrings.SplitN2 tabbed " " = [tabbed]
  /\ Tags !! "if" = Some (Some IfTag)
  /\ from_string newExpr_strict ("{% " +:+ tabbed +:+ " %}")
     = Some (inr (parsing_error "t" 1 9 (tag_missing tabbed)))
  /\ ~ (exists tpl, from_string newExpr_strict ("{% " +:+ tabbed +:+ " %}")
                    = Some (inl tpl)).
Proof.
  refine (conj _ (conj _ (conj _ (conj _ _)))); try (vm_compute; reflexivity).
  intros [tpl H]. vm_compute in H. discriminate H.
Qed.

(** C9 fails at the text [a{% cut %}b], whose tag has a handler that
    skips to the end of the node list and reports success: the call of
    [Execute] succeeds with the text [a], and leaves the cursor at 4 on
    a list of 3 nodes, one past its length.  A second call still returns
    the empty text. *)
Lemma cursor_past_end_counterexample :
  exists tpl tpl' : CT,
    FromString string cutter vars unit newExpr_strict addFilter cut_Tags (Some []) "t"
      "a{% cut %}b" None = Some (inl tpl)
    /\ length (tpl_nodes _ _ _ _ tpl) = 3
    /\ tpl_node_pos _ _ _ _ tpl = 0
    /\ Execute string cutter vars unit is_nil (Some []) evalString Execute_cut 3 tpl
         (Some []) = Some (tpl', Some [], Ok "a")
    /\ length (tpl_nodes _ _ _ _ tpl') = 3
    /\ tpl_node_pos _ _ _ _ tpl' = 4
    /\ tpl_node_pos _ _ _ _ tpl' <> length (tpl_nodes _ _ _ _ tpl')
    /\ Execute string cutter vars unit is_nil (Some []) evalString Execute_cut 3 tpl'
         (Some []) = Some (tpl', Some [], Ok "").
Proof.
  eexists. eexists.
  refine (conj _ (conj _ (conj _ (conj _ (conj _ (conj _ (conj _ _)))))));
    try (vm_compute; reflexivity).
  vm_compute. discriminate.
Qed.

Lemma parse_twice_witness :
  parse string handler vars unit newExpr_strict addFilter Tags unparsed
  = Some (parsed, None)
  /\ length (tpl_nodes _ _ _ _ parsed) = 3
  /\ parse string handler vars unit newExpr_strict addFilter Tags parsed
     = Some (parsed, None).
Proof.
  refine (conj _ (conj _ _)).
  - vm_compute. reflexivity.
  - vm_compute. reflexivity.
  - apply (parse_twice string handler vars unit newExpr_strict addFilter Tags unparsed).
    vm_compute. reflexivity.
Defined.


(** ** The further properties, each at one input *)

Lemma newExpr_strict_message (s : string) : newExpr_strict s <> inr "".
Proof. unfold newExpr_strict. destruct (String.eqb s ""); discriminate. Qed.

Lemma hello_parsed :
  FromString string handler vars unit newExpr_strict addFilter Tags (Some []) "t"
    "Hello {{ name }}!" None = Some (inl hello_template).
Proof. vm_compute. reflexivity. Qed.

Lemma if_parsed :
  FromString string handler vars unit newExpr_strict addFilter Tags (Some []) "t"
    "a{% if x %}yes{% endif %}b" None = Some (inl (if_template 0)).
Proof. vm_compute. reflexivity. Qed.

Lemma FromString_template_witness :
  FromString string handler vars unit newExpr_strict addFilter Tags (Some []) "t"
      "Hello {{ name }}!" None = Some (inl hello_template)
  /\ tpl_name _ _ _ _ hello_template = "t" /\ tpl_node_pos _ _ _ _ hello_template = 0
  /\ tpl_locator _ _ _ _ hello_template = None.
Proof.
  split; [exact hello_parsed|].
  destruct (FromString_template string handler vars unit newExpr_strict addFilter Tags
              (Some []) "t" "Hello {{ name }}!" None hello_template hello_parsed)
    as (Hname & _ & _ & _ & _ & _ & _ & Hcur & Hloc & _).
  exact (conj Hname (conj Hcur Hloc)).
Defined.

Lemma FromString_reads_all_witness :
  (forall s, newExpr_strict s <> inr "")
  /\ tpl_pos _ _ _ _ hello_template = String.length "Hello {{ name }}!"
  /\ tpl_length _ _ _ _ hello_template = 0.
Proof.
  split; [exact newExpr_strict_message|].
  exact (FromString_reads_all string handler vars unit newExpr_strict addFilter Tags
           (Some []) "t" "Hello {{ name }}!" None hello_template newExpr_strict_message
           hello_parsed).
Defined.

Lemma literal_nodes_plain_witness :
  ContentNode _ _ hello ∈ tpl_nodes _ _ _ _ hello_template
  /\ cn_content hello <> "" /\ Bytes.contains "{" (cn_content hello) = false.
Proof.
  assert (Hin : ContentNode string handler hello ∈ tpl_nodes _ _ _ _ hello_template)
    by apply list_elem_of_here.
  split; [exact Hin|].
  exact (literal_nodes_plain string handler vars unit newExpr_strict addFilter Tags
           (Some []) "t" "Hello {{ name }}!" None hello_template hello hello_parsed
               Hin).
Defined.

Lemma filter_nodes_compiled_witness :
  FilterNode _ _ name_filter ∈ tpl_nodes _ _ _ _ hello_template
  /\ exists e, newExpr_strict (fn_content _ name_filter) = inl e
               /\ fn_e _ name_filter = addFilter e "safe".
Proof.
  assert (Hin : FilterNode string handler name_filter
                ∈ tpl_nodes _ _ _ _ hello_template)
    by apply list_elem_of_further, list_elem_of_here.
  split; [exact Hin|].
  exact (filter_nodes_compiled string handler vars unit newExpr_strict addFilter Tags
           (Some []) "t" "Hello {{ name }}!" None hello_template name_filter
           hello_parsed Hin).
Defined.

Lemma tag_nodes_registered_witness :
  TagNode _ _ if_node ∈ tpl_nodes _ _ _ _ (if_template 0)
  /\ Tags !! tn_tagname _ if_node = Some (tn_taghandler _ if_node).
Proof.
  assert (Hin : TagNode string handler if_node ∈ tpl_nodes _ _ _ _ (if_template 0))
    by apply list_elem_of_further, list_elem_of_here.
  split; [exact Hin|].
  destruct (tag_nodes_registered string handler vars unit newExpr_strict addFilter Tags
              (Some []) "t" "a{% if x %}yes{% endif %}b" None (if_template 0) if_node
              if_parsed Hin) as (Hreg & _).
  exact Hreg.
Defined.

Lemma FromString_pieces_witness :
  exists tpl,
    FromString string handler vars unit newExpr_strict addFilter Tags (Some []) "t"
      "a{# 1 # 2 #}b{{ x } y }}{% if a % 2 %}" None = Some (inl tpl)
    /\ tpl_nodes _ _ _ _ tpl
       = [ContentNode _ _ {| cn_line := 1; cn_col := 4; cn_content := "a" |};
          ContentNode _ _ {| cn_line := 1; cn_col := 16; cn_content := "b" |};
          FilterNode _ _ {| fn_line := 1; fn_col := 23; fn_content := "x } y";
                            fn_e := "x } y|safe" |};
          TagNode _ _ {| tn_line := 1; tn_col := 37; tn_content := "if a % 2";
                         tn_tagname := "if"; tn_tagargs := "a % 2";
                         tn_taghandler := Some IfTag; tn_ident := "";
                         tn_args := [] |}].
Proof.
  destruct (FromString_pieces string handler vars unit newExpr_strict addFilter Tags
              (Some []) "t" None
              [("a", CommentPiece " 1 # 2 "); ("b", FilterPiece " x } y ");
               ("", TagPiece " if a % 2 ")] ""
              (literal_at _ _ "a{# 1 # 2 #}b{{ x } y }}{% if a % 2 %}" 3 "a" ++ []
               ++ literal_at _ _ "a{# 1 # 2 #}b{{ x } y }}{% if a % 2 %}" 15 "b"
               ++ [FilterNode _ _
                     {| fn_line :=
                          Position.line_at "a{# 1 # 2 #}b{{ x } y }}{% if a % 2 %}" 22;
                        fn_col :=
                          Position.col_at "a{# 1 # 2 #}b{{ x } y }}{% if a % 2 %}" 22;
                        fn_content := GoStrings.TrimSpace " x } y ";
                        fn_e := addFilter "x } y" "safe" |}]
               ++ literal_at _ _ "a{# 1 # 2 #}b{{ x } y }}{% if a % 2 %}" 26 ""
               ++ [TagNode _ _
                     {| tn_line :=
                          Position.line_at "a{# 1 # 2 #}b{{ x } y }}{% if a % 2 %}" 36;
                        tn_col :=
                          Position.col_at "a{# 1 # 2 #}b{{ x } y }}{% if a % 2 %}" 36;
                        tn_content := GoStrings.TrimSpace " if a % 2 ";
                        tn_tagname := "if";
                        tn_tagargs := GoStrings.TrimSpace "a % 2";
                        tn_taghandler := Some IfTag;
                        tn_ident := ""; tn_args := [] |}]
               ++ literal_at _ _ "a{# 1 # 2 #}b{{ x } y }}{% if a % 2 %}" 37 ""))
    as (tpl & Hfrom & Hnodes).
  - discriminate.
  - apply (parses_piece _ _ _ _ _ "a{# 1 # 2 #}b{{ x } y }}{% if a % 2 %}" 0 "a"
             (CommentPiece " 1 # 2 ")
             [("b", FilterPiece " x } y "); ("", TagPiece " if a % 2 ")] "").
    + reflexivity.
    + apply comment_node. reflexivity.
    + apply (parses_piece _ _ _ _ _ "a{# 1 # 2 #}b{{ x } y }}{% if a % 2 %}" 12 "b"
               (FilterPiece " x } y ") [("", TagPiece " if a % 2 ")] "").
      * reflexivity.
      * apply (filter_node _ _ _ _ _ _ 22 " x } y " "x } y");
          [reflexivity | discriminate | vm_compute; reflexivity].
      * apply (parses_piece _ _ _ _ _ "a{# 1 # 2 #}b{{ x } y }}{% if a % 2 %}" 24 ""
                 (TagPiece " if a % 2 ") [] "").
        -- reflexivity.
        -- apply (tag_node _ _ _ _ _ _ 36 " if a % 2 " "if" "a % 2" (Some IfTag));
             [reflexivity | discriminate | | vm_compute; reflexivity].
           split; [reflexivity | left; vm_compute; reflexivity].
        -- apply (parses_last _ _ _ _ _ "a{# 1 # 2 #}b{{ x } y }}{% if a % 2 %}" 38 "").
           reflexivity.
  - exists tpl. split; [exact Hfrom|]. rewrite Hnodes. vm_compute. reflexivity.
Defined.

Lemma Execute_plain_nodes_witness :
  Execute string handler vars unit is_nil (Some []) evalString (Execute_handler 8) 3
      hello_template (Some [("name", "World")])
  = Some (set_node_pos _ _ _ _ 3 hello_template, Some [("name", "World")],
          Ok "Hello World!").
Proof.
  apply (Execute_plain_nodes string handler vars unit is_nil (Some []) evalString
           (Execute_handler 8) hello_template []
           [ContentNode _ _ hello; FilterNode _ _ name_filter; ContentNode _ _ bang]
           (Some [("name", "World")]) (Some [("name", "World")])
           ["Hello "; "World"; "!"] 3).
  - reflexivity.
  - reflexivity.
  - apply (plays_content _ _ _ _ hello).
    apply (plays_filter _ _ _ _ name_filter _ _ (Some [("name", "World")]));
      [vm_compute; reflexivity|].
    apply (plays_content _ _ _ _ bang). constructor.
  - cbn. lia.
Defined.

Lemma Execute_failing_filter_witness :
  Execute string handler vars unit is_nil (Some []) evalString (Execute_handler 8) 3
      hello_template (Some [])
  = Some (set_node_pos _ _ _ _ 1 hello_template, Some [],
          Err "[Error: t] [Line 1 Col 15 (name)] Unknown variable 'name'").
Proof.
  apply (Execute_failing_filter string handler vars unit is_nil (Some []) evalString
           (Execute_handler 8) hello_template [] [ContentNode _ _ hello]
           [ContentNode _ _ bang] name_filter (Some []) (Some []) (Some [])
           ["Hello "] "Unknown variable 'name'" 3).
  - reflexivity.
  - reflexivity.
  - apply (plays_content _ _ _ _ hello). constructor.
  - vm_compute. reflexivity.
  - cbn. lia.
Defined.

Lemma Execute_pieces_witness :
  exists tpl,
    FromString string handler vars unit newExpr_strict addFilter Tags (Some []) "t"
        "Hello {{ name }}!{# no#e #}" None = Some (inl tpl)
    /\ Execute string handler vars unit is_nil (Some []) evalString (Execute_handler
         8) 3 tpl (Some [("name", "World")])
       = Some (set_node_pos _ _ _ _ 3 tpl, Some [("name", "World")], Ok "Hello World!").
Proof.
  apply (Execute_pieces string handler vars unit newExpr_strict addFilter Tags is_nil
           (Some []) evalString (Execute_handler 8) "t" None
           [("Hello ", FilterPiece " name "); ("!", CommentPiece " no#e ")] ""
           (literal_at _ _ "Hello {{ name }}!{# no#e #}" 8 "Hello "
            ++ [FilterNode _ _
                  {| fn_line := Position.line_at "Hello {{ name }}!{# no#e #}" 14;
                     fn_col := Position.col_at "Hello {{ name }}!{# no#e #}" 14;
                     fn_content := GoStrings.TrimSpace " name ";
                     fn_e := addFilter "name" "safe" |}]
            ++ literal_at _ _ "Hello {{ name }}!{# no#e #}" 19 "!" ++ [] ++
               literal_at _ _ "Hello {{ name }}!{# no#e #}" 26 "")
           (Some [("name", "World")]) (Some [("name", "World")])
           ("Hello " +:+ ("World" +:+ ("!" +:+ ""))) 3).
  - discriminate.
  - apply (parses_piece _ _ _ _ _ "Hello {{ name }}!{# no#e #}" 0 "Hello "
             (FilterPiece " name ") [("!", CommentPiece " no#e ")] "").
    + reflexivity.
    + apply (filter_node _ _ _ _ _ _ 14 " name " "name");
        [reflexivity | discriminate | vm_compute; reflexivity].
    + apply (parses_piece _ _ _ _ _ "Hello {{ name }}!{# no#e #}" 16 "!"
               (CommentPiece " no#e ") [] "").
      * reflexivity.
      * apply comment_node. reflexivity.
      * apply (parses_last _ _ _ _ _ "Hello {{ name }}!{# no#e #}" 27 ""). reflexivity.
  - apply (renders_filter _ _ _ _ _ "Hello " " name " "name" "World" _
             (Some [("name", "World")]) (Some [("name", "World")]));
      [vm_compute; reflexivity | vm_compute; reflexivity |].
    apply (renders_comment _ _ _ _ _ "!" " no#e " []). constructor.
  - vm_compute. lia.
Defined.

Lemma executeUntil_plain_body_witness :
  executeUntilAnyTagNode string handler vars unit evalString (Execute_handler 8) 5
      (if_template 1) (Some []) ["else"; "endif"]
  = Some (Returns (set_node_pos _ _ _ _ 3 (if_template 1), Some [],
                   Ok (endif_node, ["yes"]))).
Proof.
  apply (executeUntil_plain_body string handler vars unit evalString
           (Execute_handler 8) ["else"; "endif"] (if_template 1)
           [ContentNode _ _ a_node] (TagNode _ _ if_node) [ContentNode _ _ yes]
           [ContentNode _ _ b_node] endif_node (Some []) (Some []) ["yes"] 5).
  - reflexivity.
  - reflexivity.
  - apply (plays_content _ _ _ _ yes). constructor.
  - apply list_elem_of_further, list_elem_of_here.
  - cbn. lia.
Defined.

Lemma run_until_endif :
  executeUntilAnyTagNode string handler vars unit evalString (Execute_handler 8) 5
      (if_template 1) (Some []) ["else"; "endif"]
  = Some (Returns (if_template 3, Some [], Ok (endif_node, ["yes"]))).
Proof. vm_compute. reflexivity. Qed.

Lemma executeUntil_cursor_witness :
  executeUntilAnyTagNode string handler vars unit evalString (Execute_handler 8) 5
      (if_template 1) (Some []) ["else"; "endif"]
  = Some (Returns (if_template 3, Some [], Ok (endif_node, ["yes"])))
  /\ current _ _ _ _ (if_template 3) = Some (TagNode _ _ endif_node)
  /\ tn_tagname _ endif_node ∈ ["else"; "endif"].
Proof.
  split; [exact run_until_endif|].
  exact (executeUntil_cursor string handler vars unit evalString (Execute_handler 8)
           5 (if_template 1) (Some []) ["else"; "endif"] (if_template 3) (Some [])
           (Ok (endif_node, ["yes"])) run_until_endif).
Defined.

Lemma skip_until_endif :
  ignoreUntilAnyTagNode string handler vars unit (Ignore 8) 5 (if_template 1)
      ["endif"] = Some (if_template 3, Ok endif_node).
Proof. vm_compute. reflexivity. Qed.

Lemma ignoreUntil_cursor_witness :
  ignoreUntilAnyTagNode string handler vars unit (Ignore 8) 5 (if_template 1)
      ["endif"] = Some (if_template 3, Ok endif_node)
  /\ current _ _ _ _ (if_template 3) = Some (TagNode _ _ endif_node)
  /\ tn_tagname _ endif_node ∈ ["endif"].
Proof.
  split; [exact skip_until_endif|].
  exact (ignoreUntil_cursor string handler vars unit (Ignore 8) 5 (if_template 1)
           ["endif"] (if_template 3) (Ok endif_node) skip_until_endif).
Defined.

Lemma started_tracked : tracked _ _ _ _ started.
Proof. constructor; vm_compute; (reflexivity || lia). Qed.

Lemma fastForward_moves_witness :
  tracked _ _ _ _ started
  /\ fastForward _ _ _ _ 20 started
     = (goto _ _ _ _ (Nat.min (tpl_pos _ _ _ _ started + 20) (tpl_rawLen _ _ _ _
         started))
          started,
        tpl_pos _ _ _ _ started + 20 <? tpl_rawLen _ _ _ _ started).
Proof.
  split; [exact started_tracked|].
  apply (fastForward_moves string handler vars unit 20 started started_tracked).
  vm_compute. lia.
Defined.

Lemma FromString_unterminated_comment_witness :
  FromString string handler vars unit newExpr_strict addFilter Tags (Some []) "t"
      "ab{#x#" None
  = Some (inr "[Parsing error: t] [Line 1, Column 6] File end reached within comment").
Proof.
  apply (FromString_unterminated_comment string handler vars unit newExpr_strict
           addFilter Tags (Some []) "t" "ab" "x#" None).
  - reflexivity.
  - intros [|[|i]] H; vm_compute in H |- *; discriminate.
Defined.

Lemma FromString_lone_brace_witness :
  FromString string handler vars unit newExpr_strict addFilter Tags (Some []) "t"
      "ab{" None
  = Some (inr
      "[Parsing error: t] [Line 1, Column 3] File end reached (after opening '{')").
Proof.
  apply (FromString_lone_brace string handler vars unit newExpr_strict addFilter Tags
           (Some []) "t" "ab" None).
  reflexivity.
Defined.

Lemma FromFile_reads_witness :
  FromFile string handler vars newExpr_strict addFilter Tags (Some []) files is_abs
      abs_path read_file dir_of base_of join_path disk "/tpl/index.html" None
  = FromString string handler vars (fileLocator files) newExpr_strict addFilter Tags
      (Some []) (base_of "/tpl/index.html") "Hello {{ name }}!"
      (Some (default_locator files is_abs read_file join_path
               (dir_of "/tpl/index.html"))).
Proof.
  apply (FromFile_reads string handler vars newExpr_strict addFilter Tags (Some [])
           files is_abs abs_path read_file dir_of base_of join_path disk
           "/tpl/index.html" "/tpl/index.html" "Hello {{ name }}!" None);
    vm_compute; reflexivity.
Defined.

Lemma index_read :
  FromFile string handler vars newExpr_strict addFilter Tags (Some []) files is_abs
    abs_path read_file dir_of base_of join_path disk "/tpl/index.html" None
  = Some (inl index_template).
Proof. vm_compute. reflexivity. Qed.

Lemma FromFile_default_locator_witness :
  FromFile string handler vars newExpr_strict addFilter Tags (Some []) files is_abs
      abs_path read_file dir_of base_of join_path disk "/tpl/index.html" None
  = Some (inl index_template)
  /\ exists abs l,
       resolved files is_abs abs_path disk "/tpl/index.html" = inl abs
       /\ read_file disk abs = inl (tpl_raw _ _ _ _ index_template)
       /\ tpl_name _ _ _ _ index_template = base_of abs
       /\ tpl_locator _ _ _ _ index_template = Some l
       /\ forall os' name,
            let filename := if is_abs name then name else join_path (dir_of abs) name in
            l os' name =
              match read_file os' filename with
              | inl buf => inl buf
              | inr err =>
                  inr ("Could not find the template '" +:+ filename
                       +:+ "' (default file locator): " +:+ err)
              end.
Proof.
  split; [exact index_read|].
  exact (FromFile_default_locator string handler vars newExpr_strict addFilter Tags
           (Some []) files is_abs abs_path read_file dir_of base_of join_path disk
           "/tpl/index.html" index_template index_read).
Defined.

End Demo.
